(** * Planning poker: the session registry, the voting result and the
      real-time channel, embedded in Rocq.

    Sources embedded here:
    - [src/app/utils/SessionManager.ts]   (class [SessionManager])
    - [src/app/components/VotingResult.vue] ([voters], [hasConsensus],
      [voteDistribution])
    - the [useWebSocket] composable        ([connect], [disconnect],
      [send], [on], [once], [emitEvent])
    - [src/app/components/JoinSessionForm.vue] ([isValid],
      [handleSubmit]) and the list of participants
      ([sortedParticipants])

    Conventions.  JavaScript strings are modelled by [string]; the
    model is exact on ASCII text.  A JavaScript [Map] is an
    insertion-ordered association list ([JsMap]), a [Set] an
    insertion-ordered list without repetition ([JsSet]).  Times are
    integer milliseconds ([Z]).  Objects kept in a [Map] and mutated
    through a reference are modelled by replacing the value stored under
    their key.  Everything the code draws from its environment
    (generated identifiers, [Date.now()], [Math.random()]) is an explicit
    argument.  A call that can exhaust the stack ends by returning or by
    throwing, and leaves a registry in either case. *)

From Stdlib Require Import List String Ascii ZArith Lia Bool Arith PeanoNat.
From Stdlib Require Import DecimalString.
From Stdlib Require Import Sorted Permutation.
Import ListNotations.

Set Warnings "-register-all".

Local Open Scope string_scope.
Local Open Scope list_scope.

(* ================================================================== *)
(** ** JavaScript strings *)

Module JsString.

Definition isLowerAscii (c : ascii) : bool :=
  (97 <=? nat_of_ascii c)%nat && (nat_of_ascii c <=? 122)%nat.

Definition upperChar (c : ascii) : ascii :=
  if isLowerAscii c then ascii_of_nat (nat_of_ascii c - 32) else c.

(** [String.prototype.toUpperCase], on ASCII text. *)
Fixpoint toUpperCase (s : string) : string :=
  match s with
  | EmptyString => EmptyString
  | String c r => String (upperChar c) (toUpperCase r)
  end.

(** The white space and line terminators [trim] strips, on ASCII text:
    TAB, LF, VT, FF, CR and SPACE. *)
Definition isSpace (c : ascii) : bool :=
  let n := nat_of_ascii c in
  ((9 <=? n)%nat && (n <=? 13)%nat) || (n =? 32)%nat.

Fixpoint trimStart (s : string) : string :=
  match s with
  | EmptyString => EmptyString
  | String c r => if isSpace c then trimStart r else s
  end.

Fixpoint trimEnd (s : string) : string :=
  match s with
  | EmptyString => EmptyString
  | String c r =>
      match trimEnd r with
      | EmptyString => if isSpace c then EmptyString else String c EmptyString
      | r' => String c r'
      end
  end.

(** [String.prototype.trim]. *)
Definition trim (s : string) : string := trimEnd (trimStart s).

(** [String.prototype.charAt]: the one-character string at index [i], or
    the empty string when [i] is out of range. *)
Definition charAt (s : string) (i : nat) : string :=
  match String.get i s with
  | Some c => String c EmptyString
  | None => EmptyString
  end.

(** Truthiness of a string: only the empty string is falsy. *)
Definition truthy (s : string) : bool :=
  match s with EmptyString => false | _ => true end.

Fixpoint chars (s : string) : list ascii :=
  match s with
  | EmptyString => []
  | String c r => c :: chars r
  end.

End JsString.

(* ================================================================== *)
(** ** JavaScript [Map] with string keys

    Entries are kept in insertion order.  [set] on a key already present
    replaces its value in place, on a new key appends; [delete] removes
    the entry. *)

Module JsMap.

Section Ops.
Context {V : Type}.

Definition t : Type := list (string * V).

Definition empty : t := [].

Fixpoint get (k : string) (m : t) : option V :=
  match m with
  | [] => None
  | (k', v) :: r => if String.eqb k' k then Some v else get k r
  end.

Definition has (k : string) (m : t) : bool :=
  match get k m with Some _ => true | None => false end.

Fixpoint set (k : string) (v : V) (m : t) : t :=
  match m with
  | [] => [(k, v)]
  | (k', v') :: r =>
      if String.eqb k' k then (k, v) :: r else (k', v') :: set k v r
  end.

Definition delete (k : string) (m : t) : t :=
  filter (fun e => negb (String.eqb (fst e) k)) m.

Definition size (m : t) : nat := List.length m.

Definition keys (m : t) : list string := map fst m.

Definition entries (m : t) : list (string * V) := m.

(** A real [Map] holds each key once. *)
Definition wf (m : t) : Prop := NoDup (keys m).

End Ops.

Arguments t : clear implicits.

End JsMap.

(* ================================================================== *)
(** ** JavaScript [Set]

    Elements are kept in insertion order and compared by identity; the
    element type comes with its decidable identity test. *)

Module JsSet.

Section Ops.
Context {A : Type} (eqb : A -> A -> bool).

Definition t : Type := list A.

Definition has (x : A) (s : t) : bool := existsb (eqb x) s.

Definition add (x : A) (s : t) : t := if has x s then s else s ++ [x].

Definition delete (x : A) (s : t) : t := filter (fun y => negb (eqb x y)) s.

End Ops.

End JsSet.

(* ================================================================== *)
(** ** Participants and sessions *)

Definition PokerValue : Type := string.

Module Participant.

(** Modelled from the spec: the [Participant] class ([./Participant]) is
    not among the sources; its fields are those of the data model
    ([id], [name], [isObserver], [selectedValue], null meaning "not yet
    voted").  They are also the fields of [IParticipant] that
    [VotingResult.vue] reads. *)
Record t : Type := mk {
  id : string;
  name : string;
  isObserver : bool;
  selectedValue : option PokerValue
}.

(** Modelled from the spec: [new Participant(name, isObserver = false)].
    The identifier generated at construction is the argument [newId]. *)
Definition make (newId : string) (name : string) (asObserver : bool) : t :=
  {| id := newId; name := name; isObserver := asObserver;
     selectedValue := None |}.

End Participant.

Module Session.

Inductive Status : Type := waiting | voting | revealed | completed.

(** Session settings, kept as the key/value pairs given at creation. *)
Definition ISessionConfig : Type := list (string * string).

(** Modelled from the spec: the [Session] class ([./Session]) is not
    among the sources; its fields are those of the data model.  The
    registry reads [id], [participants] and [updatedAt]. *)
Record t : Type := mk {
  id : string;
  name : string;
  hostId : string;
  participants : list Participant.t;
  status : Status;
  currentStory : option string;
  currentDescription : option string;
  config : ISessionConfig;
  createdAt : Z;
  updatedAt : Z
}.

(** Modelled from the spec: [new Session(name, hostId, config)].  The
    generated identifier is [newId], the construction time [now]; the
    initial state is [waiting], with no participant and no story. *)
Definition make (newId : string) (now : Z) (name hostId : string)
    (config : option ISessionConfig) : t :=
  {| id := newId; name := name; hostId := hostId; participants := [];
     status := waiting; currentStory := None; currentDescription := None;
     config := match config with Some c => c | None => [] end;
     createdAt := now; updatedAt := now |}.

Definition hasParticipant (pid : string) (s : t) : bool :=
  existsb (fun p => String.eqb (Participant.id p) pid) (participants s).

Definition withParticipants (ps : list Participant.t) (now : Z) (s : t) : t :=
  {| id := id s; name := name s; hostId := hostId s; participants := ps;
     status := status s; currentStory := currentStory s;
     currentDescription := currentDescription s; config := config s;
     createdAt := createdAt s; updatedAt := now |}.

(** Modelled from the spec: [addParticipant] appends the participant
    unless one with the same id is present, returns whether it was added
    and refreshes [updatedAt]. *)
Definition addParticipant (now : Z) (p : Participant.t) (s : t) : bool * t :=
  if hasParticipant (Participant.id p) s then (false, s)
  else (true, withParticipants (participants s ++ [p]) now s).

(** Modelled from the spec: [removeParticipant] removes by id, returns
    whether a participant was present and removed and refreshes
    [updatedAt]. *)
Definition removeParticipant (now : Z) (pid : string) (s : t) : bool * t :=
  if hasParticipant pid s then
    (true,
     withParticipants
       (filter (fun p => negb (String.eqb (Participant.id p) pid))
          (participants s)) now s)
  else (false, s).

End Session.

(* ================================================================== *)
(** ** The session registry ([SessionManager.ts]) *)

Module SessionManager.

(** [CleanupConfig]. *)
Record CleanupConfig : Type := mkCleanupConfig {
  checkInterval : Z;
  maxInactivity : Z;
  deleteWhenEmpty : bool
}.

Definition DEFAULT_CLEANUP_CONFIG : CleanupConfig :=
  {| checkInterval := 60000;
     maxInactivity := 30 * 60000;
     deleteWhenEmpty := true |}.

(** [Partial<CleanupConfig>]: each field present or absent. *)
Record PartialCleanupConfig : Type := mkPartialCleanupConfig {
  checkInterval_opt : option Z;
  maxInactivity_opt : option Z;
  deleteWhenEmpty_opt : option bool
}.

(** [{ ...DEFAULT_CLEANUP_CONFIG, ...config }]. *)
Definition mergeCleanupConfig (config : option PartialCleanupConfig)
    : CleanupConfig :=
  match config with
  | None => DEFAULT_CLEANUP_CONFIG
  | Some c =>
      {| checkInterval :=
           match checkInterval_opt c with
           | Some v => v
           | None => checkInterval DEFAULT_CLEANUP_CONFIG
           end;
         maxInactivity :=
           match maxInactivity_opt c with
           | Some v => v
           | None => maxInactivity DEFAULT_CLEANUP_CONFIG
           end;
         deleteWhenEmpty :=
           match deleteWhenEmpty_opt c with
           | Some v => v
           | None => deleteWhenEmpty DEFAULT_CLEANUP_CONFIG
           end |}
  end.

(** The handle [setInterval] returns, recorded with its period. *)
Inductive IntervalId : Type := Interval (period : Z).

(** The instance fields of [SessionManager]. *)
Record t : Type := mk {
  sessions : JsMap.t Session.t;
  joinCodes : JsMap.t string;
  cleanupConfig : CleanupConfig;
  cleanupIntervalId : option IntervalId
}.

(** [new SessionManager(config)]. *)
Definition create (config : option PartialCleanupConfig) : t :=
  {| sessions := JsMap.empty; joinCodes := JsMap.empty;
     cleanupConfig := mergeCleanupConfig config;
     cleanupIntervalId := None |}.

Definition withSessions (ss : JsMap.t Session.t) (m : t) : t :=
  {| sessions := ss; joinCodes := joinCodes m;
     cleanupConfig := cleanupConfig m;
     cleanupIntervalId := cleanupIntervalId m |}.

Definition withJoinCodes (jc : JsMap.t string) (m : t) : t :=
  {| sessions := sessions m; joinCodes := jc;
     cleanupConfig := cleanupConfig m;
     cleanupIntervalId := cleanupIntervalId m |}.

Definition withIntervalId (i : option IntervalId) (m : t) : t :=
  {| sessions := sessions m; joinCodes := joinCodes m;
     cleanupConfig := cleanupConfig m;
     cleanupIntervalId := i |}.

(** [startCleanup]: nothing when the interval is already active. *)
Definition startCleanup (m : t) : t :=
  match cleanupIntervalId m with
  | Some _ => m
  | None =>
      withIntervalId (Some (Interval (checkInterval (cleanupConfig m)))) m
  end.

(** [stopCleanup]. *)
Definition stopCleanup (m : t) : t :=
  match cleanupIntervalId m with
  | Some _ => withIntervalId None m
  | None => m
  end.

(** What one call draws from its environment: the identifiers the
    [Participant] and [Session] constructors generate, the current time,
    the values [Math.floor(Math.random() * n)] will take, in order
    ([random k] is reduced below [n]), and how many nested calls of
    [generateJoinCode] the call stack allows. *)
Record Env : Type := mkEnv {
  newParticipantId : string;
  newSessionId : string;
  now : Z;
  random : nat -> nat;
  stackDepth : nat
}.

(** Modelled from the spec: [JOIN_CODE_LENGTH] is a constant of
    [~/types/poker], which is not among the sources; the spec gives the
    length of a join code as 6. *)
Definition JOIN_CODE_LENGTH : nat := 6.

(** How a call ends: it returns a result, or it throws; [after] is the
    registry it leaves in either case. *)
Inductive Completion (A : Type) : Type :=
| Returns (result : A) (after : t)
| Throws (after : t).

Arguments Returns {A} result after.
Arguments Throws {A} after.

Section JoinCodes.

(** [JOIN_CODE_CHARS] is a constant of [~/types/poker], which is not
    among the sources: the alphabet is a parameter. *)
Variable JOIN_CODE_CHARS : string.

(** [Math.floor(Math.random() * JOIN_CODE_CHARS.length)]. *)
Definition randomIndex (r : nat) : nat :=
  r mod String.length JOIN_CODE_CHARS.

(** The [for] loop of [generateJoinCode]: [n] more characters are
    appended to [code], the draws being read from position [pos]. *)
Fixpoint drawCode (n : nat) (rnd : nat -> nat) (pos : nat) (code : string)
    : string :=
  match n with
  | O => code
  | S n' =>
      drawCode n' rnd (S pos)
        (code ++ JsString.charAt JOIN_CODE_CHARS (randomIndex (rnd pos)))
  end.

(** [generateJoinCode]: a code already in [joinCodes] is drawn again by
    a recursive call; [depth] bounds the nesting, and [None] is a call
    that does not return: the stack is exhausted and the engine throws a
    [RangeError]. *)
Fixpoint generateJoinCode (depth : nat) (rnd : nat -> nat) (pos : nat)
    (m : t) : option string :=
  match depth with
  | O => None
  | S depth' =>
      let code := drawCode JOIN_CODE_LENGTH rnd pos "" in
      if JsMap.has code (joinCodes m)
      then generateJoinCode depth' rnd (pos + JOIN_CODE_LENGTH) m
      else Some code
  end.

(** [createSession]'s result: [{ session, host, joinCode }]. *)
Record Created : Type := mkCreated {
  session : Session.t;
  host : Participant.t;
  joinCode : string
}.

(** [createSession(name, hostName, config)].  The session is stored
    before [generateJoinCode] runs: when that call finds no free code
    within the depth the stack allows, [createSession] throws and leaves
    the session in [sessions], without a join code and without having
    started the cleanup. *)
Definition createSession (env : Env) (name hostName : string)
    (config : option Session.ISessionConfig) (m : t) : Completion Created :=
  let host := Participant.make (newParticipantId env) hostName false in
  let session :=
    Session.make (newSessionId env) (now env) name (Participant.id host)
      config in
  let session := snd (Session.addParticipant (now env) host session) in
  let m := withSessions (JsMap.set (Session.id session) session (sessions m)) m in
  match generateJoinCode (stackDepth env) (random env) 0 m with
  | None => Throws m
  | Some joinCode =>
      let m := withJoinCodes
                 (JsMap.set joinCode (Session.id session) (joinCodes m)) m in
      let m := startCleanup m in
      Returns {| session := session; host := host; joinCode := joinCode |} m
  end.

End JoinCodes.

(** [getSessionByJoinCode]. *)
Definition getSessionByJoinCode (joinCode : string) (m : t)
    : option Session.t :=
  let normalizedCode := JsString.trim (JsString.toUpperCase joinCode) in
  match JsMap.get normalizedCode (joinCodes m) with
  | None => None
  | Some sessionId =>
      if negb (JsString.truthy sessionId) then None
      else JsMap.get sessionId (sessions m)
  end.

(** [getSessionById]. *)
Definition getSessionById (sessionId : string) (m : t) : option Session.t :=
  JsMap.get sessionId (sessions m).

(** The loop of [getJoinCode] over [joinCodes.entries()]. *)
Fixpoint findJoinCode (sessionId : string) (entries : list (string * string))
    : option string :=
  match entries with
  | [] => None
  | (code, id) :: r =>
      if String.eqb id sessionId then Some code
      else findJoinCode sessionId r
  end.

(** [getJoinCode]. *)
Definition getJoinCode (sessionId : string) (m : t) : option string :=
  findJoinCode sessionId (JsMap.entries (joinCodes m)).

(** [joinSession]: [None] when the code resolves to no session or the
    session does not add the participant.  The session object found is
    the one stored under the id the code maps to; what [addParticipant]
    does to it is written back there. *)
Definition joinSession (newId : string) (now : Z) (joinCode : string)
    (participantName : string) (asObserver : bool) (m : t)
    : option (Session.t * Participant.t) * t :=
  match getSessionByJoinCode joinCode m with
  | None => (None, m)
  | Some session =>
      let participant := Participant.make newId participantName asObserver in
      let (added, session') := Session.addParticipant now participant session in
      let key := JsString.trim (JsString.toUpperCase joinCode) in
      let sid := match JsMap.get key (joinCodes m) with
                 | Some sid => sid
                 | None => Session.id session
                 end in
      let m' := withSessions (JsMap.set sid session' (sessions m)) m in
      if added then (Some (session', participant), m') else (None, m')
  end.

(** The loop of [deleteSession] over [joinCodes.entries()]: the first
    code that maps to [sessionId] is deleted, then the loop breaks. *)
Fixpoint releaseJoinCode (sessionId : string)
    (entries : list (string * string)) (codes : JsMap.t string)
    : JsMap.t string :=
  match entries with
  | [] => codes
  | (code, id) :: r =>
      if String.eqb id sessionId then JsMap.delete code codes
      else releaseJoinCode sessionId r codes
  end.

(** [deleteSession]. *)
Definition deleteSession (sessionId : string) (m : t) : bool * t :=
  match JsMap.get sessionId (sessions m) with
  | None => (false, m)
  | Some _ =>
      let m := withJoinCodes
                 (releaseJoinCode sessionId (JsMap.entries (joinCodes m))
                    (joinCodes m)) m in
      let m := withSessions (JsMap.delete sessionId (sessions m)) m in
      let m := if (JsMap.size (sessions m) =? 0)%nat then stopCleanup m else m in
      (true, m)
  end.

(** [cleanupIfEmpty]. *)
Definition cleanupIfEmpty (sessionId : string) (m : t) : t :=
  match JsMap.get sessionId (sessions m) with
  | Some session =>
      if (List.length (Session.participants session) =? 0)%nat
      then snd (deleteSession sessionId m)
      else m
  | None => m
  end.

(** [leaveSession]. *)
Definition leaveSession (now : Z) (sessionId participantId : string) (m : t)
    : bool * t :=
  match JsMap.get sessionId (sessions m) with
  | None => (false, m)
  | Some session =>
      let (removed, session') :=
        Session.removeParticipant now participantId session in
      let m := withSessions (JsMap.set sessionId session' (sessions m)) m in
      let m := if removed && deleteWhenEmpty (cleanupConfig m)
               then cleanupIfEmpty sessionId m
               else m in
      (removed, m)
  end.

(** The body of the loop of [performCleanup], for the entry
    [sessionId, session]. *)
Definition cleanupEntry (now : Z) (sessionId : string) (session : Session.t)
    (m : t) : t :=
  if deleteWhenEmpty (cleanupConfig m)
     && (List.length (Session.participants session) =? 0)%nat
  then snd (deleteSession sessionId m)
  else
    let lastActivity := Session.updatedAt session in
    if (now - lastActivity >? maxInactivity (cleanupConfig m))%Z
    then snd (deleteSession sessionId m)
    else m.

(** The loop of [performCleanup] over [sessions.entries()].  The
    iteration is live: an entry deleted before it is reached is not
    visited.  [ids] are the keys yet to visit, in insertion order. *)
Fixpoint cleanupLoop (now : Z) (ids : list string) (m : t) : t :=
  match ids with
  | [] => m
  | sessionId :: r =>
      match JsMap.get sessionId (sessions m) with
      | None => cleanupLoop now r m
      | Some session => cleanupLoop now r (cleanupEntry now sessionId session m)
      end
  end.

(** [performCleanup], run at time [now]. *)
Definition performCleanup (now : Z) (m : t) : t :=
  cleanupLoop now (JsMap.keys (sessions m)) m.

(** [getAllSessions] and [getSessionCount]. *)
Definition getAllSessions (m : t) : list Session.t := map snd (sessions m).

Definition getSessionCount (m : t) : nat := JsMap.size (sessions m).

End SessionManager.

(* ================================================================== *)
(** ** The voting result ([VotingResult.vue]) *)

Module VotingResult.

(** [p.selectedValue !== null]. *)
Definition hasVoted (p : Participant.t) : bool :=
  match Participant.selectedValue p with Some _ => true | None => false end.

(** Strict equality [===] of two selected values. *)
Definition sameValue (a b : option PokerValue) : bool :=
  match a, b with
  | Some x, Some y => String.eqb x y
  | None, None => true
  | _, _ => false
  end.

(** [voters]: the participants that are no observers and have voted. *)
Definition voters (participants : list Participant.t) : list Participant.t :=
  filter (fun p => negb (Participant.isObserver p) && hasVoted p) participants.

(** [hasConsensus]. *)
Definition hasConsensus (participants : list Participant.t) : bool :=
  if (List.length (voters participants) <? 2)%nat then false
  else
    match nth_error (voters participants) 0 with
    | None => false
    | Some firstVoter =>
        let firstVote := Participant.selectedValue firstVoter in
        forallb (fun p => sameValue (Participant.selectedValue p) firstVote)
          (voters participants)
    end.

End VotingResult.

(* ================================================================== *)
(** ** JSON values and [JSON.stringify] *)

Module Json.

Local Open Scope string_scope.

Inductive t : Type :=
| Null
| Bool (b : bool)
| Number (n : Z)
| Str (s : string)
| Array (items : list t)
| Object (fields : list (string * t)).

Definition quoteChar : ascii := ascii_of_nat 34.
Definition backslash : ascii := ascii_of_nat 92.

Definition hexDigit (n : nat) : ascii :=
  if (n <? 10)%nat then ascii_of_nat (48 + n) else ascii_of_nat (87 + n).

(** One character of a quoted JSON string. *)
Definition escapeChar (c : ascii) : string :=
  let n := nat_of_ascii c in
  if (n =? 34)%nat then String backslash (String quoteChar "")
  else if (n =? 92)%nat then String backslash (String backslash "")
  else if (n =? 8)%nat then String backslash "b"
  else if (n =? 9)%nat then String backslash "t"
  else if (n =? 10)%nat then String backslash "n"
  else if (n =? 12)%nat then String backslash "f"
  else if (n =? 13)%nat then String backslash "r"
  else if (n <? 32)%nat then
    String backslash
      ("u00" ++ String (hexDigit (n / 16)) (String (hexDigit (n mod 16)) ""))
  else String c "".

Fixpoint escape (s : string) : string :=
  match s with
  | EmptyString => EmptyString
  | String c r => escapeChar c ++ escape r
  end.

Definition quote (s : string) : string :=
  String quoteChar (escape s) ++ String quoteChar "".

(** An integer in decimal, as [JSON.stringify] and template literals
    print it. *)
Definition decimal (n : Z) : string :=
  DecimalString.NilZero.string_of_int (Z.to_int n).

(** [JSON.stringify]. *)
Fixpoint stringify (j : t) : string :=
  match j with
  | Null => "null"
  | Bool true => "true"
  | Bool false => "false"
  | Number n => decimal n
  | Str s => quote s
  | Array items =>
      "[" ++
      (fix go (l : list t) : string :=
         match l with
         | [] => ""
         | x :: [] => stringify x
         | x :: r => stringify x ++ "," ++ go r
         end) items
      ++ "]"
  | Object fields =>
      "{" ++
      (fix go (l : list (string * t)) : string :=
         match l with
         | [] => ""
         | (k, v) :: [] => quote k ++ ":" ++ stringify v
         | (k, v) :: r => quote k ++ ":" ++ stringify v ++ "," ++ go r
         end) fields
      ++ "}"
  end.

End Json.

(* ================================================================== *)
(** ** The real-time channel ([useWebSocket])

    The module-level variables of the composable are the fields of
    [Global].  Each function of the composable is an [Action]: it maps
    the globals to the new globals and lists, in order, what it does to
    its surroundings (the [Effect]s). *)

Module WebSocket.

Local Open Scope string_scope.

(** [WebSocket.readyState]. *)
Inductive ReadyState : Type := CONNECTING | OPEN | CLOSING | CLOSED.

(** [ConnectionStatus]. *)
Inductive ConnectionStatus : Type :=
  disconnected | connecting | connected | error.

(** A handler function, known by its identity. *)
Definition MessageHandler : Type := nat.

(** Two references to the same function. *)
Definition sameHandler : MessageHandler -> MessageHandler -> bool := Nat.eqb.

Inductive Effect : Type :=
| NewWebSocket (url : string)
| SocketSend (data : string)
| SocketClose
| SetTimeout (delay : Z)
| ClearTimeout
| SetInterval (period : Z)
| ClearInterval
| ConsoleLog (msg : string)
| ConsoleWarn (msg : string)
| ConsoleError (msg : string)
| Invoke (handler : MessageHandler) (payload : Json.t)
| OnMounted.

(** The global singleton state.  [globalWs] holds the ready state of the
    socket it refers to; a timer handle is recorded with its delay. *)
Record Global : Type := mkGlobal {
  globalWs : option ReadyState;
  globalReconnectAttempts : Z;
  globalReconnectTimer : option Z;
  globalPingInterval : option Z;
  globalHandlers : JsMap.t (JsSet.t (A := MessageHandler));
  globalStatus : ConnectionStatus;
  isInitialized : bool
}.

Definition initial : Global :=
  {| globalWs := None; globalReconnectAttempts := 0;
     globalReconnectTimer := None; globalPingInterval := None;
     globalHandlers := JsMap.empty; globalStatus := disconnected;
     isInitialized := false |}.

(** [UseWebSocketOptions], after the defaults are filled in. *)
Record Options : Type := mkOptions {
  autoConnect : bool;
  autoReconnect : bool;
  maxReconnectAttempts : Z;
  reconnectDelay : Z
}.

Definition defaultOptions : Options :=
  {| autoConnect := true; autoReconnect := true;
     maxReconnectAttempts := 5; reconnectDelay := 1000 |}.

(** Where the composable runs: [import.meta.client] and
    [window.location]. *)
Record Runtime : Type := mkRuntime {
  client : bool;
  protocol : string;
  locationHost : string
}.

Definition setWs (ws : option ReadyState) (g : Global) : Global :=
  {| globalWs := ws;
     globalReconnectAttempts := globalReconnectAttempts g;
     globalReconnectTimer := globalReconnectTimer g;
     globalPingInterval := globalPingInterval g;
     globalHandlers := globalHandlers g;
     globalStatus := globalStatus g;
     isInitialized := isInitialized g |}.

Definition setReconnectAttempts (n : Z) (g : Global) : Global :=
  {| globalWs := globalWs g;
     globalReconnectAttempts := n;
     globalReconnectTimer := globalReconnectTimer g;
     globalPingInterval := globalPingInterval g;
     globalHandlers := globalHandlers g;
     globalStatus := globalStatus g;
     isInitialized := isInitialized g |}.

Definition setReconnectTimer (t : option Z) (g : Global) : Global :=
  {| globalWs := globalWs g;
     globalReconnectAttempts := globalReconnectAttempts g;
     globalReconnectTimer := t;
     globalPingInterval := globalPingInterval g;
     globalHandlers := globalHandlers g;
     globalStatus := globalStatus g;
     isInitialized := isInitialized g |}.

Definition setPingInterval (t : option Z) (g : Global) : Global :=
  {| globalWs := globalWs g;
     globalReconnectAttempts := globalReconnectAttempts g;
     globalReconnectTimer := globalReconnectTimer g;
     globalPingInterval := t;
     globalHandlers := globalHandlers g;
     globalStatus := globalStatus g;
     isInitialized := isInitialized g |}.

Definition setHandlers (h : JsMap.t (JsSet.t (A := MessageHandler)))
    (g : Global) : Global :=
  {| globalWs := globalWs g;
     globalReconnectAttempts := globalReconnectAttempts g;
     globalReconnectTimer := globalReconnectTimer g;
     globalPingInterval := globalPingInterval g;
     globalHandlers := h;
     globalStatus := globalStatus g;
     isInitialized := isInitialized g |}.

Definition setStatus (s : ConnectionStatus) (g : Global) : Global :=
  {| globalWs := globalWs g;
     globalReconnectAttempts := globalReconnectAttempts g;
     globalReconnectTimer := globalReconnectTimer g;
     globalPingInterval := globalPingInterval g;
     globalHandlers := globalHandlers g;
     globalStatus := s;
     isInitialized := isInitialized g |}.

Definition setInitialized (b : bool) (g : Global) : Global :=
  {| globalWs := globalWs g;
     globalReconnectAttempts := globalReconnectAttempts g;
     globalReconnectTimer := globalReconnectTimer g;
     globalPingInterval := globalPingInterval g;
     globalHandlers := globalHandlers g;
     globalStatus := globalStatus g;
     isInitialized := b |}.

(** *** Actions *)

Definition Action : Type := Global -> Global * list Effect.

Definition skip : Action := fun g => (g, []).

Definition seq (a b : Action) : Action :=
  fun g =>
    let (g1, e1) := a g in
    let (g2, e2) := b g1 in
    (g2, (e1 ++ e2)%list).

Definition perform (e : Effect) : Action := fun g => (g, [e]).

Definition assign (f : Global -> Global) : Action := fun g => (f g, []).

Definition reading {A : Type} (f : Global -> A) (k : A -> Action) : Action :=
  fun g => k (f g) g.

Definition when (c : bool) (a : Action) : Action := if c then a else skip.

Declare Scope action_scope.
Delimit Scope action_scope with action.
Bind Scope action_scope with Action.
Notation "a ;; b" := (seq a b) (at level 61, right associativity)
  : action_scope.
Notation "'let*' x ':=' f 'in' k" := (reading f (fun x => k))
  (at level 61, x name, k at level 200) : action_scope.

Local Open Scope action_scope.

(** [globalWs?.readyState === WebSocket.OPEN]. *)
Definition isOpen (g : Global) : bool :=
  match globalWs g with Some OPEN => true | _ => false end.

(** [getWebSocketUrl]. *)
Definition getWebSocketUrl (rt : Runtime) : string :=
  if negb (client rt) then ""
  else
    let protocol := if String.eqb (protocol rt) "https:" then "wss:" else "ws:" in
    protocol ++ "//" ++ locationHost rt ++ "/_ws".

(** [emitEvent].  A handler is known by its identity only: every handler
    of the type is invoked, and what the handlers themselves do is no
    part of this action.  The one handler this module itself creates, the
    closure of [once], removes itself when it is invoked; the dispatch
    with such closures is [Subscriptions.dispatch]. *)
Definition emitEvent (type : string) (payload : Json.t) : Action :=
  let* handlers := globalHandlers in
  match JsMap.get type handlers with
  | Some typeHandlers =>
      fun g => (g, map (fun handler => Invoke handler payload) typeHandlers)
  | None => skip
  end.

(** [cleanup]. *)
Definition cleanup : Action :=
  let* ping := globalPingInterval in
  match ping with
  | Some _ => perform ClearInterval ;; assign (setPingInterval None)
  | None => skip
  end.

(** The envelope [{ type, payload, timestamp }]. *)
Definition envelope (type : string) (payload : Json.t) (timestamp : Z)
    : Json.t :=
  Json.Object
    [("type", Json.Str type); ("payload", payload);
     ("timestamp", Json.Number timestamp)].

(** [send(type, payload)], [now] being [Date.now()]. *)
Definition send (now : Z) (type : string) (payload : Json.t) : Action :=
  let* open := isOpen in
  if negb open then
    perform (ConsoleWarn "[WebSocket] Cannot send message: not connected")
  else
    let message := envelope type payload now in
    perform (SocketSend (Json.stringify message)).

(** [connect].  [throws]: the [WebSocket] constructor throws. *)
Definition connect (rt : Runtime) (throws : bool) : Action :=
  if negb (client rt) then skip
  else
    let* open := isOpen in
    if open then skip
    else
      assign (setStatus connecting) ;;
      if throws then
        assign (setStatus error) ;;
        perform (ConsoleError "[WebSocket] Failed to connect:")
      else
        perform (NewWebSocket (getWebSocketUrl rt)) ;;
        assign (setWs (Some CONNECTING)).

(** The callback of the ping interval. *)
Definition pingTick (now : Z) : Action :=
  let* open := isOpen in
  when open (send now "ping" (Json.Object [])).

(** [globalWs.onopen]. *)
Definition onopen : Action :=
  assign (setStatus connected) ;;
  assign (setReconnectAttempts 0) ;;
  perform (ConsoleLog "[WebSocket] Connected") ;;
  perform (SetInterval 30000) ;;
  assign (setPingInterval (Some 30000%Z)).

(** [globalWs.onmessage]; [message] is what [JSON.parse(event.data)]
    gives, [None] when it throws. *)
Definition onmessage (message : option (string * Json.t)) : Action :=
  match message with
  | Some (type, payload) => emitEvent type payload
  | None => perform (ConsoleError "[WebSocket] Error parsing message:")
  end.

(** [reconnectDelay * Math.pow(2, attempts - 1)].  Numbers are integers
    here, where the code computes with doubles: the two agree as long as
    [attempts] is at least 1 and the product is an integer a double holds
    exactly ([exactDouble]); beyond that the code gives a rounded number
    or [Infinity], and for [attempts] below 1 a fraction. *)
Definition backoff (opts : Options) (attempts : Z) : Z :=
  reconnectDelay opts * 2 ^ (attempts - 1).

(** An integer a double holds exactly: [m * 2^e] with [m] below [2^53]
    and [e] at most 971, which is at most the largest double. *)
Definition exactDouble (z : Z) : Prop :=
  exists m e : Z, (z = m * 2 ^ e /\ 0 <= m < 2 ^ 53 /\ 0 <= e <= 971)%Z.

(** [globalWs.onclose]. *)
Definition onclose (opts : Options) : Action :=
  assign (setStatus disconnected) ;;
  cleanup ;;
  perform (ConsoleLog "[WebSocket] Disconnected") ;;
  let* attempts := globalReconnectAttempts in
  when (autoReconnect opts && (attempts <? maxReconnectAttempts opts)%Z)
    (assign (setReconnectAttempts (attempts + 1)) ;;
     let* attempts := globalReconnectAttempts in
     let delay := backoff opts attempts in
     perform
       (ConsoleLog
          ("[WebSocket] Reconnecting in " ++ Json.decimal delay
           ++ "ms (attempt " ++ Json.decimal attempts ++ "/"
           ++ Json.decimal (maxReconnectAttempts opts) ++ ")")) ;;
     perform (SetTimeout delay) ;;
     assign (setReconnectTimer (Some delay))).

(** [globalWs.onerror]. *)
Definition onerror : Action :=
  assign (setStatus error) ;;
  perform (ConsoleError "[WebSocket] Error:").

(** [disconnect]. *)
Definition disconnect (opts : Options) : Action :=
  (let* timer := globalReconnectTimer in
   match timer with
   | Some _ => perform ClearTimeout ;; assign (setReconnectTimer None)
   | None => skip
   end) ;;
  cleanup ;;
  assign (setReconnectAttempts (maxReconnectAttempts opts)) ;;
  (let* ws := globalWs in
   match ws with
   | Some _ => perform SocketClose ;; assign (setWs None)
   | None => skip
   end) ;;
  assign (setStatus disconnected).

(** [on(type, handler)]; the function it returns is [unsubscribe type
    handler]. *)
Definition on (type : string) (handler : MessageHandler) : Action :=
  (let* handlers := globalHandlers in
   when (negb (JsMap.has type handlers))
     (assign (setHandlers (JsMap.set type [] handlers)))) ;;
  let* handlers := globalHandlers in
  match JsMap.get type handlers with
  | Some typeHandlers =>
      assign
        (setHandlers
           (JsMap.set type (JsSet.add sameHandler handler typeHandlers) handlers))
  | None => skip
  end.

(** [() => handlers.get(type)?.delete(handler)]. *)
Definition unsubscribe (type : string) (handler : MessageHandler) : Action :=
  let* handlers := globalHandlers in
  match JsMap.get type handlers with
  | Some typeHandlers =>
      assign
        (setHandlers
           (JsMap.set type (JsSet.delete sameHandler handler typeHandlers)
              handlers))
  | None => skip
  end.

(** The body of [useWebSocket] itself: the first call on a client with
    [autoConnect] registers [connect] to run once the component is
    mounted. *)
Definition useWebSocket (opts : Options) (rt : Runtime) : Action :=
  let* initialized := isInitialized in
  when (client rt && autoConnect opts && negb initialized)
    (assign (setInitialized true) ;;
     perform OnMounted).

(** *** The channel as a machine

    What can happen to the channel: a call of the composable, the
    component being mounted, calls of the functions the composable
    returns, the callbacks of the socket [globalWs] refers to, the two
    timers, and the socket changing its ready state (which it does before
    its callbacks run). *)
Inductive Event : Type :=
| CallUseWebSocket
| Mounted (throws : bool)
| CallConnect (throws : bool)
| CallDisconnect
| CallSend (now : Z) (type : string) (payload : Json.t)
| CallOn (type : string) (handler : MessageHandler)
| CallUnsubscribe (type : string) (handler : MessageHandler)
| SocketOpen
| SocketMessage (message : option (string * Json.t))
| SocketClosed
| SocketError
| ReconnectTimerFires (throws : bool)
| PingTimerFires (now : Z)
| ReadyStateChanges (rs : ReadyState).

Definition step (opts : Options) (rt : Runtime) (ev : Event) : Action :=
  match ev with
  | CallUseWebSocket => useWebSocket opts rt
  | Mounted throws => connect rt throws
  | CallConnect throws => connect rt throws
  | CallDisconnect => disconnect opts
  | CallSend now type payload => send now type payload
  | CallOn type handler => on type handler
  | CallUnsubscribe type handler => unsubscribe type handler
  | SocketOpen => onopen
  | SocketMessage message => onmessage message
  | SocketClosed => onclose opts
  | SocketError => onerror
  | ReconnectTimerFires throws => connect rt throws
  | PingTimerFires now => pingTick now
  | ReadyStateChanges rs =>
      let* ws := globalWs in
      match ws with
      | Some _ => assign (setWs (Some rs))
      | None => skip
      end
  end.

Fixpoint run (opts : Options) (rt : Runtime) (evs : list Event) : Action :=
  match evs with
  | [] => skip
  | ev :: r => step opts rt ev ;; run opts rt r
  end.

End WebSocket.

(* ================================================================== *)
(** ** The registry as a machine, and what is stated about it *)

Module Registry.

Import SessionManager.

(** A character that [toUpperCase] and [trim] leave alone. *)
Definition canonicalChar (c : ascii) : bool :=
  Ascii.eqb (JsString.upperChar c) c && negb (JsString.isSpace c).

(** An alphabet of upper-case characters, none of them white space. *)
Definition upperCaseAlphabet (alphabet : string) : bool :=
  forallb canonicalChar (JsString.chars alphabet).

Definition nonEmpty (s : string) : bool := JsString.truthy s.

(** What can happen to a registry: the calls of its public methods, the
    cleanup interval firing, and a holder of a session object calling one
    of the session's own methods ([OpSession]; the method is any function
    on sessions). *)
Inductive Op : Type :=
| OpCreate (env : Env) (name hostName : string)
    (config : option Session.ISessionConfig)
| OpJoin (newId : string) (now : Z) (joinCode participantName : string)
    (asObserver : bool)
| OpLeave (now : Z) (sessionId participantId : string)
| OpDelete (sessionId : string)
| OpSweep (now : Z)
| OpStartCleanup
| OpStopCleanup
| OpSession (sessionId : string) (method : Session.t -> Session.t).

(** The registry after a call of [op] that returns; [None] when the call
    throws (what it leaves then is [reachable_throw] below). *)
Definition applyOp (alphabet : string) (op : Op) (m : t) : option t :=
  match op with
  | OpCreate env name hostName config =>
      match createSession alphabet env name hostName config m with
      | Returns _ m' => Some m'
      | Throws _ => None
      end
  | OpJoin newId now joinCode participantName asObserver =>
      Some (snd (joinSession newId now joinCode participantName asObserver m))
  | OpLeave now sessionId participantId =>
      Some (snd (leaveSession now sessionId participantId m))
  | OpDelete sessionId => Some (snd (deleteSession sessionId m))
  | OpSweep now => Some (performCleanup now m)
  | OpStartCleanup => Some (startCleanup m)
  | OpStopCleanup => Some (stopCleanup m)
  | OpSession sessionId method =>
      match JsMap.get sessionId (sessions m) with
      | Some s => Some (withSessions (JsMap.set sessionId (method s) (sessions m)) m)
      | None => Some m
      end
  end.

(** Identifiers are unique: the one the [Session] constructor generates
    is the id of no session in the registry. *)
Definition admissible (op : Op) (m : t) : Prop :=
  match op with
  | OpCreate env _ _ _ => JsMap.get (newSessionId env) (sessions m) = None
  | _ => True
  end.

(** The registries a [SessionManager] can be in: the one the constructor
    builds, and what a call leaves, whether it returns or throws. *)
Inductive reachable (alphabet : string) : t -> Prop :=
| reachable_new config : reachable alphabet (create config)
| reachable_step m op m' :
    reachable alphabet m ->
    admissible op m ->
    applyOp alphabet op m = Some m' ->
    reachable alphabet m'
| reachable_throw m env name hostName config m' :
    reachable alphabet m ->
    admissible (OpCreate env name hostName config) m ->
    createSession alphabet env name hostName config m = Throws m' ->
    reachable alphabet m'.

(** The same registries, with the ids of the sessions that were stored
    by a [createSession] call that threw. *)
Inductive history (alphabet : string) : list string -> t -> Prop :=
| history_new config : history alphabet [] (create config)
| history_step failed m op m' :
    history alphabet failed m ->
    admissible op m ->
    applyOp alphabet op m = Some m' ->
    history alphabet failed m'
| history_throw failed m env name hostName config m' :
    history alphabet failed m ->
    admissible (OpCreate env name hostName config) m ->
    createSession alphabet env name hostName config m = Throws m' ->
    history alphabet (newSessionId env :: failed) m'.

(** A well-formed join code: [JOIN_CODE_LENGTH] characters of the
    alphabet. *)
Definition wellFormedCode (alphabet code : string) : Prop :=
  String.length code = JOIN_CODE_LENGTH
  /\ forall c, In c (JsString.chars code) -> In c (JsString.chars alphabet).

(** [joinCodes] is a bijection between the live codes and the ids in
    [sessions], and [getJoinCode] is its inverse. *)
Definition codesAreLive (m : t) : Prop :=
  forall code sessionId,
    JsMap.get code (joinCodes m) = Some sessionId ->
    exists s, JsMap.get sessionId (sessions m) = Some s.


Definition unknownHaveNoCode (m : t) : Prop :=
  forall sessionId,
    JsMap.get sessionId (sessions m) = None ->
    getJoinCode sessionId m = None.


(** [getJoinCode] and [joinCodes] agree: the code of a session is the one
    code that maps to its id. *)
Definition codesAgree (m : t) : Prop :=
  forall code sessionId,
    JsMap.get code (joinCodes m) = Some sessionId
    <-> getJoinCode sessionId m = Some code.

(** The sessions other than those of [failed] have exactly one code. *)
Definition othersHaveOneCode (failed : list string) (m : t) : Prop :=
  forall sessionId s,
    JsMap.get sessionId (sessions m) = Some s ->
    ~ In sessionId failed ->
    exists code,
      getJoinCode sessionId m = Some code
      /\ forall code',
           JsMap.get code' (joinCodes m) = Some sessionId <-> code' = code.

(** The bijection, but for the sessions of [failed]. *)
Definition bijectiveBut (failed : list string) (m : t) : Prop :=
  codesAreLive m /\ codesAgree m /\ othersHaveOneCode failed m
  /\ unknownHaveNoCode m.

(** What the registry keeps true of its two maps: each holds a key
    once, every code maps to a session of the registry, no two codes map
    to one session, and every session of the registry has a code, but
    for those of [failed]. *)
Record consistentBut (failed : list string) (m : t) : Prop := mkConsistent {
  consistent_sessions : JsMap.wf (sessions m);
  consistent_codes : JsMap.wf (joinCodes m);
  consistent_live : codesAreLive m;
  consistent_coded :
    forall sessionId s,
      JsMap.get sessionId (sessions m) = Some s ->
      In sessionId failed
      \/ exists code, JsMap.get code (joinCodes m) = Some sessionId;
  consistent_one :
    forall code1 code2 sessionId,
      JsMap.get code1 (joinCodes m) = Some sessionId ->
      JsMap.get code2 (joinCodes m) = Some sessionId ->
      code1 = code2
}.

(** Every code in [joinCodes] is well formed. *)
Definition codesWellFormed (alphabet : string) (m : t) : Prop :=
  forall code sessionId,
    JsMap.get code (joinCodes m) = Some sessionId ->
    wellFormedCode alphabet code.

(** The sessions one sweep at time [now] reclaims. *)
Definition reclaimed (cfg : CleanupConfig) (now : Z) (s : Session.t) : bool :=
  (deleteWhenEmpty cfg && (List.length (Session.participants s) =? 0)%nat)
  || (now - Session.updatedAt s >? maxInactivity cfg)%Z.

(** A run of [createSession] calls, one per element of [calls]; the
    results are listed in order.  [None] when one of the calls throws. *)
Fixpoint createAll (alphabet : string)
    (calls : list (Env * string * string)) (m : t)
    : option (list Created * t) :=
  match calls with
  | [] => Some ([], m)
  | (env, name, hostName) :: r =>
      match createSession alphabet env name hostName None m with
      | Throws _ => None
      | Returns c m' =>
          match createAll alphabet r m' with
          | None => None
          | Some (cs, m'') => Some (c :: cs, m'')
          end
      end
  end.

End Registry.

(** A concrete setting: an alphabet of unambiguous upper-case letters and
    digits, and the environment of one [createSession] call. *)
Module Example.

Import SessionManager.

Definition alphabet : string := "ABCDEFGHJKLMNPQRSTUVWXYZ23456789".

Definition env1 : Env :=
  {| newParticipantId := "p-1"; newSessionId := "s-1"; now := 1000;
     random := fun k => 7 * k + 3; stackDepth := 100 |}.

Definition env2 : Env :=
  {| newParticipantId := "p-2"; newSessionId := "s-2"; now := 2000;
     random := fun k => 7 * (k / JOIN_CODE_LENGTH) + 7 * k + 3;
     stackDepth := 100 |}.

(** A call that draws the code of "Sprint 1" again and again, on a stack
    that has room for three attempts. *)
Definition env3 : Env :=
  {| newParticipantId := "p-3"; newSessionId := "s-3"; now := 3000;
     random := fun k => 7 * (k mod JOIN_CODE_LENGTH) + 3;
     stackDepth := 3 |}.

Definition registry0 : t := create None.

(** The registry after "Sprint 1" is created by "Alice". *)
Definition registry1 : t :=
  match createSession alphabet env1 "Sprint 1" "Alice" None registry0 with
  | Returns _ m => m
  | Throws m => m
  end.

(** ... and after "Sprint 2" is created by "Bob"; the first code drawn
    for it is the one "Sprint 1" holds. *)
Definition registry2 : t :=
  match createSession alphabet env2 "Sprint 2" "Bob" None registry1 with
  | Returns _ m => m
  | Throws m => m
  end.

(** ... and after the call for "Sprint 3" has thrown. *)
Definition registry3 : t :=
  match createSession alphabet env3 "Sprint 3" "Carol" None registry2 with
  | Returns _ m => m
  | Throws m => m
  end.

End Example.

(* ================================================================== *)
(** ** What is stated about the voting result *)

Module Consensus.

Import VotingResult.

Definition nonObservers (participants : list Participant.t)
    : list Participant.t :=
  filter (fun p => negb (Participant.isObserver p)) participants.

(** Consensus as the glossary words it: all non-observer participants
    selected the identical non-null value, and there are at least two of
    them. *)
Definition allNonObserversAgree (participants : list Participant.t) : Prop :=
  2 <= List.length (nonObservers participants)
  /\ exists v,
       forall p, In p (nonObservers participants) ->
                 Participant.selectedValue p = Some v.

(** Consensus among those who voted: at least two non-observers have
    selected a value, and they all selected the same one. *)
Definition allVotersAgree (participants : list Participant.t) : Prop :=
  2 <= List.length (voters participants)
  /\ exists v,
       forall p, In p (voters participants) ->
                 Participant.selectedValue p = Some v.

Definition alice : Participant.t :=
  Participant.mk "p-1" "Alice" false (Some "5").
Definition bob : Participant.t :=
  Participant.mk "p-2" "Bob" false (Some "5").
Definition carol : Participant.t :=
  Participant.mk "p-3" "Carol" false None.
Definition dave : Participant.t :=
  Participant.mk "p-4" "Dave" true None.

End Consensus.

(* ================================================================== *)
(** ** What is stated about the channel *)

Module Channel.

Import WebSocket.

(** The delays of the reconnects a list of effects schedules. *)
Definition scheduled (es : list Effect) : list Z :=
  flat_map (fun e => match e with SetTimeout d => [d] | _ => [] end) es.

(** The frames a list of effects transmits. *)
Definition transmitted (es : list Effect) : list string :=
  flat_map (fun e => match e with SocketSend d => [d] | _ => [] end) es.

(** The handlers a list of effects invokes, in order. *)
Definition invoked (es : list Effect) : list MessageHandler :=
  flat_map (fun e => match e with Invoke h _ => [h] | _ => [] end) es.

Definition isSocketOpen (ev : Event) : bool :=
  match ev with SocketOpen => true | _ => false end.

(** No successful connect among the events. *)
Definition noSuccessfulConnect (evs : list Event) : bool :=
  forallb (fun ev => negb (isSocketOpen ev)) evs.

(** What an event makes of the attempt counter [a]. *)
Definition nextAttempts (opts : Options) (ev : Event) (a : Z) : Z :=
  match ev with
  | SocketOpen => 0
  | CallDisconnect => maxReconnectAttempts opts
  | SocketClosed =>
      if autoReconnect opts && (a <? maxReconnectAttempts opts)%Z
      then (a + 1)%Z else a
  | _ => a
  end.

(** The reconnect an event schedules when the attempt counter is [a]. *)
Definition nextScheduled (opts : Options) (ev : Event) (a : Z) : list Z :=
  match ev with
  | SocketClosed =>
      if autoReconnect opts && (a <? maxReconnectAttempts opts)%Z
      then [backoff opts (a + 1)] else []
  | _ => []
  end.

(** The handlers registered for a message type, in registration order. *)
Definition handlersFor (type : string) (g : Global) : list MessageHandler :=
  match JsMap.get type (globalHandlers g) with
  | Some typeHandlers => typeHandlers
  | None => []
  end.

Definition registered (type : string) (handler : MessageHandler) (g : Global)
    : bool :=
  JsSet.has sameHandler handler (handlersFor type g).

(** Each set of handlers holds a handler once. *)
Definition handlersWf (g : Global) : Prop :=
  forall type typeHandlers,
    JsMap.get type (globalHandlers g) = Some typeHandlers ->
    NoDup typeHandlers.

(** Symbolic execution of actions. *)
Ltac unfold_actions :=
  cbv [step useWebSocket connect disconnect send on unsubscribe onopen onclose onerror
       onmessage pingTick cleanup emitEvent seq assign perform reading when
       skip].

Ltac simpl_globals :=
  cbn [fst snd app negb andb globalWs globalReconnectAttempts
       globalReconnectTimer globalPingInterval globalHandlers globalStatus
       isInitialized setWs setReconnectAttempts setReconnectTimer
       setPingInterval setHandlers setStatus setInitialized isOpen].

(** Runs an action symbolically, by cases on what it reads. *)
Ltac run_action :=
  unfold_actions;
  repeat (simpl_globals;
          match goal with
          | |- context [match ?x with _ => _ end] =>
              lazymatch type of x with
              | prod _ _ => is_var x; destruct x
              | _ => destruct x eqn:?
              end
          end);
  simpl_globals.

Definition browser : Runtime :=
  {| client := true; protocol := "https:"; locationHost := "poker.example" |}.

(** A connection that is established once ... *)
Definition connectedOnce : list Event :=
  [CallUseWebSocket; Mounted false; ReadyStateChanges OPEN; SocketOpen].

(** ... and one unexpected close, followed by the reconnect the timer
    starts. *)
Definition dropped : list Event :=
  [ReadyStateChanges CLOSED; SocketClosed; ReconnectTimerFires false].

Definition droppedSevenTimes : list Event :=
  (dropped ++ dropped ++ dropped ++ dropped ++ dropped ++ dropped
   ++ dropped)%list.

End Channel.

(* ================================================================== *)
(** ** The registry's life cycle, and the singleton *)

Module Lifecycle.

Import SessionManager Registry.

(** [joinCode.toUpperCase().trim()], the key [getSessionByJoinCode] looks
    up. *)
Definition normalizedCode (joinCode : string) : string :=
  JsString.trim (JsString.toUpperCase joinCode).

(** A string of white space only. *)
Definition blank (s : string) : bool :=
  forallb JsString.isSpace (JsString.chars s).

(** A string that does not begin with white space. *)
Definition noLeadingSpace (s : string) : bool :=
  match s with
  | EmptyString => true
  | String c _ => negb (JsString.isSpace c)
  end.




(** An interval, when set, has the period [checkInterval]. *)
Definition timerHasPeriod (m : t) : Prop :=
  forall period,
    cleanupIntervalId m = Some (Interval period) ->
    period = checkInterval (cleanupConfig m).

(** A sequence of operations, each on the registry the one before left;
    [None] when one of them throws. *)
Fixpoint applyOps (alphabet : string) (ops : list Op) (m : t) : option t :=
  match ops with
  | [] => Some m
  | op :: r =>
      match applyOp alphabet op m with
      | Some m' => applyOps alphabet r m'
      | None => None
      end
  end.

(** The static field [SessionManager.instance]. *)
Definition Instance : Type := option t.

(** [SessionManager.getInstance(config)]: the instance, and the static
    field after the call. *)
Definition getInstance (config : option PartialCleanupConfig)
    (instance : Instance) : t * Instance :=
  match instance with
  | Some m => (m, Some m)
  | None => let m := create config in (m, Some m)
  end.

(** [SessionManager.resetInstance()]: the instance it has stopped, if
    there was one, and the static field after the call. *)
Definition resetInstance (instance : Instance) : option t * Instance :=
  match instance with
  | Some m => (Some (stopCleanup m), None)
  | None => (None, None)
  end.

(** The manager is an object: what an operation does to the instance is
    seen through the static field. *)
Definition onInstance (alphabet : string) (ops : list Op)
    (instance : Instance) : option Instance :=
  match instance with
  | Some m => option_map Some (applyOps alphabet ops m)
  | None => Some None
  end.

(** A policy that sweeps every five seconds and keeps empty sessions,
    and a short life of a registry. *)
Definition examplePolicy : option PartialCleanupConfig :=
  Some {| checkInterval_opt := Some 5000%Z; maxInactivity_opt := None;
          deleteWhenEmpty_opt := Some false |}.

Definition exampleOps : list Op :=
  [OpCreate Example.env1 "Sprint 1" "Alice" None;
   OpLeave 1500 "s-1" "p-1"; OpSweep 2000; OpStopCleanup;
   OpCreate Example.env2 "Sprint 2" "Bob" None].

End Lifecycle.

(* ================================================================== *)
(** ** The vote distribution ([VotingResult.vue]) *)

Module VotingStatistics.

Import VotingResult.

(** [distribution.get(value) || 0]. *)
Definition orZero (n : option nat) : nat :=
  match n with Some n => n | None => 0 end.

(** The body of the [forEach] over the voters: one more vote for the
    voter's value.  A voter has a value; a participant without one leaves
    the map as it is. *)
Definition countVote (distribution : JsMap.t nat) (p : Participant.t)
    : JsMap.t nat :=
  match Participant.selectedValue p with
  | Some value =>
      JsMap.set value (orZero (JsMap.get value distribution) + 1) distribution
  | None => distribution
  end.

(** [Array.prototype.sort(compare)]: the sort is stable, so that with a
    consistent [compare] the result is the one of this insertion sort.
    [compare a b <= 0] keeps [a] before [b]. *)
Fixpoint insertSorted {A : Type} (compare : A -> A -> Z) (x : A) (l : list A)
    : list A :=
  match l with
  | [] => [x]
  | y :: r =>
      if (compare x y <=? 0)%Z then x :: y :: r
      else y :: insertSorted compare x r
  end.

Definition sort {A : Type} (compare : A -> A -> Z) (l : list A) : list A :=
  fold_right (insertSorted compare) [] l.

(** [(a, b) => b[1] - a[1]]. *)
Definition byCountDescending (a b : string * nat) : Z :=
  (Z.of_nat (snd b) - Z.of_nat (snd a))%Z.

(** [voteDistribution]: the votes per value, the most frequent value
    first. *)
Definition voteDistribution (participants : list Participant.t)
    : list (PokerValue * nat) :=
  let distribution :=
    fold_left countVote (voters participants) JsMap.empty in
  sort byCountDescending (JsMap.entries distribution).

(** The number of participants of [l] that selected [value]. *)
Definition votesIn (value : PokerValue) (l : list Participant.t) : nat :=
  List.length
    (filter (fun p => sameValue (Participant.selectedValue p) (Some value)) l).

(** The number of voters that selected [value]. *)
Definition votesFor (value : PokerValue) (participants : list Participant.t)
    : nat :=
  votesIn value (voters participants).

(** An entry comes before the entries that have no more votes. *)
Definition noFewerVotes (a b : string * nat) : Prop := snd b <= snd a.

End VotingStatistics.

(* ================================================================== *)
(** ** More about the channel: dispatch, [once], what is sent *)

Module Subscriptions.

Import WebSocket Channel.

(** How often [connect] was registered to run on mount. *)
Definition mountRequests (es : list Effect) : nat :=
  List.length
    (filter (fun e => match e with OnMounted => true | _ => false end) es).

(** Calls and callbacks of several components, each with the options its
    component passed to [useWebSocket]. *)
Fixpoint runEach (rt : Runtime) (evs : list (Options * Event)) : Action :=
  match evs with
  | [] => skip
  | (opts, ev) :: r => seq (step opts rt ev) (runEach rt r)
  end.

(** A call of [useWebSocket] that asks for the automatic connect. *)
Definition asksToConnect (call : Options * Event) : bool :=
  match snd call with
  | CallUseWebSocket => autoConnect (fst call)
  | _ => false
  end.

(** What the socket is given when an event happens while it is open. *)
Definition frames (ev : Event) : list string :=
  match ev with
  | CallSend now type payload => [Json.stringify (envelope type payload now)]
  | PingTimerFires now =>
      [Json.stringify (envelope "ping" (Json.Object []) now)]
  | _ => []
  end.

(** The socket never becomes [OPEN] during the events. *)
Definition neverOpen (evs : list Event) : bool :=
  forallb (fun ev => match ev with
                     | ReadyStateChanges OPEN => false
                     | _ => true
                     end) evs.

(** What may follow a [disconnect] that has put the attempt counter at
    [limit], without a reconnect being due: no connect succeeds, every
    close is that of a socket whose component does not reconnect or has a
    maximum of at most [limit], and every further [disconnect] is by a
    component with a maximum of at least [limit]. *)
Definition halted (limit : Z) (evs : list (Options * Event)) : bool :=
  forallb (fun call =>
             match snd call with
             | SocketOpen => false
             | SocketClosed =>
                 negb (autoReconnect (fst call))
                 || (maxReconnectAttempts (fst call) <=? limit)%Z
             | CallDisconnect => (limit <=? maxReconnectAttempts (fst call))%Z
             | _ => true
             end) evs.

(** The same events, all of one component. *)
Definition ofOne (opts : Options) (evs : list Event)
    : list (Options * Event) :=
  map (fun ev => (opts, ev)) evs.

(** Neither a successful connect nor a [disconnect] among the events. *)
Definition uninterrupted (evs : list Event) : bool :=
  forallb (fun ev => match ev with
                     | SocketOpen | CallDisconnect => false
                     | _ => true
                     end) evs.

(** The number of closes among the events. *)
Definition closes (evs : list Event) : nat :=
  List.length
    (filter (fun ev => match ev with SocketClosed => true | _ => false end)
       evs).

(** The delays of [n] reconnects in a row, the first after attempt
    [a + 1]. *)
Definition backoffs (opts : Options) (a : Z) (n : nat) : list Z :=
  map (fun k => reconnectDelay opts * 2 ^ (a + Z.of_nat k))%Z (List.seq 0 n).

(** *** [once]

    [once(type, handler)] registers a closure of its own, which calls
    [handler] and then removes itself.  The closures are kept with the
    globals: each is known by its identity and holds the type and the
    handler it was made for. *)
Record State : Type := mkState {
  globals : Global;
  closures : list (MessageHandler * (string * MessageHandler))
}.

(** What the closure with identity [wrapped] holds, if it is one of
    [once]. *)
Definition closureOf (wrapped : MessageHandler) (st : State)
    : option (string * MessageHandler) :=
  match find (fun c => sameHandler wrapped (fst c)) (closures st) with
  | Some c => Some (snd c)
  | None => None
  end.

(** A closure that was just created: known nowhere yet. *)
Definition fresh (wrapped : MessageHandler) (st : State) : Prop :=
  closureOf wrapped st = None
  /\ forall type, registered type wrapped (globals st) = false.

(** [once(type, handler)]; [wrapped] is the identity of the closure the
    call creates. *)
Definition once (wrapped : MessageHandler) (type : string)
    (handler : MessageHandler) (st : State) : State :=
  {| globals := fst (on type wrapped (globals st));
     closures := (wrapped, (type, handler)) :: closures st |}.

(** A call [handler(payload)]: a closure of [once] calls the handler it
    wraps and deletes itself from the handlers of its type; any other
    handler is invoked. *)
Definition call (handler : MessageHandler) (payload : Json.t) (st : State)
    : State * list Effect :=
  match closureOf handler st with
  | Some (type, wrappedHandler) =>
      ({| globals := fst (unsubscribe type handler (globals st));
          closures := closures st |},
       [Invoke wrappedHandler payload])
  | None => (st, [Invoke handler payload])
  end.

(** [typeHandlers.forEach(handler => handler(payload))].  The iteration
    is live: a handler deleted from the set before it is reached is not
    called.  [pending] are the handlers yet to visit. *)
Fixpoint forEach (type : string) (pending : list MessageHandler)
    (payload : Json.t) (st : State) : State * list Effect :=
  match pending with
  | [] => (st, [])
  | handler :: r =>
      if registered type handler (globals st) then
        let (st1, e1) := call handler payload st in
        let (st2, e2) := forEach type r payload st1 in
        (st2, (e1 ++ e2)%list)
      else forEach type r payload st
  end.

(** [emitEvent], closures of [once] included. *)
Definition dispatch (type : string) (payload : Json.t) (st : State)
    : State * list Effect :=
  forEach type (handlersFor type (globals st)) payload st.

(** The handler a call of [h] ends in. *)
Definition target (st : State) (h : MessageHandler) : MessageHandler :=
  match closureOf h st with
  | Some (_, wrappedHandler) => wrappedHandler
  | None => h
  end.

(** A closure of [once]. *)
Definition isOnce (st : State) (h : MessageHandler) : bool :=
  match closureOf h st with Some _ => true | None => false end.

(** The handlers that are no closures of [once]. *)
Definition lasting (st : State) (hs : list MessageHandler)
    : list MessageHandler :=
  filter (fun h => negb (isOnce st h)) hs.

(** Every closure is registered, if at all, for the type it was made
    for. *)
Definition closuresWf (st : State) : Prop :=
  forall h type wrappedHandler type',
    closureOf h st = Some (type, wrappedHandler) ->
    registered type' h (globals st) = true ->
    type' = type.

(** *** The page

    An action of the channel, on a page that has closures of [once]. *)
Definition lift (a : Action) (st : State) : State * list Effect :=
  ({| globals := fst (a (globals st)); closures := closures st |},
   snd (a (globals st))).

(** What can happen on the page: the events of the channel, each with the
    options of the component it belongs to, and calls of [once], each
    with the identity of the closure it creates. *)
Inductive PageEvent : Type :=
| Of (opts : Options) (ev : Event)
| CallOnce (wrapped : MessageHandler) (type : string)
    (handler : MessageHandler).

(** A message that can be parsed is dispatched by [dispatch]; every other
    event of the channel does what [step] says. *)
Definition pageStep (rt : Runtime) (ev : PageEvent) (st : State)
    : State * list Effect :=
  match ev with
  | Of _ (SocketMessage (Some (type, payload))) => dispatch type payload st
  | Of opts ev => lift (step opts rt ev) st
  | CallOnce wrapped type handler => (once wrapped type handler st, [])
  end.

Fixpoint pageRun (rt : Runtime) (evs : list PageEvent) (st : State)
    : State * list Effect :=
  match evs with
  | [] => (st, [])
  | ev :: r =>
      let (st1, e1) := pageStep rt ev st in
      let (st2, e2) := pageRun rt r st1 in
      (st2, (e1 ++ e2)%list)
  end.

(** Nobody registers or removes a handler during the events. *)
Definition noSubscriptionCall (evs : list PageEvent) : bool :=
  forallb (fun ev => match ev with
                     | Of _ (CallOn _ _) | Of _ (CallUnsubscribe _ _)
                     | CallOnce _ _ _ => false
                     | _ => true
                     end) evs.

(** A message of the type arrives during the events. *)
Definition received (type : string) (evs : list PageEvent) : bool :=
  existsb (fun ev => match ev with
                     | Of _ (SocketMessage (Some (type', _))) =>
                         String.eqb type' type
                     | _ => false
                     end) evs.

(** A page that never gets through to the server. *)
Definition offline : list Event :=
  [CallUseWebSocket; Mounted false;
   CallSend 1700000000000 "vote" (Json.Str "5");
   PingTimerFires 1700000030000; SocketError; SocketClosed;
   ReconnectTimerFires false;
   CallSend 1700000031000 "vote" (Json.Str "8")].

(** Two handlers for votes ... *)
Definition subscribed : Global :=
  fst (on "vote" 1%nat (fst (on "vote" 2%nat initial))).

(** ... with no closure of [once] ... *)
Definition plain : State := {| globals := subscribed; closures := [] |}.

(** ... then one more, for the next vote only ... *)
Definition waiting : State := once 7%nat "vote" 3%nat plain.

(** ... and a connection that is lost after a vote, closed by the user,
    opened again, and brings another vote. *)
Definition unstable : list PageEvent :=
  map (Of defaultOptions)
    (connectedOnce
     ++ [SocketMessage (Some ("vote", Json.Str "5"))]
     ++ dropped
     ++ [CallDisconnect; CallConnect false; ReadyStateChanges OPEN;
         SocketOpen; SocketMessage (Some ("vote", Json.Str "8"))])%list.

End Subscriptions.

(* ================================================================== *)
(** ** The join form and the list of participants *)

Module JoinSessionForm.

Import SessionManager.

(** The three inputs of the form ([joinCode], [participantName] and
    [asObserver]). *)
Record Inputs : Type := mkInputs {
  joinCode : string;
  participantName : string;
  asObserver : bool
}.

(** What the form emits. *)
Inductive Emitted : Type :=
| Join (joinCode participantName : string) (asObserver : bool).

(** [isValid]. *)
Definition isValid (inputs : Inputs) : bool :=
  (String.length (JsString.trim (joinCode inputs)) =? JOIN_CODE_LENGTH)%nat
  && (0 <? String.length (JsString.trim (participantName inputs)))%nat.

(** [handleSubmit]. *)
Definition handleSubmit (inputs : Inputs) : list Emitted :=
  if isValid inputs then
    [Join (JsString.trim (joinCode inputs))
       (JsString.trim (participantName inputs)) (asObserver inputs)]
  else [].

End JoinSessionForm.

Module ParticipantList.

Import VotingStatistics.

Section Sorting.

(** [String.prototype.localeCompare], which depends on the locale of the
    browser: negative, zero or positive. *)
Variable localeCompare : string -> string -> Z.

(** The comparison function of [sortedParticipants]. *)
Definition currentFirstThenByName (currentUserId : string)
    (a b : Participant.t) : Z :=
  if String.eqb (Participant.id a) currentUserId then (-1)%Z
  else if String.eqb (Participant.id b) currentUserId then 1%Z
  else localeCompare (Participant.name a) (Participant.name b).

(** [sortedParticipants]. *)
Definition sortedParticipants (currentUserId : string)
    (participants : list Participant.t) : list Participant.t :=
  sort (currentFirstThenByName currentUserId) participants.

(** [a] is listed before [b]: [a] is the current user, or neither is and
    the name of [a] does not come after the name of [b]. *)
Definition listedBefore (currentUserId : string) (a b : Participant.t)
    : Prop :=
  Participant.id a = currentUserId
  \/ (Participant.id b <> currentUserId
      /\ (localeCompare (Participant.name a) (Participant.name b) <= 0)%Z).

(** A comparison that orders all strings. *)
Definition ordersAll : Prop :=
  (forall a b, (localeCompare a b <= 0)%Z \/ (localeCompare b a <= 0)%Z)
  /\ (forall a b c,
        (localeCompare a b <= 0)%Z -> (localeCompare b c <= 0)%Z ->
        (localeCompare a c <= 0)%Z).

End Sorting.

(** A comparison by length, as an example of one that orders all
    strings. *)
Definition byLength (a b : string) : Z :=
  (Z.of_nat (String.length a) - Z.of_nat (String.length b))%Z.

End ParticipantList.

(* ================================================================== *)
(** * Properties *)

(** ** Facts about [JsMap] *)

Module JsMapFacts.

Section Facts.
Context {V : Type}.
Implicit Types (m : JsMap.t V) (k : string) (v : V).

Lemma get_set_same k v m : JsMap.get k (JsMap.set k v m) = Some v.
Proof.
  induction m as [|[k' v'] r IH]; cbn.
  - now rewrite String.eqb_refl.
  - destruct (String.eqb k' k) eqn:E; cbn.
    + now rewrite String.eqb_refl.
    + now rewrite E.
Qed.

Lemma get_set_other k k' v m :
  k <> k' -> JsMap.get k (JsMap.set k' v m) = JsMap.get k m.
Proof.
  intros Hne. induction m as [|[k0 v0] r IH]; cbn.
  - destruct (String.eqb k' k) eqn:E; [|reflexivity].
    apply String.eqb_eq in E. congruence.
  - destruct (String.eqb k0 k') eqn:E; cbn.
    + apply String.eqb_eq in E. subst k0.
      destruct (String.eqb k' k) eqn:E'; [|reflexivity].
      apply String.eqb_eq in E'. congruence.
    + now rewrite IH.
Qed.

Lemma get_delete_same k m : JsMap.get k (JsMap.delete k m) = None.
Proof.
  unfold JsMap.delete. induction m as [|[k' v'] r IH]; cbn; [reflexivity|].
  destruct (String.eqb k' k) eqn:E; cbn; [assumption|].
  now rewrite E.
Qed.

Lemma get_delete_other k k' m :
  k <> k' -> JsMap.get k (JsMap.delete k' m) = JsMap.get k m.
Proof.
  intros Hne. unfold JsMap.delete.
  induction m as [|[k0 v0] r IH]; cbn; [reflexivity|].
  destruct (String.eqb k0 k') eqn:E; cbn.
  - apply String.eqb_eq in E. subst k0.
    destruct (String.eqb k' k) eqn:E'; [|assumption].
    apply String.eqb_eq in E'. congruence.
  - now rewrite IH.
Qed.

Lemma get_delete k k' m :
  JsMap.get k (JsMap.delete k' m)
  = if String.eqb k' k then None else JsMap.get k m.
Proof.
  destruct (String.eqb k' k) eqn:E.
  - apply String.eqb_eq in E. subst. apply get_delete_same.
  - apply String.eqb_neq in E. apply get_delete_other. congruence.
Qed.

Lemma get_set k k' v m :
  JsMap.get k (JsMap.set k' v m)
  = if String.eqb k' k then Some v else JsMap.get k m.
Proof.
  destruct (String.eqb k' k) eqn:E.
  - apply String.eqb_eq in E. subst. apply get_set_same.
  - apply String.eqb_neq in E. apply get_set_other. congruence.
Qed.

Lemma set_set k v v' m : JsMap.set k v (JsMap.set k v' m) = JsMap.set k v m.
Proof.
  induction m as [|[k0 v0] r IH]; cbn.
  - now rewrite String.eqb_refl.
  - destruct (String.eqb k0 k) eqn:E; cbn.
    + now rewrite String.eqb_refl.
    + now rewrite E, IH.
Qed.

(** Storing again the value a key already has changes nothing. *)
Lemma set_same k v m : JsMap.get k m = Some v -> JsMap.set k v m = m.
Proof.
  induction m as [|[k' v'] r IH]; cbn; [discriminate|].
  destruct (String.eqb k' k) eqn:E.
  - intros [= ->]. apply String.eqb_eq in E. now subst.
  - intros H. now rewrite IH.
Qed.

Lemma get_None_keys k m : JsMap.get k m = None <-> ~ In k (JsMap.keys m).
Proof.
  induction m as [|[k' v'] r IH]; cbn; [tauto|].
  destruct (String.eqb k' k) eqn:E.
  - apply String.eqb_eq in E. subst. split; [discriminate|tauto].
  - apply String.eqb_neq in E. rewrite IH. tauto.
Qed.

Lemma get_Some_keys k v m : JsMap.get k m = Some v -> In k (JsMap.keys m).
Proof.
  intros H. destruct (in_dec string_dec k (JsMap.keys m)) as [|Hn]; [assumption|].
  apply get_None_keys in Hn. congruence.
Qed.

Lemma get_Some_In k v m : JsMap.get k m = Some v -> In (k, v) m.
Proof.
  induction m as [|[k' v'] r IH]; cbn; [discriminate|].
  destruct (String.eqb k' k) eqn:E.
  - intros [= ->]. apply String.eqb_eq in E. subst. now left.
  - intros H. right. now apply IH.
Qed.

Lemma In_get k v m : JsMap.wf m -> In (k, v) m -> JsMap.get k m = Some v.
Proof.
  unfold JsMap.wf. induction m as [|[k' v'] r IH]; cbn; [tauto|].
  intros Hnd [H|H].
  - injection H as -> ->. now rewrite String.eqb_refl.
  - inversion Hnd as [|? ? Hnotin Hnd']; subst.
    destruct (String.eqb k' k) eqn:E.
    + apply String.eqb_eq in E. subst k'.
      exfalso. apply Hnotin. apply (in_map fst) in H. exact H.
    + now apply IH.
Qed.

Lemma keys_set k k' v m :
  In k (JsMap.keys (JsMap.set k' v m)) <-> k = k' \/ In k (JsMap.keys m).
Proof.
  induction m as [|[k0 v0] r IH]; cbn.
  - intuition congruence.
  - destruct (String.eqb k0 k') eqn:E; cbn.
    + apply String.eqb_eq in E. subst. intuition congruence.
    + rewrite IH. intuition congruence.
Qed.

Lemma keys_delete k k' m :
  In k (JsMap.keys (JsMap.delete k' m)) <-> k <> k' /\ In k (JsMap.keys m).
Proof.
  unfold JsMap.delete. induction m as [|[k0 v0] r IH]; cbn; [tauto|].
  destruct (String.eqb k0 k') eqn:E; cbn.
  - apply String.eqb_eq in E. subst. rewrite IH. intuition congruence.
  - apply String.eqb_neq in E. rewrite IH. intuition congruence.
Qed.

Lemma wf_empty : JsMap.wf (@JsMap.empty V).
Proof. constructor. Qed.

Lemma wf_set k v m : JsMap.wf m -> JsMap.wf (JsMap.set k v m).
Proof.
  unfold JsMap.wf. induction m as [|[k0 v0] r IH]; cbn; intros Hnd.
  - constructor; [tauto|constructor].
  - inversion Hnd as [|? ? Hnotin Hnd']; subst.
    destruct (String.eqb k0 k) eqn:E; cbn.
    + apply String.eqb_eq in E. subst. now constructor.
    + apply String.eqb_neq in E. constructor; [|now apply IH].
      intros Hin. apply (keys_set k0 k v r) in Hin. intuition congruence.
Qed.

Lemma wf_delete k m : JsMap.wf m -> JsMap.wf (JsMap.delete k m).
Proof.
  unfold JsMap.wf. pose proof (keys_delete) as KD. unfold JsMap.delete in *.
  induction m as [|[k0 v0] r IH]; cbn; intros Hnd.
  - constructor.
  - inversion Hnd as [|? ? Hnotin Hnd']; subst.
    destruct (String.eqb k0 k) eqn:E; cbn; [now apply IH|].
    constructor; [|now apply IH].
    intros Hin. apply (KD k0 k r) in Hin. tauto.
Qed.

Lemma delete_absent k m : JsMap.get k m = None -> JsMap.delete k m = m.
Proof.
  unfold JsMap.delete. induction m as [|[k0 v0] r IH]; cbn; [reflexivity|].
  destruct (String.eqb k0 k) eqn:E; [discriminate|].
  intros H. cbn. now rewrite IH.
Qed.

Lemma has_true k m : JsMap.has k m = true <-> exists v, JsMap.get k m = Some v.
Proof.
  unfold JsMap.has. destruct (JsMap.get k m) as [v|].
  - split; [eauto|reflexivity].
  - split; [discriminate|]. intros [v H]. discriminate.
Qed.

Lemma has_false k m : JsMap.has k m = false <-> JsMap.get k m = None.
Proof.
  unfold JsMap.has. destruct (JsMap.get k m); split; congruence.
Qed.

End Facts.

End JsMapFacts.

(** ** Facts about strings and join codes *)

Module JoinCodeFacts.

Import SessionManager Registry.

Lemma chars_append s1 s2 :
  JsString.chars (s1 ++ s2) = (JsString.chars s1 ++ JsString.chars s2)%list.
Proof. induction s1 as [|c r IH]; cbn; [reflexivity|now rewrite IH]. Qed.

Lemma length_chars s : List.length (JsString.chars s) = String.length s.
Proof. induction s as [|c r IH]; cbn; [reflexivity|now rewrite IH]. Qed.

Lemma append_assoc (s1 s2 s3 : string) :
  ((s1 ++ s2) ++ s3 = s1 ++ (s2 ++ s3))%string.
Proof. induction s1 as [|c r IH]; cbn; [reflexivity|now rewrite IH]. Qed.

Lemma length_append s1 s2 :
  String.length (s1 ++ s2) = String.length s1 + String.length s2.
Proof. induction s1 as [|c r IH]; cbn; [reflexivity|now rewrite IH]. Qed.

Lemma get_In i s c : String.get i s = Some c -> In c (JsString.chars s).
Proof.
  revert i. induction s as [|d r IH]; intros i; cbn; [discriminate|].
  destruct i as [|i].
  - intros [= ->]. now left.
  - intros H. right. eauto.
Qed.

Lemma get_lt i s : i < String.length s -> exists c, String.get i s = Some c.
Proof.
  revert i. induction s as [|d r IH]; intros i; cbn; [lia|].
  destruct i as [|i]; [eauto|]. intros H. apply IH. lia.
Qed.

(** [charAt] at a random index gives characters of the alphabet only,
    and exactly one when the alphabet is not empty. *)
Lemma charAt_chars alphabet r c :
  In c (JsString.chars (JsString.charAt alphabet (randomIndex alphabet r))) ->
  In c (JsString.chars alphabet).
Proof.
  unfold JsString.charAt.
  destruct (String.get _ alphabet) as [d|] eqn:E; cbn; [|tauto].
  intros [<-|[]]. eapply get_In; eauto.
Qed.

Lemma charAt_length alphabet r :
  nonEmpty alphabet = true ->
  String.length (JsString.charAt alphabet (randomIndex alphabet r)) = 1.
Proof.
  intros Hne. unfold JsString.charAt, randomIndex.
  destruct (get_lt (r mod String.length alphabet) alphabet) as [c ->];
    [|reflexivity].
  apply Nat.mod_upper_bound. destruct alphabet; [discriminate|cbn; lia].
Qed.

Lemma drawCode_chars alphabet n rnd pos code c :
  In c (JsString.chars (drawCode alphabet n rnd pos code)) ->
  In c (JsString.chars code) \/ In c (JsString.chars alphabet).
Proof.
  revert pos code. induction n as [|n IH]; intros pos code; cbn; [tauto|].
  intros H. apply IH in H. destruct H as [H|H]; [|now right].
  rewrite chars_append in H. apply in_app_or in H. destruct H as [H|H].
  - now left.
  - right. eapply charAt_chars; eauto.
Qed.

Lemma drawCode_length alphabet n rnd pos code :
  nonEmpty alphabet = true ->
  String.length (drawCode alphabet n rnd pos code) = String.length code + n.
Proof.
  intros Hne. revert pos code. induction n as [|n IH]; intros pos code; cbn.
  - lia.
  - rewrite IH, length_append, charAt_length by assumption. lia.
Qed.

Lemma drawCode_wellFormed alphabet rnd pos :
  nonEmpty alphabet = true ->
  wellFormedCode alphabet (drawCode alphabet JOIN_CODE_LENGTH rnd pos "").
Proof.
  intros Hne. split.
  - now rewrite drawCode_length.
  - intros c H. apply drawCode_chars in H. destruct H as [[]|H]. exact H.
Qed.

Lemma generateJoinCode_S alphabet depth rnd pos m :
  generateJoinCode alphabet (S depth) rnd pos m
  = if JsMap.has (drawCode alphabet JOIN_CODE_LENGTH rnd pos "") (joinCodes m)
    then generateJoinCode alphabet depth rnd (pos + JOIN_CODE_LENGTH) m
    else Some (drawCode alphabet JOIN_CODE_LENGTH rnd pos "").
Proof. reflexivity. Qed.

(** What [generateJoinCode] returns is the first drawn code that is not
    in [joinCodes]. *)
Lemma generateJoinCode_Some alphabet depth rnd pos m code :
  generateJoinCode alphabet depth rnd pos m = Some code ->
  JsMap.has code (joinCodes m) = false
  /\ exists k, k < depth
       /\ code = drawCode alphabet JOIN_CODE_LENGTH rnd
                   (pos + k * JOIN_CODE_LENGTH) "".
Proof.
  revert pos code. induction depth as [|d IH]; intros pos code.
  - discriminate.
  - rewrite generateJoinCode_S.
    destruct (JsMap.has (drawCode alphabet JOIN_CODE_LENGTH rnd pos "")
                (joinCodes m)) eqn:E.
    + intros H. apply IH in H. destruct H as [Hfree [k [Hk ->]]].
      split; [assumption|]. exists (S k). split; [lia|].
      replace (pos + S k * JOIN_CODE_LENGTH)
        with (pos + JOIN_CODE_LENGTH + k * JOIN_CODE_LENGTH)
        by (unfold JOIN_CODE_LENGTH; lia).
      reflexivity.
    + intros [= <-]. split; [assumption|]. exists 0. split; [lia|].
      now rewrite Nat.mul_0_l, Nat.add_0_r.
Qed.

(** [generateJoinCode] returns as soon as a drawn code is free. *)
Lemma generateJoinCode_returns alphabet depth rnd pos m k :
  k < depth ->
  JsMap.has (drawCode alphabet JOIN_CODE_LENGTH rnd
               (pos + k * JOIN_CODE_LENGTH) "") (joinCodes m) = false ->
  exists code, generateJoinCode alphabet depth rnd pos m = Some code.
Proof.
  revert pos k. induction depth as [|d IH]; intros pos k Hk Hfree; [lia|].
  rewrite generateJoinCode_S.
  destruct (JsMap.has (drawCode alphabet JOIN_CODE_LENGTH rnd pos "")
              (joinCodes m)) eqn:E; [|eauto].
  destruct k as [|k].
  - replace (pos + 0 * JOIN_CODE_LENGTH) with pos in Hfree by lia.
    congruence.
  - apply (IH _ k); [lia|].
    replace (pos + JOIN_CODE_LENGTH + k * JOIN_CODE_LENGTH)
      with (pos + S k * JOIN_CODE_LENGTH) by (unfold JOIN_CODE_LENGTH; lia).
    exact Hfree.
Qed.

Lemma toUpperCase_canonical s :
  forallb canonicalChar (JsString.chars s) = true ->
  JsString.toUpperCase s = s.
Proof.
  induction s as [|c r IH]; cbn; [reflexivity|].
  intros H. apply andb_prop in H. destruct H as [Hc Hr].
  unfold canonicalChar in Hc. apply andb_prop in Hc. destruct Hc as [Hu _].
  apply Ascii.eqb_eq in Hu. now rewrite Hu, IH.
Qed.

Lemma trimEnd_canonical s :
  forallb canonicalChar (JsString.chars s) = true ->
  JsString.trimEnd s = s.
Proof.
  induction s as [|c r IH]; cbn; [reflexivity|].
  intros H. apply andb_prop in H. destruct H as [Hc Hr].
  unfold canonicalChar in Hc. apply andb_prop in Hc. destruct Hc as [_ Hs].
  apply negb_true_iff in Hs. rewrite IH by assumption.
  destruct r; [now rewrite Hs|reflexivity].
Qed.

Lemma trim_canonical s :
  forallb canonicalChar (JsString.chars s) = true ->
  JsString.trim s = s.
Proof.
  intros H. unfold JsString.trim.
  assert (Hstart : JsString.trimStart s = s).
  { destruct s as [|c r]; cbn in *; [reflexivity|].
    apply andb_prop in H. destruct H as [Hc _].
    unfold canonicalChar in Hc. apply andb_prop in Hc. destruct Hc as [_ Hs].
    apply negb_true_iff in Hs. now rewrite Hs. }
  rewrite Hstart. now apply trimEnd_canonical.
Qed.

(** A code over an upper-case alphabet is its own normal form. *)
Lemma normalize_code alphabet code :
  upperCaseAlphabet alphabet = true ->
  (forall c, In c (JsString.chars code) -> In c (JsString.chars alphabet)) ->
  JsString.trim (JsString.toUpperCase code) = code.
Proof.
  intros Ha Hc.
  assert (H : forallb canonicalChar (JsString.chars code) = true).
  { apply forallb_forall. intros c Hin.
    unfold upperCaseAlphabet in Ha. rewrite forallb_forall in Ha. auto. }
  rewrite toUpperCase_canonical by assumption. now apply trim_canonical.
Qed.

End JoinCodeFacts.

(** ** The session registry *)

Module RegistryProofs.

Import SessionManager Registry.

(** What a returning [createSession] has done. *)
Lemma createSession_inv alphabet env name hostName config m c m' :
  createSession alphabet env name hostName config m = Returns c m' ->
  Session.id (session c) = newSessionId env
  /\ sessions m' = JsMap.set (newSessionId env) (session c) (sessions m)
  /\ joinCodes m' = JsMap.set (joinCode c) (newSessionId env) (joinCodes m)
  /\ JsMap.get (joinCode c) (joinCodes m) = None
  /\ (exists k, k < stackDepth env
        /\ joinCode c = drawCode alphabet JOIN_CODE_LENGTH (random env)
                          (k * JOIN_CODE_LENGTH) "")
  /\ cleanupConfig m' = cleanupConfig m.
Proof.
  unfold createSession.
  destruct (generateJoinCode alphabet (stackDepth env) (random env) 0 _)
    as [code|] eqn:G; [|discriminate].
  intros [= <- <-].
  apply JoinCodeFacts.generateJoinCode_Some in G.
  destruct G as [Hfree [k [Hk Hcode]]].
  apply JsMapFacts.has_false in Hfree.
  cbn in *. repeat split; try assumption.
  - unfold startCleanup. now destruct (cleanupIntervalId _).
  - unfold startCleanup. now destruct (cleanupIntervalId _).
  - eauto.
  - unfold startCleanup. now destruct (cleanupIntervalId _).
Qed.

(** [createSession] returns when one of the codes it draws, within the
    depth the stack allows, is free. *)
Lemma createSession_returns alphabet env name hostName config m k :
  k < stackDepth env ->
  JsMap.has (drawCode alphabet JOIN_CODE_LENGTH (random env)
               (k * JOIN_CODE_LENGTH) "") (joinCodes m) = false ->
  exists c m', createSession alphabet env name hostName config m = Returns c m'.
Proof.
  intros Hk Hfree. unfold createSession.
  match goal with
  | |- context [generateJoinCode ?a ?d ?r 0 ?m1] =>
      destruct (JoinCodeFacts.generateJoinCode_returns a d r 0 m1 k Hk)
        as [code ->]; [exact Hfree|]
  end.
  eauto.
Qed.

(** C1.  A session that [createSession] returns, with its join code, is
    what [getSessionByJoinCode] gives for that code right after the call,
    and what [getSessionById] gives for the session's id.  The join-code
    alphabet and the generated session id come from sources that are not
    at hand: the alphabet is taken upper case and free of white space, the
    id not empty. *)
Theorem createSession_then_lookup alphabet env name hostName config m c m' :
  upperCaseAlphabet alphabet = true ->
  JsString.truthy (newSessionId env) = true ->
  createSession alphabet env name hostName config m = Returns c m' ->
  getSessionByJoinCode (joinCode c) m' = Some (session c)
  /\ getSessionById (Session.id (session c)) m' = Some (session c).
Proof.
  intros Halpha Hid Hcreate.
  destruct (createSession_inv _ _ _ _ _ _ _ _ Hcreate)
    as (Hsid & Hsessions & Hcodes & _ & [k [_ Hdraw]] & _).
  assert (Hnorm : JsString.trim (JsString.toUpperCase (joinCode c)) = joinCode c).
  { apply (JoinCodeFacts.normalize_code alphabet); [assumption|].
    intros ch Hin. rewrite Hdraw in Hin.
    apply JoinCodeFacts.drawCode_chars in Hin. destruct Hin as [[]|Hin].
    exact Hin. }
  split.
  - unfold getSessionByJoinCode. rewrite Hnorm, Hcodes.
    rewrite JsMapFacts.get_set_same, Hid. cbn.
    rewrite Hsessions. apply JsMapFacts.get_set_same.
  - unfold getSessionById. rewrite Hsid, Hsessions.
    apply JsMapFacts.get_set_same.
Qed.

Lemma createSession_then_lookup_witness :
  exists c m',
    createSession Example.alphabet Example.env2 "Sprint 2" "Bob" None
      Example.registry1 = Returns c m'
    /\ getSessionByJoinCode (joinCode c) m' = Some (session c)
    /\ getSessionById (Session.id (session c)) m' = Some (session c).
Proof.
  eexists. eexists. split.
  - vm_compute. reflexivity.
  - apply (createSession_then_lookup Example.alphabet Example.env2
             "Sprint 2" "Bob" None Example.registry1).
    + vm_compute. reflexivity.
    + vm_compute. reflexivity.
    + vm_compute. reflexivity.
Defined.

(** *** [deleteSession] *)

Lemma releaseJoinCode_find sessionId entries codes :
  releaseJoinCode sessionId entries codes
  = match findJoinCode sessionId entries with
    | Some code => JsMap.delete code codes
    | None => codes
    end.
Proof.
  induction entries as [|[code id] r IH]; cbn; [reflexivity|].
  now destruct (String.eqb id sessionId).
Qed.

Lemma stopCleanup_fields m :
  sessions (stopCleanup m) = sessions m
  /\ joinCodes (stopCleanup m) = joinCodes m
  /\ cleanupConfig (stopCleanup m) = cleanupConfig m
  /\ cleanupIntervalId (stopCleanup m) = None.
Proof. unfold stopCleanup. destruct (cleanupIntervalId m) eqn:E; cbn; auto. Qed.

Lemma startCleanup_fields m :
  sessions (startCleanup m) = sessions m
  /\ joinCodes (startCleanup m) = joinCodes m
  /\ cleanupConfig (startCleanup m) = cleanupConfig m.
Proof. unfold startCleanup. destruct (cleanupIntervalId m); cbn; auto. Qed.

Lemma deleteSession_absent sessionId m :
  JsMap.get sessionId (sessions m) = None ->
  deleteSession sessionId m = (false, m).
Proof. unfold deleteSession. now intros ->. Qed.

Lemma deleteSession_present sessionId m s :
  JsMap.get sessionId (sessions m) = Some s ->
  let m' := snd (deleteSession sessionId m) in
  fst (deleteSession sessionId m) = true
  /\ sessions m' = JsMap.delete sessionId (sessions m)
  /\ joinCodes m'
     = match getJoinCode sessionId m with
       | Some code => JsMap.delete code (joinCodes m)
       | None => joinCodes m
       end
  /\ cleanupConfig m' = cleanupConfig m
  /\ cleanupIntervalId m'
     = if (JsMap.size (JsMap.delete sessionId (sessions m)) =? 0)%nat
       then None else cleanupIntervalId m.
Proof.
  intros Hget. unfold deleteSession. rewrite Hget.
  cbn -[JsMap.delete JsMap.size].
  rewrite releaseJoinCode_find. unfold getJoinCode, JsMap.entries.
  set (m1 := withSessions _ _).
  destruct (JsMap.size (JsMap.delete sessionId (sessions m)) =? 0)%nat.
  - destruct (stopCleanup_fields m1) as (-> & -> & -> & ->).
    subst m1. cbn -[JsMap.delete]. auto.
  - subst m1. cbn -[JsMap.delete]. auto.
Qed.

Lemma deleteSession_sessions sessionId m :
  sessions (snd (deleteSession sessionId m))
  = JsMap.delete sessionId (sessions m).
Proof.
  destruct (JsMap.get sessionId (sessions m)) as [s|] eqn:E.
  - apply (deleteSession_present _ _ _ E).
  - rewrite deleteSession_absent by assumption. cbn.
    symmetry. now apply JsMapFacts.delete_absent.
Qed.

Lemma deleteSession_config sessionId m :
  cleanupConfig (snd (deleteSession sessionId m)) = cleanupConfig m.
Proof.
  destruct (JsMap.get sessionId (sessions m)) as [s|] eqn:E.
  - apply (deleteSession_present _ _ _ E).
  - now rewrite deleteSession_absent.
Qed.

(** The code [getJoinCode] finds is a key of [joinCodes]. *)
Lemma findJoinCode_In sessionId (entries : list (string * string)) code :
  findJoinCode sessionId entries = Some code -> In (code, sessionId) entries.
Proof.
  induction entries as [|[c id] r IH]; cbn; [discriminate|].
  destruct (String.eqb id sessionId) eqn:E.
  - intros [= ->]. apply String.eqb_eq in E. subst. now left.
  - intros H. right. now apply IH.
Qed.

Lemma findJoinCode_None sessionId (entries : list (string * string)) code :
  findJoinCode sessionId entries = None -> ~ In (code, sessionId) entries.
Proof.
  induction entries as [|[c id] r IH]; cbn; [tauto|].
  destruct (String.eqb id sessionId) eqn:E; [discriminate|].
  intros H [Heq|Hin]; [|now apply IH].
  injection Heq as -> ->. now rewrite String.eqb_refl in E.
Qed.

(** C7.  [deleteSession] removes the session and releases its join code,
    and touches nothing else: every other session and every other code is
    as before, the configuration too, and the cleanup interval is left as
    it is unless no session remains, in which case it is stopped.  For an
    id that is not in the registry it returns [false] and changes
    nothing; so, called again with the same id, it returns [false] and
    leaves the registry as it is, and two calls give the state one call
    gives. *)
Theorem deleteSession_idempotent sessionId m :
  let once := deleteSession sessionId m in
  let twice := deleteSession sessionId (snd once) in
  fst once = JsMap.has sessionId (sessions m)
  /\ getSessionById sessionId (snd once) = None
  /\ (forall code,
        fst once = true ->
        getJoinCode sessionId m = Some code ->
        JsMap.get code (joinCodes (snd once)) = None)
  /\ fst twice = false
  /\ snd twice = snd once
  /\ (fst once = true ->
      JsMap.size (sessions (snd once)) = 0 ->
      cleanupIntervalId (snd once) = None)
  /\ (fst once = false -> snd once = m)
  /\ sessions (snd once) = JsMap.delete sessionId (sessions m)
  /\ joinCodes (snd once)
     = (if fst once
        then match getJoinCode sessionId m with
             | Some code => JsMap.delete code (joinCodes m)
             | None => joinCodes m
             end
        else joinCodes m)
  /\ (forall other,
        other <> sessionId ->
        getSessionById other (snd once) = getSessionById other m)
  /\ (forall code,
        getJoinCode sessionId m <> Some code ->
        JsMap.get code (joinCodes (snd once)) = JsMap.get code (joinCodes m))
  /\ cleanupConfig (snd once) = cleanupConfig m
  /\ cleanupIntervalId (snd once)
     = (if fst once && (JsMap.size (sessions (snd once)) =? 0)%nat
        then None else cleanupIntervalId m).
Proof.
  cbv zeta.
  assert (Hgone : JsMap.get sessionId
                    (sessions (snd (deleteSession sessionId m))) = None).
  { rewrite deleteSession_sessions. apply JsMapFacts.get_delete_same. }
  rewrite (deleteSession_absent _ _ Hgone). cbn [fst snd].
  destruct (JsMap.get sessionId (sessions m)) as [s|] eqn:E.
  - destruct (deleteSession_present _ _ _ E) as (Hfst & Hs & Hj & Hc & Hi).
    unfold JsMap.has. rewrite E, Hfst. cbn [andb].
    split; [reflexivity|]. split; [exact Hgone|]. split.
    { intros code _ Hcode. rewrite Hj, Hcode.
      apply JsMapFacts.get_delete_same. }
    split; [reflexivity|]. split; [reflexivity|]. split.
    { intros _ Hsize. rewrite Hi. rewrite Hs in Hsize. now rewrite Hsize. }
    split; [discriminate|]. split; [exact Hs|]. split; [exact Hj|]. split.
    { intros other Hne. unfold getSessionById. rewrite Hs.
      now apply JsMapFacts.get_delete_other. }
    split.
    { intros code Hne. rewrite Hj.
      destruct (getJoinCode sessionId m) as [c|]; [|reflexivity].
      apply JsMapFacts.get_delete_other. congruence. }
    split; [exact Hc|]. now rewrite Hi, Hs.
  - rewrite (deleteSession_absent _ _ E). unfold JsMap.has. rewrite E.
    cbn [fst snd andb]. unfold getSessionById.
    repeat split; try assumption; try discriminate.
    symmetry. now apply JsMapFacts.delete_absent.
Qed.

(** *** [leaveSession] *)

Lemma delete_set {V} k (v : V) (m : JsMap.t V) :
  JsMap.delete k (JsMap.set k v m) = JsMap.delete k m.
Proof.
  unfold JsMap.delete. induction m as [|[k0 v0] r IH]; cbn.
  - now rewrite String.eqb_refl.
  - destruct (String.eqb k0 k) eqn:E; cbn.
    + now rewrite String.eqb_refl.
    + now rewrite E, IH.
Qed.

(** C3.  A [leaveSession] that removes a participant returns [true].
    With [deleteWhenEmpty] on, when it was the last participant, the
    session is deleted within the call: right after it [getSessionById]
    finds nothing under the session's id, every code that resolved to the
    session resolves to nothing, and the code [getJoinCode] gave for it
    is no longer in [joinCodes]; this session and its code are all that
    is deleted, every other session and code being as before, and the
    cleanup interval is stopped only when no session is left.  With
    [deleteWhenEmpty] off, or when participants remain, the session stays
    in the registry, as [removeParticipant] left it, and nothing else
    changes. *)
Theorem leaveSession_last_participant now sessionId participantId m s s' :
  JsMap.get sessionId (sessions m) = Some s ->
  Session.removeParticipant now participantId s = (true, s') ->
  let m' := snd (leaveSession now sessionId participantId m) in
  fst (leaveSession now sessionId participantId m) = true
  /\ (deleteWhenEmpty (cleanupConfig m) = true ->
      Session.participants s' = [] ->
      getSessionById sessionId m' = None
      /\ (forall code,
            JsMap.get (JsString.trim (JsString.toUpperCase code)) (joinCodes m)
              = Some sessionId ->
            getSessionByJoinCode code m' = None)
      /\ (forall code,
            getJoinCode sessionId m = Some code ->
            JsMap.get code (joinCodes m') = None)
      /\ sessions m' = JsMap.delete sessionId (sessions m)
      /\ joinCodes m'
         = match getJoinCode sessionId m with
           | Some code => JsMap.delete code (joinCodes m)
           | None => joinCodes m
           end
      /\ (forall other,
            other <> sessionId ->
            getSessionById other m' = getSessionById other m)
      /\ (forall code,
            getJoinCode sessionId m <> Some code ->
            JsMap.get code (joinCodes m') = JsMap.get code (joinCodes m))
      /\ cleanupConfig m' = cleanupConfig m
      /\ cleanupIntervalId m'
         = (if (JsMap.size (sessions m') =? 0)%nat
            then None else cleanupIntervalId m))
  /\ (deleteWhenEmpty (cleanupConfig m) = false
      \/ Session.participants s' <> [] ->
      m' = withSessions (JsMap.set sessionId s' (sessions m)) m).
Proof.
  intros Hget Hrem.
  unfold leaveSession. rewrite Hget, Hrem.
  cbn [fst snd cleanupConfig withSessions andb].
  set (m1 := withSessions (JsMap.set sessionId s' (sessions m)) m).
  assert (Hget1 : JsMap.get sessionId (sessions m1) = Some s').
  { apply JsMapFacts.get_set_same. }
  split; [reflexivity|]. split.
  - intros Hcfg Hempty. rewrite Hcfg.
    unfold cleanupIfEmpty. rewrite Hget1, Hempty. cbn [List.length Nat.eqb].
    destruct (deleteSession_present _ _ _ Hget1) as (_ & Hs & Hj & Hc & Hi).
    assert (Hs' : sessions (snd (deleteSession sessionId m1))
                  = JsMap.delete sessionId (sessions m)).
    { rewrite Hs. subst m1. cbn [sessions withSessions]. apply delete_set. }
    assert (Hgone : JsMap.get sessionId
                      (sessions (snd (deleteSession sessionId m1))) = None).
    { rewrite Hs. apply JsMapFacts.get_delete_same. }
    change (getJoinCode sessionId m1) with (getJoinCode sessionId m) in Hj.
    change (joinCodes m1) with (joinCodes m) in Hj.
    split; [exact Hgone|]. split.
    { intros code Hcode. unfold getSessionByJoinCode. rewrite Hj.
      set (key := JsString.trim (JsString.toUpperCase code)) in *.
      assert (Hcases :
        forall jc,
          jc = joinCodes m \/ (exists c, jc = JsMap.delete c (joinCodes m)) ->
          JsMap.get key jc = None \/ JsMap.get key jc = Some sessionId).
      { intros jc [->|[c ->]].
        - right. exact Hcode.
        - rewrite JsMapFacts.get_delete.
          destruct (String.eqb c key); [now left|right; exact Hcode]. }
      match goal with
      | |- match JsMap.get key ?jc with _ => _ end = None =>
          destruct (Hcases jc) as [-> | ->]
      end.
      - destruct (getJoinCode sessionId m); eauto.
      - reflexivity.
      - rewrite Hgone. now destruct (negb (JsString.truthy sessionId)). }
    split.
    { intros code Hcode. rewrite Hj, Hcode.
      apply JsMapFacts.get_delete_same. }
    split; [exact Hs'|]. split; [exact Hj|]. split.
    { intros other Hne. unfold getSessionById. rewrite Hs'.
      now apply JsMapFacts.get_delete_other. }
    split.
    { intros code Hne. rewrite Hj.
      destruct (getJoinCode sessionId m) as [c|]; [|reflexivity].
      apply JsMapFacts.get_delete_other. congruence. }
    split; [exact Hc|]. rewrite Hi, Hs. reflexivity.
  - intros [Hcfg|Hsome].
    + now rewrite Hcfg.
    + destruct (deleteWhenEmpty (cleanupConfig m)); [|reflexivity].
      unfold cleanupIfEmpty. rewrite Hget1.
      destruct (Session.participants s'); [contradiction|reflexivity].
Qed.

Lemma leaveSession_last_participant_witness :
  let m := Example.registry2 in
  let m' := snd (leaveSession 3000 "s-1" "p-1" m) in
  fst (leaveSession 3000 "s-1" "p-1" m) = true
  /\ getSessionById "s-1" m' = None
  /\ getSessionByJoinCode "DLT29G" m' = None
  /\ JsMap.keys (sessions m') = ["s-2"]
  /\ joinCodes m' = [("W5CKSZ", "s-2")]
  /\ cleanupIntervalId m' = cleanupIntervalId m.
Proof.
  cbv zeta.
  destruct (leaveSession_last_participant 3000 "s-1" "p-1" Example.registry2
              _ _ eq_refl eq_refl) as (Hfst & Hdel & _).
  destruct (Hdel eq_refl eq_refl)
    as (Hgone & Hres & _ & Hs & Hj & _ & _ & _ & Hi).
  split; [exact Hfst|]. split; [exact Hgone|]. split.
  { apply Hres. reflexivity. }
  split; [rewrite Hs; reflexivity|]. split; [rewrite Hj; reflexivity|].
  rewrite Hi, Hs. reflexivity.
Defined.

(** *** [performCleanup] *)

Lemma cleanupEntry_fields now sessionId s m :
  JsMap.get sessionId (sessions m) = Some s ->
  sessions (cleanupEntry now sessionId s m)
  = (if reclaimed (cleanupConfig m) now s
     then JsMap.delete sessionId (sessions m) else sessions m)
  /\ cleanupConfig (cleanupEntry now sessionId s m) = cleanupConfig m.
Proof.
  intros Hget. unfold cleanupEntry, reclaimed.
  destruct (deleteWhenEmpty (cleanupConfig m)
            && (List.length (Session.participants s) =? 0)%nat); cbn [orb].
  - now rewrite deleteSession_sessions, deleteSession_config.
  - destruct (now - Session.updatedAt s >? maxInactivity (cleanupConfig m))%Z.
    + now rewrite deleteSession_sessions, deleteSession_config.
    + auto.
Qed.

(** The loop visits every id of [ids] that is still in [sessions], and
    deletes it exactly when it is to be reclaimed. *)
Lemma cleanupLoop_get now ids m sessionId :
  JsMap.get sessionId (sessions (cleanupLoop now ids m))
  = match JsMap.get sessionId (sessions m) with
    | Some s =>
        if existsb (String.eqb sessionId) ids
           && reclaimed (cleanupConfig m) now s
        then None else Some s
    | None => None
    end.
Proof.
  revert m. induction ids as [|id0 r IH]; intros m; cbn [cleanupLoop existsb].
  - now destruct (JsMap.get sessionId (sessions m)).
  - destruct (JsMap.get id0 (sessions m)) as [s0|] eqn:E0.
    + destruct (cleanupEntry_fields now id0 s0 m E0) as [Hs Hc].
      rewrite IH, Hs, Hc.
      destruct (String.eqb sessionId id0) eqn:Eid.
      * apply String.eqb_eq in Eid. subst id0. rewrite E0. cbn [orb andb].
        destruct (reclaimed (cleanupConfig m) now s0) eqn:R.
        -- now rewrite JsMapFacts.get_delete_same.
        -- rewrite E0, R. now rewrite andb_false_r.
      * apply String.eqb_neq in Eid. cbn [orb].
        destruct (reclaimed (cleanupConfig m) now s0).
        -- now rewrite JsMapFacts.get_delete_other.
        -- reflexivity.
    + rewrite IH.
      destruct (String.eqb sessionId id0) eqn:Eid; [|reflexivity].
      apply String.eqb_eq in Eid. subst id0. now rewrite E0.
Qed.

(** C4.  One sweep at time [now] deletes exactly the sessions that are
    empty while [deleteWhenEmpty] is configured, or whose inactivity
    [now - updatedAt] exceeds [maxInactivity]; every other session is
    still there, unchanged, whatever was deleted before it was reached. *)
Theorem performCleanup_exact now m sessionId :
  getSessionById sessionId (performCleanup now m)
  = match getSessionById sessionId m with
    | Some s => if reclaimed (cleanupConfig m) now s then None else Some s
    | None => None
    end.
Proof.
  unfold performCleanup, getSessionById. rewrite cleanupLoop_get.
  destruct (JsMap.get sessionId (sessions m)) as [s|] eqn:E; [|reflexivity].
  assert (Hin : existsb (String.eqb sessionId) (JsMap.keys (sessions m)) = true).
  { apply existsb_exists. exists sessionId. split.
    - eapply JsMapFacts.get_Some_keys; eauto.
    - apply String.eqb_refl. }
  now rewrite Hin.
Qed.

(** *** The two maps stay consistent *)

(** What a [createSession] that throws has done. *)
Lemma createSession_throws alphabet env name hostName config m m' :
  createSession alphabet env name hostName config m = Throws m' ->
  (exists s,
     Session.id s = newSessionId env
     /\ sessions m' = JsMap.set (newSessionId env) s (sessions m))
  /\ joinCodes m' = joinCodes m
  /\ cleanupConfig m' = cleanupConfig m
  /\ cleanupIntervalId m' = cleanupIntervalId m
  /\ forall k,
       k < stackDepth env ->
       JsMap.has (drawCode alphabet JOIN_CODE_LENGTH (random env)
                    (k * JOIN_CODE_LENGTH) "") (joinCodes m) = true.
Proof.
  unfold createSession.
  destruct (generateJoinCode alphabet (stackDepth env) (random env) 0 _)
    as [code|] eqn:G; [discriminate|].
  intros [= <-]. cbn [sessions joinCodes cleanupConfig cleanupIntervalId
                       withSessions].
  split; [eexists; split; [|reflexivity]; reflexivity|].
  repeat split. intros k Hk.
  destruct (JsMap.has _ (joinCodes m)) eqn:E; [reflexivity|].
  match type of G with
  | generateJoinCode ?a ?d ?r 0 ?m1 = None =>
      destruct (JoinCodeFacts.generateJoinCode_returns a d r 0 m1 k Hk)
        as [code Hcode]; [exact E|congruence]
  end.
Qed.

Lemma consistent_new config : consistentBut [] (create config).
Proof.
  constructor; cbn.
  - apply JsMapFacts.wf_empty.
  - apply JsMapFacts.wf_empty.
  - intros code sid H. discriminate.
  - intros sid s H. discriminate.
  - intros c1 c2 sid H. discriminate.
Qed.

(** Consistency looks at [sessions] only through the ids it holds. *)
Lemma consistent_same_ids failed m m' :
  joinCodes m' = joinCodes m ->
  JsMap.wf (sessions m') ->
  (forall sid,
     JsMap.get sid (sessions m') = None <-> JsMap.get sid (sessions m) = None) ->
  consistentBut failed m -> consistentBut failed m'.
Proof.
  intros Hj Hwf Hids [Hs Hc Hlive Hcoded Hone].
  constructor; try rewrite Hj; try assumption.
  - intros code sid Hget. rewrite ?Hj in Hget.
    destruct (Hlive _ _ Hget) as [s Hs'].
    destruct (JsMap.get sid (sessions m')) as [s'|] eqn:E; [eauto|].
    apply Hids in E. congruence.
  - intros sid s Hget.
    destruct (JsMap.get sid (sessions m)) as [s0|] eqn:E.
    + rewrite ?Hj. eauto.
    + apply Hids in E. congruence.
Qed.

(** Replacing the session stored under an id keeps the registry
    consistent. *)
Lemma consistent_replace failed m sid s0 s :
  JsMap.get sid (sessions m) = Some s0 ->
  consistentBut failed m ->
  consistentBut failed (withSessions (JsMap.set sid s (sessions m)) m).
Proof.
  intros Hget Hm. apply (consistent_same_ids failed m); cbn.
  - reflexivity.
  - apply JsMapFacts.wf_set, Hm.
  - intros sid'. rewrite JsMapFacts.get_set.
    destruct (String.eqb sid sid') eqn:E; [|tauto].
    apply String.eqb_eq in E. subst. split; congruence.
  - assumption.
Qed.

Lemma getJoinCode_get m sessionId code :
  JsMap.wf (joinCodes m) ->
  getJoinCode sessionId m = Some code ->
  JsMap.get code (joinCodes m) = Some sessionId.
Proof.
  intros Hwf H. apply JsMapFacts.In_get; [assumption|].
  now apply findJoinCode_In.
Qed.

Lemma get_getJoinCode m sessionId code :
  JsMap.get code (joinCodes m) = Some sessionId ->
  exists code', getJoinCode sessionId m = Some code'.
Proof.
  intros H. destruct (getJoinCode sessionId m) as [c|] eqn:E; [eauto|].
  exfalso. apply (findJoinCode_None _ _ code) in E. apply E.
  now apply JsMapFacts.get_Some_In.
Qed.

Lemma consistent_delete failed sessionId m :
  consistentBut failed m ->
  consistentBut failed (snd (deleteSession sessionId m)).
Proof.
  intros Hm.
  destruct (JsMap.get sessionId (sessions m)) as [s|] eqn:E;
    [|now rewrite deleteSession_absent].
  destruct (deleteSession_present _ _ _ E) as (_ & Hs & Hj & _).
  destruct Hm as [Hws Hwc Hlive Hcoded Hone].
  destruct (getJoinCode sessionId m) as [code|] eqn:Hcode.
  - pose proof (getJoinCode_get _ _ _ Hwc Hcode) as Hget.
    constructor; rewrite ?Hs, ?Hj.
    + now apply JsMapFacts.wf_delete.
    + now apply JsMapFacts.wf_delete.
    + intros c sid. rewrite ?Hj, ?Hs, JsMapFacts.get_delete.
      destruct (String.eqb code c) eqn:Ec; [discriminate|].
      intros Hc. rewrite JsMapFacts.get_delete.
      destruct (String.eqb sessionId sid) eqn:Es; [|eauto].
      apply String.eqb_eq in Es. subst sid.
      apply String.eqb_neq in Ec. elim Ec. eauto.
    + intros sid s'. rewrite ?Hs, JsMapFacts.get_delete.
      destruct (String.eqb sessionId sid) eqn:Es; [discriminate|].
      intros Hsid. destruct (Hcoded _ _ Hsid) as [Hf|[c Hc]]; [now left|].
      right. exists c. rewrite ?Hj, JsMapFacts.get_delete.
      destruct (String.eqb code c) eqn:Ec; [|assumption].
      apply String.eqb_eq in Ec. subst c.
      apply String.eqb_neq in Es. congruence.
    + intros c1 c2 sid. rewrite ?Hj, !JsMapFacts.get_delete.
      destruct (String.eqb code c1); [discriminate|].
      destruct (String.eqb code c2); [discriminate|].
      apply Hone.
  - constructor; rewrite ?Hs, ?Hj.
    + now apply JsMapFacts.wf_delete.
    + assumption.
    + intros c sid. rewrite ?Hj, ?Hs. intros Hc.
      rewrite JsMapFacts.get_delete.
      destruct (String.eqb sessionId sid) eqn:Es; [|eauto].
      apply String.eqb_eq in Es. subst sid.
      destruct (get_getJoinCode _ _ _ Hc) as [c' Hc']. congruence.
    + intros sid s'. rewrite ?Hs, ?Hj, JsMapFacts.get_delete.
      destruct (String.eqb sessionId sid); [discriminate|]. apply Hcoded.
    + rewrite ?Hj. apply Hone.
Qed.

Lemma consistent_create failed alphabet env name hostName config m c m' :
  JsMap.get (newSessionId env) (sessions m) = None ->
  createSession alphabet env name hostName config m = Returns c m' ->
  consistentBut failed m -> consistentBut failed m'.
Proof.
  intros Hfresh Hcreate [Hws Hwc Hlive Hcoded Hone].
  destruct (createSession_inv _ _ _ _ _ _ _ _ Hcreate)
    as (_ & Hs & Hj & Hfree & _ & _).
  constructor; rewrite ?Hs, ?Hj.
  - now apply JsMapFacts.wf_set.
  - now apply JsMapFacts.wf_set.
  - intros code sid. rewrite ?Hj, ?Hs, JsMapFacts.get_set.
    destruct (String.eqb (joinCode c) code).
    + intros [= <-]. rewrite JsMapFacts.get_set_same. eauto.
    + intros Hc. destruct (Hlive _ _ Hc) as [s Hsid].
      rewrite JsMapFacts.get_set.
      destruct (String.eqb (newSessionId env) sid); eauto.
  - intros sid s. rewrite ?Hs, ?Hj, JsMapFacts.get_set.
    destruct (String.eqb (newSessionId env) sid) eqn:Es.
    + apply String.eqb_eq in Es. subst sid. intros _. right.
      exists (joinCode c). apply JsMapFacts.get_set_same.
    + intros Hsid. destruct (Hcoded _ _ Hsid) as [Hf|[code Hcode]];
        [now left|].
      right. exists code. rewrite JsMapFacts.get_set_other; [assumption|].
      intros ->. congruence.
  - intros c1 c2 sid. rewrite ?Hj, !JsMapFacts.get_set.
    destruct (String.eqb (joinCode c) c1) eqn:E1;
      destruct (String.eqb (joinCode c) c2) eqn:E2.
    + apply String.eqb_eq in E1, E2. congruence.
    + intros [= <-] H2. destruct (Hlive _ _ H2) as [s Hsid]. congruence.
    + intros H1 [= <-]. destruct (Hlive _ _ H1) as [s Hsid]. congruence.
    + apply Hone.
Qed.

(** A [createSession] that throws leaves a consistent registry, but for
    the session it has stored. *)
Lemma consistent_throw failed alphabet env name hostName config m m' :
  createSession alphabet env name hostName config m = Throws m' ->
  consistentBut failed m -> consistentBut (newSessionId env :: failed) m'.
Proof.
  intros Hthrow [Hws Hwc Hlive Hcoded Hone].
  destruct (createSession_throws _ _ _ _ _ _ _ Hthrow)
    as ([s [_ Hs]] & Hj & _).
  constructor; rewrite ?Hs, ?Hj.
  - now apply JsMapFacts.wf_set.
  - assumption.
  - intros code sid. rewrite ?Hj, ?Hs. intros Hc.
    destruct (Hlive _ _ Hc) as [s0 Hsid]. rewrite JsMapFacts.get_set.
    destruct (String.eqb (newSessionId env) sid); eauto.
  - intros sid s0. rewrite ?Hs, ?Hj, JsMapFacts.get_set.
    destruct (String.eqb (newSessionId env) sid) eqn:Es.
    + apply String.eqb_eq in Es. subst sid. intros _. left. now left.
    + intros Hsid. destruct (Hcoded _ _ Hsid) as [Hf|Hc]; [|now right].
      left. now right.
  - rewrite ?Hj. apply Hone.
Qed.

Lemma consistent_cleanupEntry failed now sessionId s m :
  consistentBut failed m -> consistentBut failed (cleanupEntry now sessionId s m).
Proof.
  intros Hm. unfold cleanupEntry.
  destruct (_ && _); [now apply consistent_delete|].
  destruct (_ >? _)%Z; [now apply consistent_delete|assumption].
Qed.

Lemma consistent_cleanupLoop failed now ids m :
  consistentBut failed m -> consistentBut failed (cleanupLoop now ids m).
Proof.
  revert m. induction ids as [|id0 r IH]; intros m Hm; cbn; [assumption|].
  destruct (JsMap.get id0 (sessions m)); apply IH; [|assumption].
  now apply consistent_cleanupEntry.
Qed.

Lemma consistent_leave failed now sessionId participantId m :
  consistentBut failed m ->
  consistentBut failed (snd (leaveSession now sessionId participantId m)).
Proof.
  intros Hm. unfold leaveSession.
  destruct (JsMap.get sessionId (sessions m)) as [s|] eqn:E; [|assumption].
  destruct (Session.removeParticipant now participantId s) as [removed s'].
  cbn [snd].
  pose proof (consistent_replace failed m sessionId s s' E Hm) as Hm1.
  destruct (removed && _); [|assumption].
  unfold cleanupIfEmpty. cbn [sessions withSessions].
  rewrite JsMapFacts.get_set_same.
  destruct (_ =? 0)%nat; [|assumption].
  now apply consistent_delete.
Qed.

Lemma joinSession_joinCodes newId now joinCode participantName asObserver m :
  joinCodes (snd (joinSession newId now joinCode participantName asObserver m))
  = joinCodes m.
Proof.
  unfold joinSession. destruct (getSessionByJoinCode joinCode m); [|reflexivity].
  destruct (Session.addParticipant _ _ _) as [added s'].
  now destruct added.
Qed.

Lemma consistent_join failed newId now joinCode participantName asObserver m :
  consistentBut failed m ->
  consistentBut failed
    (snd (joinSession newId now joinCode participantName asObserver m)).
Proof.
  intros Hm. unfold joinSession.
  destruct (getSessionByJoinCode joinCode m) as [s|] eqn:E; [|assumption].
  destruct (Session.addParticipant _ _ _) as [added s'].
  unfold getSessionByJoinCode in E.
  destruct (JsMap.get _ (joinCodes m)) as [sid|]; [|discriminate].
  destruct (negb (JsString.truthy sid)); [discriminate|].
  assert (consistentBut failed (withSessions (JsMap.set sid s' (sessions m)) m))
    by (eapply consistent_replace; eauto).
  now destruct added.
Qed.

Lemma consistent_step failed alphabet op m m' :
  admissible op m ->
  applyOp alphabet op m = Some m' ->
  consistentBut failed m -> consistentBut failed m'.
Proof.
  intros Hadm Happ Hm. destruct op; cbn in Hadm, Happ.
  - destruct (createSession _ _ _ _ _ _) as [c m1|m1] eqn:E; [|discriminate].
    injection Happ as <-. eapply consistent_create; eauto.
  - injection Happ as <-. now apply consistent_join.
  - injection Happ as <-. now apply consistent_leave.
  - injection Happ as <-. now apply consistent_delete.
  - injection Happ as <-. now apply consistent_cleanupLoop.
  - injection Happ as <-. destruct (startCleanup_fields m) as (Hs & Hj & _).
    apply (consistent_same_ids failed m); rewrite ?Hs;
      [exact Hj|apply Hm|tauto|assumption].
  - injection Happ as <-. destruct (stopCleanup_fields m) as (Hs & Hj & _).
    apply (consistent_same_ids failed m); rewrite ?Hs;
      [exact Hj|apply Hm|tauto|assumption].
  - destruct (JsMap.get sessionId (sessions m)) as [s|] eqn:E.
    + injection Happ as <-. eapply consistent_replace; eauto.
    + now injection Happ as <-.
Qed.

Lemma history_consistent alphabet failed m :
  history alphabet failed m -> consistentBut failed m.
Proof.
  induction 1 as [config|failed m op m' _ IH Hadm Happ
                 |failed m env name hostName config m' _ IH Hadm Hthrow].
  - apply consistent_new.
  - eapply consistent_step; eauto.
  - eapply consistent_throw; eauto.
Qed.

(** Every registry the manager can be in has its history. *)
Lemma reachable_history alphabet m :
  reachable alphabet m <-> exists failed, history alphabet failed m.
Proof.
  split.
  - induction 1 as [config|m op m' _ [failed IH] Hadm Happ
                   |m env name hostName config m' _ [failed IH] Hadm Hthrow].
    + exists []. constructor.
    + exists failed. econstructor 2; eauto.
    + exists (newSessionId env :: failed). econstructor 3; eauto.
  - intros [failed H].
    induction H as [config|failed m op m' _ IH Hadm Happ
                   |failed m env name hostName config m' _ IH Hadm Hthrow].
    + constructor.
    + econstructor 2; eauto.
    + econstructor 3; eauto.
Qed.

Lemma reachable_consistent alphabet m :
  reachable alphabet m -> exists failed, consistentBut failed m.
Proof.
  intros H. apply reachable_history in H. destruct H as [failed H].
  exists failed. now apply (history_consistent alphabet).
Qed.

(** In a consistent registry [getJoinCode] inverts [joinCodes]. *)
Lemma consistent_agree failed m : consistentBut failed m -> codesAgree m.
Proof.
  intros [Hws Hwc Hlive Hcoded Hone] code sid. split.
  - intros Hc. destruct (get_getJoinCode _ _ _ Hc) as [code' Hcode'].
    rewrite Hcode'. f_equal.
    apply (Hone _ _ sid); [now apply getJoinCode_get|assumption].
  - now apply getJoinCode_get.
Qed.

(** A consistent registry is a bijection between the codes and the
    sessions that have one. *)
Lemma consistent_bijectiveBut failed m :
  consistentBut failed m -> bijectiveBut failed m.
Proof.
  intros Hm. pose proof (consistent_agree _ _ Hm) as Hagree.
  destruct Hm as [Hws Hwc Hlive Hcoded Hone]. split; [exact Hlive|].
  split; [exact Hagree|]. split.
  - intros sid s Hsid Hnot.
    destruct (Hcoded _ _ Hsid) as [Hf|[c Hc]]; [contradiction|].
    destruct (get_getJoinCode _ _ _ Hc) as [code Hcode].
    exists code. split; [assumption|].
    pose proof (getJoinCode_get _ _ _ Hwc Hcode) as Hget.
    intros code'. split; [intros H'; eapply Hone; eauto|now intros ->].
  - intros sid Hsid.
    destruct (getJoinCode sid m) as [code|] eqn:E; [|reflexivity].
    apply (getJoinCode_get _ _ _ Hwc) in E.
    destruct (Hlive _ _ E) as [s Hs']. congruence.
Qed.


Lemma example_history :
  history Example.alphabet ["s-3"] Example.registry3.
Proof.
  apply (history_throw _ [] Example.registry2 Example.env3 "Sprint 3" "Carol"
           None).
  - apply (history_step _ [] Example.registry1
             (OpCreate Example.env2 "Sprint 2" "Bob" None)).
    + apply (history_step _ [] Example.registry0
               (OpCreate Example.env1 "Sprint 1" "Alice" None)).
      * apply history_new.
      * vm_compute. reflexivity.
      * vm_compute. reflexivity.
    + vm_compute. reflexivity.
    + vm_compute. reflexivity.
  - vm_compute. reflexivity.
  - vm_compute. reflexivity.
Qed.

Lemma example_reachable : reachable Example.alphabet Example.registry2.
Proof.
  apply (reachable_step _ Example.registry1
           (OpCreate Example.env2 "Sprint 2" "Bob" None)).
  - apply (reachable_step _ Example.registry0
             (OpCreate Example.env1 "Sprint 1" "Alice" None)).
    + apply reachable_new.
    + vm_compute. reflexivity.
    + vm_compute. reflexivity.
  - vm_compute. reflexivity.
  - vm_compute. reflexivity.
Qed.




(** *** Join codes are well formed and never shared *)

Lemma deleteSession_codes sessionId m code sid :
  JsMap.get code (joinCodes (snd (deleteSession sessionId m))) = Some sid ->
  JsMap.get code (joinCodes m) = Some sid.
Proof.
  destruct (JsMap.get sessionId (sessions m)) as [s|] eqn:E;
    [|now rewrite deleteSession_absent].
  destruct (deleteSession_present _ _ _ E) as (_ & _ & -> & _).
  destruct (getJoinCode sessionId m) as [c|]; [|tauto].
  rewrite JsMapFacts.get_delete. now destruct (String.eqb c code).
Qed.

Lemma cleanupLoop_codes now ids m code sid :
  JsMap.get code (joinCodes (cleanupLoop now ids m)) = Some sid ->
  JsMap.get code (joinCodes m) = Some sid.
Proof.
  revert m. induction ids as [|id0 r IH]; intros m; cbn; [tauto|].
  destruct (JsMap.get id0 (sessions m)); [|apply IH].
  intros H. apply IH in H. unfold cleanupEntry in H.
  destruct (_ && _); [now apply deleteSession_codes in H|].
  destruct (_ >? _)%Z; [now apply deleteSession_codes in H|assumption].
Qed.

Lemma leaveSession_codes now sessionId participantId m code sid :
  JsMap.get code
    (joinCodes (snd (leaveSession now sessionId participantId m))) = Some sid ->
  JsMap.get code (joinCodes m) = Some sid.
Proof.
  unfold leaveSession.
  destruct (JsMap.get sessionId (sessions m)) as [s|]; [|tauto].
  destruct (Session.removeParticipant now participantId s) as [removed s'].
  cbn [snd]. destruct (removed && _); [|tauto].
  unfold cleanupIfEmpty. cbn [sessions withSessions].
  rewrite JsMapFacts.get_set_same.
  destruct (_ =? 0)%nat; [|tauto].
  intros H. now apply deleteSession_codes in H.
Qed.

(** A step puts no code into [joinCodes] but one [createSession] drew. *)
Lemma step_codes alphabet op m m' code sid :
  applyOp alphabet op m = Some m' ->
  JsMap.get code (joinCodes m') = Some sid ->
  JsMap.get code (joinCodes m) = Some sid
  \/ exists rnd pos, code = drawCode alphabet JOIN_CODE_LENGTH rnd pos "".
Proof.
  intros Happ Hget. destruct op; cbn in Happ.
  - destruct (createSession _ _ _ _ _ _) as [c m1|m1] eqn:E; [|discriminate].
    injection Happ as <-.
    destruct (createSession_inv _ _ _ _ _ _ _ _ E)
      as (_ & _ & Hj & _ & [k [_ Hdraw]] & _).
    rewrite Hj, JsMapFacts.get_set in Hget.
    destruct (String.eqb (joinCode c) code) eqn:Ec; [|now left].
    apply String.eqb_eq in Ec. subst code. right. eauto.
  - injection Happ as <-. rewrite joinSession_joinCodes in Hget. now left.
  - injection Happ as <-. left. eapply leaveSession_codes; eauto.
  - injection Happ as <-. left. eapply deleteSession_codes; eauto.
  - injection Happ as <-. left. eapply cleanupLoop_codes; eauto.
  - injection Happ as <-. left.
    destruct (startCleanup_fields m) as (_ & Hj & _). now rewrite Hj in Hget.
  - injection Happ as <-. left.
    destruct (stopCleanup_fields m) as (_ & Hj & _). now rewrite Hj in Hget.
  - left. destruct (JsMap.get sessionId (sessions m));
      injection Happ as <-; assumption.
Qed.

Lemma reachable_codesWellFormed alphabet m :
  nonEmpty alphabet = true ->
  reachable alphabet m -> codesWellFormed alphabet m.
Proof.
  intros Hne.
  induction 1 as [config|m op m' _ IH Hadm Happ
                 |m env name hostName config m' _ IH Hadm Hthrow];
    intros code sid Hget.
  - discriminate.
  - destruct (step_codes _ _ _ _ _ _ Happ Hget) as [H|[rnd [pos ->]]].
    + eapply IH; eauto.
    + now apply JoinCodeFacts.drawCode_wellFormed.
  - destruct (createSession_throws _ _ _ _ _ _ _ Hthrow) as (_ & Hj & _).
    rewrite Hj in Hget. eapply IH; eauto.
Qed.

(** The codes a run of [createSession] calls returns are all different. *)
Lemma createAll_distinct alphabet calls m cs m' :
  createAll alphabet calls m = Some (cs, m') ->
  NoDup (map joinCode cs)
  /\ forall c, In c cs -> JsMap.get (joinCode c) (joinCodes m) = None.
Proof.
  revert m cs m'. induction calls as [|[[env name] hostName] r IH];
    intros m cs m'; cbn.
  - intros [= <- <-]. split; [constructor|]. intros c [].
  - destruct (createSession _ _ _ _ _ m) as [c m1|m1] eqn:E; [|discriminate].
    destruct (createAll alphabet r m1) as [[cs1 m2]|] eqn:E1; [|discriminate].
    intros [= <- <-].
    destruct (IH _ _ _ E1) as [Hnd Hfree].
    destruct (createSession_inv _ _ _ _ _ _ _ _ E)
      as (_ & _ & Hj & Hnew & _ & _).
    split.
    + cbn. constructor; [|assumption].
      intros Hin. apply in_map_iff in Hin. destruct Hin as [c' [Heq Hin]].
      specialize (Hfree _ Hin). rewrite Hj, Heq in Hfree.
      now rewrite JsMapFacts.get_set_same in Hfree.
    + intros c' [<-|Hin]; [assumption|].
      specialize (Hfree _ Hin). rewrite Hj, JsMapFacts.get_set in Hfree.
      now destruct (String.eqb (joinCode c) (joinCode c')).
Qed.

(** C2.  In every registry the manager can be in, every code of
    [joinCodes] has exactly [JOIN_CODE_LENGTH] (6) characters, all of the
    alphabet [JOIN_CODE_CHARS] (and is upper case when the alphabet is);
    no code is held twice, no two sessions share a code, and the codes any
    run of [createSession] calls returns are pairwise different.  The
    alphabet, a constant that is not at hand, is taken non-empty. *)
Theorem joinCodes_well_formed_and_unique alphabet m :
  nonEmpty alphabet = true ->
  reachable alphabet m ->
  (forall code sessionId,
     JsMap.get code (joinCodes m) = Some sessionId ->
     String.length code = 6
     /\ (forall c, In c (JsString.chars code) ->
                   In c (JsString.chars alphabet))
     /\ (upperCaseAlphabet alphabet = true ->
         JsString.toUpperCase code = code))
  /\ NoDup (JsMap.keys (joinCodes m))
  /\ (forall id1 id2 code1 code2,
        id1 <> id2 ->
        getJoinCode id1 m = Some code1 ->
        getJoinCode id2 m = Some code2 ->
        code1 <> code2)
  /\ (forall calls created m',
        createAll alphabet calls m = Some (created, m') ->
        NoDup (map joinCode created)).
Proof.
  intros Hne Hreach.
  destruct (reachable_consistent _ _ Hreach)
    as [failed [Hws Hwc Hlive Hcoded Hone]].
  pose proof (reachable_codesWellFormed _ _ Hne Hreach) as Hwf.
  repeat split.
  - eapply Hwf; eauto.
  - eapply Hwf; eauto.
  - intros Hup. apply JoinCodeFacts.toUpperCase_canonical.
    apply forallb_forall. intros c Hin.
    unfold upperCaseAlphabet in Hup. rewrite forallb_forall in Hup.
    apply Hup. eapply Hwf; eauto.
  - exact Hwc.
  - intros id1 id2 code1 code2 Hne12 H1 H2 Heq. subst code2.
    apply (getJoinCode_get _ _ _ Hwc) in H1, H2. congruence.
  - intros calls created m' Hall.
    now destruct (createAll_distinct _ _ _ _ _ Hall).
Qed.

Lemma joinCodes_well_formed_and_unique_witness :
  let alphabet := Example.alphabet in
  let m := Example.registry2 in
  (forall code sessionId,
     JsMap.get code (joinCodes m) = Some sessionId ->
     String.length code = 6
     /\ (forall c, In c (JsString.chars code) ->
                   In c (JsString.chars alphabet))
     /\ (upperCaseAlphabet alphabet = true ->
         JsString.toUpperCase code = code))
  /\ NoDup (JsMap.keys (joinCodes m))
  /\ (forall id1 id2 code1 code2,
        id1 <> id2 ->
        getJoinCode id1 m = Some code1 ->
        getJoinCode id2 m = Some code2 ->
        code1 <> code2)
  /\ (forall calls created m',
        createAll alphabet calls m = Some (created, m') ->
        NoDup (map joinCode created)).
Proof.
  apply (joinCodes_well_formed_and_unique Example.alphabet Example.registry2).
  - vm_compute. reflexivity.
  - exact example_reachable.
Defined.

End RegistryProofs.

(** ** The voting result *)

Module VotingProofs.

Import VotingResult Consensus.

Lemma voters_In participants p :
  In p (voters participants)
  <-> In p participants
      /\ Participant.isObserver p = false
      /\ exists v, Participant.selectedValue p = Some v.
Proof.
  unfold voters. rewrite filter_In, andb_true_iff, negb_true_iff.
  unfold hasVoted. split.
  - intros (Hin & Hobs & Hv). repeat split; try assumption.
    destruct (Participant.selectedValue p) as [v|]; [eauto|discriminate].
  - intros (Hin & Hobs & [v Hv]). repeat split; try assumption.
    now rewrite Hv.
Qed.

Lemma sameValue_true a b : sameValue a b = true <-> a = b.
Proof.
  destruct a as [x|], b as [y|]; cbn; try (split; congruence).
  rewrite String.eqb_eq. split; congruence.
Qed.

(** Observers, and non-observers that have not voted, are no voters. *)
Lemma voters_nonObservers participants :
  voters (nonObservers participants) = voters participants.
Proof.
  unfold voters, nonObservers.
  induction participants as [|p r IH]; cbn; [reflexivity|].
  destruct (Participant.isObserver p) eqn:E; cbn; [assumption|].
  rewrite E. cbn. destruct (hasVoted p); now rewrite IH.
Qed.

Lemma voters_idempotent participants :
  voters (voters participants) = voters participants.
Proof.
  unfold voters. induction participants as [|p r IH]; cbn; [reflexivity|].
  destruct (negb (Participant.isObserver p) && hasVoted p) eqn:E; cbn;
    [|assumption].
  now rewrite E, IH.
Qed.

Lemma hasConsensus_of_voters participants :
  hasConsensus participants = true <-> allVotersAgree participants.
Proof.
  unfold hasConsensus, allVotersAgree.
  destruct (List.length (voters participants) <? 2)%nat eqn:Elen.
  - apply Nat.ltb_lt in Elen. split; [discriminate|]. intros [H _]. lia.
  - apply Nat.ltb_ge in Elen.
    destruct (voters participants) as [|first r] eqn:Ev; [cbn in Elen; lia|].
    cbn [nth_error].
    assert (Hfirst : exists v, Participant.selectedValue first = Some v).
    { apply (voters_In participants). rewrite Ev. now left. }
    destruct Hfirst as [v Hv]. rewrite forallb_forall. split.
    + intros H. split; [assumption|]. exists v. intros p Hp.
      apply H in Hp. apply sameValue_true in Hp. congruence.
    + intros [_ [w Hw]] p Hp. apply sameValue_true.
      rewrite (Hw p Hp). symmetry. apply Hw. now left.
Qed.

(** C6, as the code has it.  [hasConsensus] is true if and only if at
    least two participants are voters (non-observers with a non-null
    selected value) and all voters selected the identical value.  It is
    false with fewer than two voters, and neither the observers nor the
    non-observers that have not voted change it. *)
Theorem hasConsensus_iff participants :
  (hasConsensus participants = true <-> allVotersAgree participants)
  /\ (List.length (voters participants) < 2 ->
      hasConsensus participants = false)
  /\ hasConsensus (nonObservers participants) = hasConsensus participants
  /\ hasConsensus (voters participants) = hasConsensus participants.
Proof.
  split; [|split; [|split]].
  - apply hasConsensus_of_voters.
  - intros Hlt. unfold hasConsensus.
    apply Nat.ltb_lt in Hlt. now rewrite Hlt.
  - unfold hasConsensus. now rewrite voters_nonObservers.
  - unfold hasConsensus. now rewrite voters_idempotent.
Qed.

(** C6, as it is claimed, fails: Alice and Bob both selected "5", Carol,
    no observer, has selected nothing yet.  [hasConsensus] holds, though
    not all non-observers selected the same non-null value. *)
Lemma hasConsensus_ignores_missing_votes :
  hasConsensus [alice; bob; carol] = true
  /\ ~ allNonObserversAgree [alice; bob; carol]
  /\ ~ (hasConsensus [alice; bob; carol] = true
        <-> allNonObserversAgree [alice; bob; carol]).
Proof.
  assert (Hno : ~ allNonObserversAgree [alice; bob; carol]).
  { intros [_ [v H]].
    specialize (H carol). cbn in H.
    assert (Hc : Participant.selectedValue carol = Some v) by (apply H; auto).
    discriminate. }
  split; [reflexivity|]. split; [exact Hno|].
  intros [H _]. apply Hno, H. reflexivity.
Qed.

End VotingProofs.

(** ** The real-time channel *)

Module ChannelProofs.

Import WebSocket Channel.

Local Open Scope Z_scope.

Lemma scheduled_app es1 es2 :
  scheduled (es1 ++ es2) = (scheduled es1 ++ scheduled es2)%list.
Proof. unfold scheduled. now rewrite flat_map_app. Qed.

Lemma scheduled_invocations payload (hs : list MessageHandler) :
  scheduled (map (fun h => Invoke h payload) hs) = [].
Proof. induction hs as [|h r IH]; cbn; [reflexivity|assumption]. Qed.

(** What one event does to the attempt counter, and what it schedules. *)
Lemma step_counter opts rt ev g :
  globalReconnectAttempts (fst (step opts rt ev g))
  = nextAttempts opts ev (globalReconnectAttempts g)
  /\ scheduled (snd (step opts rt ev g))
     = nextScheduled opts ev (globalReconnectAttempts g).
Proof.
  unfold nextAttempts, nextScheduled.
  destruct ev;
    try (run_action; cbn [scheduled flat_map app];
         solve [split; reflexivity | congruence]).
  destruct message as [[type payload]|]; unfold_actions;
    [|split; reflexivity].
  destruct (JsMap.get type (globalHandlers g)); simpl_globals;
    [|split; reflexivity].
  split; [reflexivity|apply scheduled_invocations].
Qed.

Lemma run_cons opts rt ev evs g :
  run opts rt (ev :: evs) g
  = (fst (run opts rt evs (fst (step opts rt ev g))),
     (snd (step opts rt ev g)
      ++ snd (run opts rt evs (fst (step opts rt ev g))))%list).
Proof.
  cbn [run]. unfold seq.
  destruct (step opts rt ev g) as [g1 e1]. cbn [fst snd].
  now destruct (run opts rt evs g1).
Qed.

Lemma nextAttempts_bounds opts ev a :
  0 <= maxReconnectAttempts opts ->
  0 <= a <= maxReconnectAttempts opts ->
  0 <= nextAttempts opts ev a <= maxReconnectAttempts opts.
Proof.
  intros Hmax Ha. destruct ev; cbn; try lia.
  destruct (autoReconnect opts); cbn; [|lia].
  destruct (a <? maxReconnectAttempts opts) eqn:E; [|lia].
  apply Z.ltb_lt in E. lia.
Qed.

(** The attempt counter stays between 0 and the maximum. *)
Lemma run_attempts_bounds opts rt evs g :
  0 <= maxReconnectAttempts opts ->
  0 <= globalReconnectAttempts g <= maxReconnectAttempts opts ->
  0 <= globalReconnectAttempts (fst (run opts rt evs g))
    <= maxReconnectAttempts opts.
Proof.
  intros Hmax. revert g. induction evs as [|ev r IH]; intros g Hg.
  - exact Hg.
  - rewrite run_cons. cbn [fst]. apply IH.
    destruct (step_counter opts rt ev g) as [-> _].
    now apply nextAttempts_bounds.
Qed.

(** Without a successful connect, every reconnect that is scheduled
    takes one of the attempts that are left. *)
Lemma run_scheduled_bound opts rt evs g :
  0 <= maxReconnectAttempts opts ->
  0 <= globalReconnectAttempts g <= maxReconnectAttempts opts ->
  noSuccessfulConnect evs = true ->
  Z.of_nat (List.length (scheduled (snd (run opts rt evs g))))
  + globalReconnectAttempts g
  <= globalReconnectAttempts (fst (run opts rt evs g)).
Proof.
  intros Hmax. revert g. induction evs as [|ev r IH]; intros g Hg Hno.
  - cbn. lia.
  - cbn [noSuccessfulConnect forallb] in Hno.
    apply andb_prop in Hno. destruct Hno as [Hev Hr].
    rewrite run_cons. cbn [fst snd].
    rewrite scheduled_app, length_app, Nat2Z.inj_add.
    destruct (step_counter opts rt ev g) as [Ha Hs].
    pose proof (nextAttempts_bounds opts ev _ Hmax Hg) as Hb.
    rewrite <- Ha in Hb. specialize (IH _ Hb Hr).
    rewrite Hs. rewrite Ha in IH.
    enough (Z.of_nat (List.length
                        (nextScheduled opts ev (globalReconnectAttempts g)))
            + globalReconnectAttempts g
            <= nextAttempts opts ev (globalReconnectAttempts g)) by lia.
    clear IH Hb Ha Hs.
    destruct ev; cbn in Hev; cbn [nextScheduled nextAttempts List.length];
      try lia; try discriminate.
    destruct (autoReconnect opts
              && (globalReconnectAttempts g <? maxReconnectAttempts opts));
      cbn [List.length]; lia.
Qed.

(** Every reconnect is scheduled after the base delay doubled once per
    earlier attempt. *)
Lemma run_scheduled_delays opts rt evs g d :
  0 <= maxReconnectAttempts opts ->
  0 <= globalReconnectAttempts g <= maxReconnectAttempts opts ->
  In d (scheduled (snd (run opts rt evs g))) ->
  exists attempt,
    1 <= attempt <= maxReconnectAttempts opts
    /\ d = reconnectDelay opts * 2 ^ (attempt - 1).
Proof.
  intros Hmax. revert g. induction evs as [|ev r IH]; intros g Hg Hin.
  - destruct Hin.
  - rewrite run_cons in Hin. cbn [fst snd] in Hin.
    rewrite scheduled_app in Hin. apply in_app_or in Hin.
    destruct (step_counter opts rt ev g) as [Ha Hs].
    destruct Hin as [Hin|Hin].
    + rewrite Hs in Hin. destruct ev; cbn in Hin; try tauto.
      destruct (autoReconnect opts); cbn in Hin; [|tauto].
      destruct (_ <? _) eqn:E; cbn in Hin; [|tauto].
      apply Z.ltb_lt in E. destruct Hin as [<-|[]].
      exists (globalReconnectAttempts g + 1). split; [lia|reflexivity].
    + apply (IH (fst (step opts rt ev g))); [|assumption].
      rewrite Ha. now apply nextAttempts_bounds.
Qed.

(** What [onclose] schedules, and where it leaves the timer. *)
Lemma onclose_schedule opts g :
  let g' := fst (onclose opts g) in
  scheduled (snd (onclose opts g))
  = (if autoReconnect opts
        && (globalReconnectAttempts g <? maxReconnectAttempts opts)
     then [reconnectDelay opts * 2 ^ (globalReconnectAttempts g' - 1)]
     else [])
  /\ globalReconnectTimer g'
     = (if autoReconnect opts
           && (globalReconnectAttempts g <? maxReconnectAttempts opts)
        then Some (reconnectDelay opts * 2 ^ (globalReconnectAttempts g' - 1))
        else globalReconnectTimer g).
Proof.
  cbv zeta. run_action; cbn [scheduled flat_map app]; split;
    reflexivity || congruence.
Qed.

(** C5.  After any history, and through any events that follow, with
    [maxReconnectAttempts = 5]: the attempt counter stays within 0..5; as
    long as no connect succeeds, at most 5 reconnects are scheduled (no
    6th); each is delayed by [reconnectDelay * 2^(attempt-1)], [attempt]
    being the counter once incremented; when the counter is at 5 a close
    schedules nothing and sets no timer; and [onopen] resets the counter
    to 0. *)
Theorem reconnect_attempts_bounded opts rt history events :
  maxReconnectAttempts opts = 5 ->
  let g := fst (run opts rt history initial) in
  let g' := fst (run opts rt events g) in
  let es := snd (run opts rt events g) in
  0 <= globalReconnectAttempts g' <= 5
  /\ (noSuccessfulConnect events = true ->
      (List.length (scheduled es) <= 5)%nat)
  /\ (forall d, In d (scheduled es) ->
        exists attempt,
          1 <= attempt <= 5 /\ d = reconnectDelay opts * 2 ^ (attempt - 1))
  /\ scheduled (snd (onclose opts g'))
     = (if autoReconnect opts && (globalReconnectAttempts g' <? 5)
        then [reconnectDelay opts
              * 2 ^ (globalReconnectAttempts (fst (onclose opts g')) - 1)]
        else [])
  /\ (globalReconnectAttempts g' = 5 ->
      scheduled (snd (onclose opts g')) = []
      /\ globalReconnectTimer (fst (onclose opts g'))
         = globalReconnectTimer g')
  /\ globalReconnectAttempts (fst (onopen g')) = 0.
Proof.
  intros Hmax. cbv zeta.
  assert (H0 : 0 <= maxReconnectAttempts opts) by lia.
  assert (Hg : 0 <= globalReconnectAttempts
                      (fst (run opts rt history initial))
               <= maxReconnectAttempts opts).
  { apply run_attempts_bounds; [assumption|]. cbn. lia. }
  pose proof (run_attempts_bounds opts rt events _ H0 Hg) as Hg'.
  destruct (onclose_schedule opts
              (fst (run opts rt events (fst (run opts rt history initial)))))
    as [Hs Ht].
  rewrite Hmax in Hg', Hs, Ht.
  split; [exact Hg'|]. split; [|split; [|split; [|split]]].
  - intros Hno.
    pose proof (run_scheduled_bound opts rt events _ H0 Hg Hno) as Hb. lia.
  - intros d Hin.
    destruct (run_scheduled_delays opts rt events _ d H0 Hg Hin)
      as [k [Hk Hd]].
    exists k. split; [lia|assumption].
  - exact Hs.
  - intros Hfive. rewrite Hs, Ht, Hfive. cbn [Z.ltb Z.compare].
    now rewrite andb_false_r.
  - reflexivity.
Qed.

Lemma reconnect_attempts_bounded_witness :
  let opts := defaultOptions in
  let g := fst (run opts browser connectedOnce initial) in
  let g' := fst (run opts browser droppedSevenTimes g) in
  let es := snd (run opts browser droppedSevenTimes g) in
  scheduled es = [1000; 2000; 4000; 8000; 16000]
  /\ 0 <= globalReconnectAttempts g' <= 5
  /\ (noSuccessfulConnect droppedSevenTimes = true ->
      (List.length (scheduled es) <= 5)%nat)
  /\ (forall d, In d (scheduled es) ->
        exists attempt,
          1 <= attempt <= 5 /\ d = reconnectDelay opts * 2 ^ (attempt - 1))
  /\ scheduled (snd (onclose opts g'))
     = (if autoReconnect opts && (globalReconnectAttempts g' <? 5)
        then [reconnectDelay opts
              * 2 ^ (globalReconnectAttempts (fst (onclose opts g')) - 1)]
        else [])
  /\ (globalReconnectAttempts g' = 5 ->
      scheduled (snd (onclose opts g')) = []
      /\ globalReconnectTimer (fst (onclose opts g'))
         = globalReconnectTimer g')
  /\ globalReconnectAttempts (fst (onopen g')) = 0.
Proof.
  split.
  - vm_compute. reflexivity.
  - apply (reconnect_attempts_bounded defaultOptions browser connectedOnce
             droppedSevenTimes).
    vm_compute. reflexivity.
Defined.

(** *** [send] *)

(** C8.  When the channel is not connected ([globalWs] absent, or its
    socket not [OPEN]), [send] transmits nothing, leaves the globals as
    they are and only warns; when it is connected, [send] transmits
    exactly one frame, the JSON text of [{ type, payload, timestamp }]
    with [Date.now()], an integer number of milliseconds, as timestamp,
    and leaves the globals as they are. *)
Theorem send_only_when_connected now type payload g :
  (isOpen g = false
   <-> globalWs g = None
       \/ exists rs, globalWs g = Some rs /\ rs <> OPEN)
  /\ (isOpen g = false ->
      send now type payload g
      = (g, [ConsoleWarn "[WebSocket] Cannot send message: not connected"])
      /\ transmitted (snd (send now type payload g)) = [])
  /\ (isOpen g = true ->
      send now type payload g
      = (g, [SocketSend (Json.stringify (envelope type payload now))])
      /\ transmitted (snd (send now type payload g))
         = [Json.stringify (envelope type payload now)])
  /\ Json.stringify (envelope type payload now)
     = ("{" ++ Json.quote "type" ++ ":" ++ Json.quote type
        ++ "," ++ Json.quote "payload" ++ ":" ++ Json.stringify payload
        ++ "," ++ Json.quote "timestamp" ++ ":" ++ Json.decimal now
        ++ "}")%string.
Proof.
  split; [|split; [|split]].
  - unfold isOpen. destruct (globalWs g) as [[]|]; split;
      try discriminate; try reflexivity; intros H; auto.
    + right. eexists. split; [reflexivity|discriminate].
    + destruct H as [H|[rs [[= <-] H]]]; [discriminate|congruence].
    + right. eexists. split; [reflexivity|discriminate].
    + right. eexists. split; [reflexivity|discriminate].
  - intros Hclosed. unfold send, reading. now rewrite Hclosed.
  - intros Hopen. unfold send, reading. now rewrite Hopen.
  - unfold envelope. cbn -[Json.quote Json.decimal String.append].
    now rewrite !JoinCodeFacts.append_assoc.
Qed.

(** *** Handlers *)

Lemma has_In (h : MessageHandler) s : JsSet.has sameHandler h s = true <-> In h s.
Proof.
  unfold JsSet.has, sameHandler. rewrite existsb_exists. split.
  - intros [x [Hin Heq]]. apply Nat.eqb_eq in Heq. now subst.
  - intros Hin. exists h. split; [assumption|apply Nat.eqb_refl].
Qed.

Lemma add_In (h h' : MessageHandler) s :
  In h' (JsSet.add sameHandler h s) <-> h' = h \/ In h' s.
Proof.
  unfold JsSet.add. destruct (JsSet.has sameHandler h s) eqn:E.
  - apply has_In in E. split; [auto|]. intros [->|H]; assumption.
  - rewrite in_app_iff. cbn. intuition.
Qed.

Lemma add_NoDup (h : MessageHandler) s :
  NoDup s -> NoDup (JsSet.add sameHandler h s).
Proof.
  intros Hnd. unfold JsSet.add. destruct (JsSet.has sameHandler h s) eqn:E.
  - assumption.
  - assert (Hnot : ~ In h s).
    { intros Hin. apply has_In in Hin. congruence. }
    clear E. induction s as [|x r IH]; cbn.
    + constructor; [tauto|constructor].
    + inversion Hnd as [|? ? Hx Hr]; subst. constructor.
      * rewrite in_app_iff. cbn. intros [H|[H|[]]]; [tauto|].
        subst. apply Hnot. now left.
      * apply IH; [assumption|]. intros H. apply Hnot. now right.
Qed.

(** Adding a handler that is in the set changes nothing. *)
Lemma add_present (h : MessageHandler) s :
  JsSet.has sameHandler h s = true -> JsSet.add sameHandler h s = s.
Proof. unfold JsSet.add. now intros ->. Qed.

Lemma has_add (h : MessageHandler) s :
  JsSet.has sameHandler h (JsSet.add sameHandler h s) = true.
Proof. apply has_In, add_In. now left. Qed.

Lemma delete_In (h h' : MessageHandler) s :
  In h' (JsSet.delete sameHandler h s) <-> h' <> h /\ In h' s.
Proof.
  unfold JsSet.delete, sameHandler.
  rewrite filter_In, negb_true_iff, Nat.eqb_neq.
  intuition congruence.
Qed.

Lemma delete_NoDup (h : MessageHandler) s :
  NoDup s -> NoDup (JsSet.delete sameHandler h s).
Proof. apply NoDup_filter. Qed.

(** Deleting a handler that is not in the set changes nothing. *)
Lemma delete_not_member (h : MessageHandler) s :
  JsSet.has sameHandler h s = false -> JsSet.delete sameHandler h s = s.
Proof.
  unfold JsSet.has, JsSet.delete. induction s as [|x r IH]; cbn;
    [reflexivity|].
  destruct (sameHandler h x); cbn; [discriminate|].
  intros H. now rewrite IH.
Qed.

Lemma has_delete (h : MessageHandler) s :
  JsSet.has sameHandler h (JsSet.delete sameHandler h s) = false.
Proof.
  destruct (JsSet.has sameHandler h (JsSet.delete sameHandler h s)) eqn:E;
    [|reflexivity].
  apply has_In, delete_In in E. tauto.
Qed.

Lemma has_delete_other (h h' : MessageHandler) s :
  h' <> h ->
  JsSet.has sameHandler h' (JsSet.delete sameHandler h s) = JsSet.has sameHandler h' s.
Proof.
  intros Hne. apply eq_true_iff_eq. rewrite !has_In, delete_In. tauto.
Qed.

Lemma count_occ_NoDup (h : MessageHandler) s :
  NoDup s -> In h s -> count_occ Nat.eq_dec s h = 1%nat.
Proof.
  intros Hnd Hin. apply (proj1 (NoDup_count_occ' Nat.eq_dec s) Hnd h Hin).
Qed.

Lemma invoked_invocations payload (hs : list MessageHandler) :
  invoked (map (fun h => Invoke h payload) hs) = hs.
Proof.
  unfold invoked. induction hs as [|h r IH]; cbn; [reflexivity|now rewrite IH].
Qed.

(** What [on], [unsubscribe] and [emitEvent] do, in terms of the
    handlers registered for each type. *)
Lemma on_spec type handler g :
  snd (on type handler g) = []
  /\ (forall type',
        handlersFor type' (fst (on type handler g))
        = if String.eqb type type'
          then JsSet.add sameHandler handler (handlersFor type g)
          else handlersFor type' g)
  /\ fst (on type handler g)
     = setHandlers
         (JsMap.set type (JsSet.add sameHandler handler (handlersFor type g))
            (globalHandlers g)) g.
Proof.
  assert (Hfst :
    on type handler g
    = (setHandlers
         (JsMap.set type (JsSet.add sameHandler handler (handlersFor type g))
            (globalHandlers g)) g, [])).
  { unfold handlersFor, JsMap.has. unfold_actions. unfold JsMap.has.
    destruct (JsMap.get type (globalHandlers g)) as [s|] eqn:E;
      simpl_globals.
    - now rewrite E.
    - rewrite JsMapFacts.get_set_same. simpl_globals.
      now rewrite JsMapFacts.set_set. }
  rewrite Hfst. cbn [fst snd]. split; [reflexivity|]. split; [|reflexivity].
  intros type'. unfold handlersFor at 1. simpl_globals.
  rewrite JsMapFacts.get_set.
  now destruct (String.eqb type type').
Qed.

Lemma unsubscribe_spec type handler g :
  snd (unsubscribe type handler g) = []
  /\ (forall type',
        handlersFor type' (fst (unsubscribe type handler g))
        = if String.eqb type type'
          then JsSet.delete sameHandler handler (handlersFor type g)
          else handlersFor type' g).
Proof.
  unfold handlersFor. unfold_actions.
  destruct (JsMap.get type (globalHandlers g)) as [s|] eqn:E; simpl_globals.
  - split; [reflexivity|]. intros type'. rewrite JsMapFacts.get_set.
    now destruct (String.eqb type type').
  - split; [reflexivity|]. intros type'.
    destruct (String.eqb type type') eqn:Et; [|reflexivity].
    apply String.eqb_eq in Et. subst. now rewrite E.
Qed.

Lemma emitEvent_spec type payload g :
  emitEvent type payload g
  = (g, map (fun h => Invoke h payload) (handlersFor type g)).
Proof.
  unfold handlersFor. unfold_actions.
  now destruct (JsMap.get type (globalHandlers g)).
Qed.

Lemma setHandlers_same g : setHandlers (globalHandlers g) g = g.
Proof. now destruct g. Qed.

Lemma unsubscribe_fst type handler g :
  fst (unsubscribe type handler g)
  = match JsMap.get type (globalHandlers g) with
    | Some typeHandlers =>
        setHandlers
          (JsMap.set type (JsSet.delete sameHandler handler typeHandlers)
             (globalHandlers g)) g
    | None => g
    end.
Proof.
  unfold_actions. now destruct (JsMap.get type (globalHandlers g)).
Qed.

(** Unsubscribing a handler that is not registered changes nothing. *)
Lemma unsubscribe_absent type handler g :
  registered type handler g = false ->
  fst (unsubscribe type handler g) = g.
Proof.
  unfold registered, handlersFor. rewrite unsubscribe_fst.
  destruct (JsMap.get type (globalHandlers g)) as [s|] eqn:E; [|reflexivity].
  intros Hno. rewrite (delete_not_member _ _ Hno).
  rewrite (JsMapFacts.set_same _ _ _ E). apply setHandlers_same.
Qed.

Lemma registered_unsubscribe type handler g :
  registered type handler (fst (unsubscribe type handler g)) = false.
Proof.
  unfold registered.
  destruct (unsubscribe_spec type handler g) as [_ ->].
  rewrite String.eqb_refl. apply has_delete.
Qed.

Lemma handlersWf_handlersFor g :
  handlersWf g <-> forall type, NoDup (handlersFor type g).
Proof.
  unfold handlersWf, handlersFor. split.
  - intros H type. destruct (JsMap.get type (globalHandlers g)) eqn:E.
    + eapply H; eauto.
    + constructor.
  - intros H type s E. specialize (H type). now rewrite E in H.
Qed.

(** Only [on] and [unsubscribe] touch the handlers. *)
Lemma step_keeps_handlers opts rt ev g :
  match ev with
  | CallOn _ _ | CallUnsubscribe _ _ => True
  | _ => globalHandlers (fst (step opts rt ev g)) = globalHandlers g
  end.
Proof. destruct ev; try exact I; run_action; reflexivity. Qed.

Lemma step_handlersWf opts rt ev g :
  handlersWf g -> handlersWf (fst (step opts rt ev g)).
Proof.
  rewrite !handlersWf_handlersFor. intros Hwf type'.
  pose proof (step_keeps_handlers opts rt ev g) as Hkeep.
  destruct ev as [| | | | | type handler | type handler | | | | | | |];
    try (unfold handlersFor; rewrite Hkeep; apply Hwf).
  - cbn [step]. destruct (on_spec type handler g) as (_ & -> & _).
    destruct (String.eqb type type'); [apply add_NoDup|]; apply Hwf.
  - cbn [step]. destruct (unsubscribe_spec type handler g) as (_ & ->).
    destruct (String.eqb type type'); [apply delete_NoDup|]; apply Hwf.
Qed.

Lemma run_handlersWf opts rt evs g :
  handlersWf g -> handlersWf (fst (run opts rt evs g)).
Proof.
  revert g. induction evs as [|ev r IH]; intros g Hwf; [assumption|].
  rewrite run_cons. cbn [fst]. apply IH. now apply step_handlersWf.
Qed.

Lemma initial_handlersWf : handlersWf initial.
Proof. intros type s H. discriminate. Qed.

(** C10.  In every state the channel can be in: [on(type, handler)] with
    a handler already registered for the type changes nothing, and a
    matching message then invokes the handler once; the function [on]
    returns removes that handler and no other, keeps the order of the
    rest, and changes nothing when it is called again or when the handler
    is not registered. *)
Theorem handler_registration_is_a_set opts rt evs type handler :
  let g := fst (run opts rt evs initial) in
  let once := fst (on type handler g) in
  let twice := fst (on type handler once) in
  let removed := fst (unsubscribe type handler once) in
  twice = once
  /\ (forall payload,
        count_occ Nat.eq_dec
          (invoked (snd (onmessage (Some (type, payload)) twice))) handler
        = 1%nat)
  /\ (forall type' handler',
        registered type' handler' removed
        = registered type' handler' once
          && negb (String.eqb type type' && sameHandler handler handler'))
  /\ (forall type',
        handlersFor type' removed
        = if String.eqb type type'
          then filter (fun h => negb (sameHandler handler h))
                 (handlersFor type once)
          else handlersFor type' once)
  /\ fst (unsubscribe type handler removed) = removed
  /\ (registered type handler g = false ->
      fst (unsubscribe type handler g) = g).
Proof.
  cbv zeta. set (g := fst (run opts rt evs initial)).
  assert (Hwf : handlersWf g).
  { apply run_handlersWf, initial_handlersWf. }
  destruct (on_spec type handler g) as (_ & Hfor & Hfst).
  set (once := fst (on type handler g)) in *.
  assert (Hreg : JsSet.has sameHandler handler (handlersFor type once) = true).
  { rewrite Hfor, String.eqb_refl. apply has_add. }
  assert (Hget : JsMap.get type (globalHandlers once)
                 = Some (handlersFor type once)).
  { unfold handlersFor. rewrite Hfst. simpl_globals.
    now rewrite JsMapFacts.get_set_same. }
  split; [|split; [|split; [|split; [|split]]]].
  - destruct (on_spec type handler once) as (_ & _ & ->).
    rewrite (add_present _ _ Hreg), (JsMapFacts.set_same _ _ _ Hget).
    apply setHandlers_same.
  - intros payload. cbn [onmessage]. rewrite emitEvent_spec. cbn [snd].
    rewrite invoked_invocations.
    assert (Hwf2 : handlersWf (fst (on type handler once))).
    { apply (step_handlersWf opts rt (CallOn type handler)).
      apply (step_handlersWf opts rt (CallOn type handler)). exact Hwf. }
    apply count_occ_NoDup.
    + now apply handlersWf_handlersFor.
    + destruct (on_spec type handler once) as (_ & -> & _).
      rewrite String.eqb_refl. apply add_In. now left.
  - intros type' handler'. unfold registered.
    destruct (unsubscribe_spec type handler once) as (_ & ->).
    destruct (String.eqb type type') eqn:Et; cbn [andb negb].
    + apply String.eqb_eq in Et. subst type'.
      destruct (sameHandler handler handler') eqn:Eh; cbn [negb];
        unfold sameHandler in Eh.
      * apply Nat.eqb_eq in Eh. subst handler'.
        now rewrite has_delete, andb_false_r.
      * apply Nat.eqb_neq in Eh.
        rewrite has_delete_other by congruence. now rewrite andb_true_r.
    + now rewrite andb_true_r.
  - intros type'. destruct (unsubscribe_spec type handler once) as (_ & ->).
    reflexivity.
  - apply unsubscribe_absent, registered_unsubscribe.
  - apply unsubscribe_absent.
Qed.

End ChannelProofs.

(** ** Normal forms of join codes *)

Module NormalFormFacts.

Import SessionManager Registry Lifecycle.

Lemma upperChar_idempotent c :
  JsString.upperChar (JsString.upperChar c) = JsString.upperChar c.
Proof. destruct c as [[] [] [] [] [] [] [] []]; reflexivity. Qed.

Lemma isSpace_upperChar c :
  JsString.isSpace (JsString.upperChar c) = JsString.isSpace c.
Proof. destruct c as [[] [] [] [] [] [] [] []]; reflexivity. Qed.

Lemma toUpperCase_idempotent s :
  JsString.toUpperCase (JsString.toUpperCase s) = JsString.toUpperCase s.
Proof.
  induction s as [|c r IH]; cbn; [reflexivity|].
  now rewrite upperChar_idempotent, IH.
Qed.

Lemma toUpperCase_append (s1 s2 : string) :
  JsString.toUpperCase (s1 ++ s2)
  = (JsString.toUpperCase s1 ++ JsString.toUpperCase s2)%string.
Proof. induction s1 as [|c r IH]; cbn; [reflexivity|now rewrite IH]. Qed.

Lemma blank_toUpperCase s : blank (JsString.toUpperCase s) = blank s.
Proof.
  unfold blank. induction s as [|c r IH]; cbn; [reflexivity|].
  now rewrite isSpace_upperChar, IH.
Qed.

Lemma toUpperCase_trimStart s :
  JsString.toUpperCase (JsString.trimStart s)
  = JsString.trimStart (JsString.toUpperCase s).
Proof.
  induction s as [|c r IH]; cbn; [reflexivity|].
  rewrite isSpace_upperChar. now destruct (JsString.isSpace c).
Qed.

Lemma toUpperCase_trimEnd s :
  JsString.toUpperCase (JsString.trimEnd s)
  = JsString.trimEnd (JsString.toUpperCase s).
Proof.
  induction s as [|c r IH]; cbn; [reflexivity|].
  rewrite <- IH, isSpace_upperChar.
  destruct (JsString.trimEnd r); cbn; [|reflexivity].
  now destruct (JsString.isSpace c).
Qed.

Lemma toUpperCase_trim s :
  JsString.toUpperCase (JsString.trim s)
  = JsString.trim (JsString.toUpperCase s).
Proof.
  unfold JsString.trim. now rewrite toUpperCase_trimEnd, toUpperCase_trimStart.
Qed.

Lemma trimStart_blank (ws s : string) :
  blank ws = true -> JsString.trimStart (ws ++ s) = JsString.trimStart s.
Proof.
  unfold blank. induction ws as [|c r IH]; cbn; [reflexivity|].
  intros H. apply andb_prop in H. destruct H as [-> Hr]. now apply IH.
Qed.

Lemma trimEnd_all_blank ws : blank ws = true -> JsString.trimEnd ws = "".
Proof.
  unfold blank. induction ws as [|c r IH]; cbn; [reflexivity|].
  intros H. apply andb_prop in H. destruct H as [-> Hr]. now rewrite IH.
Qed.

Lemma trimEnd_blank (s ws : string) :
  blank ws = true -> JsString.trimEnd (s ++ ws) = JsString.trimEnd s.
Proof.
  intros H. induction s as [|c r IH]; cbn.
  - now apply trimEnd_all_blank.
  - now rewrite IH.
Qed.

Lemma trimEnd_idempotent s :
  JsString.trimEnd (JsString.trimEnd s) = JsString.trimEnd s.
Proof.
  induction s as [|c r IH]; cbn; [reflexivity|].
  destruct (JsString.trimEnd r) as [|d r'] eqn:E.
  - destruct (JsString.isSpace c) eqn:Ec; cbn; [reflexivity|now rewrite Ec].
  - change (JsString.trimEnd (String c (String d r')))
      with (match JsString.trimEnd (String d r') with
            | EmptyString =>
                if JsString.isSpace c then EmptyString
                else String c EmptyString
            | r0 => String c r0
            end).
    now rewrite IH.
Qed.

Lemma trimStart_noLeadingSpace s : noLeadingSpace (JsString.trimStart s) = true.
Proof.
  induction s as [|c r IH]; cbn; [reflexivity|].
  destruct (JsString.isSpace c) eqn:E; [assumption|]. cbn. now rewrite E.
Qed.

Lemma trimStart_fixed s :
  noLeadingSpace s = true -> JsString.trimStart s = s.
Proof.
  destruct s as [|c r]; cbn; [reflexivity|].
  intros H. apply negb_true_iff in H. now rewrite H.
Qed.

Lemma trimEnd_noLeadingSpace s :
  noLeadingSpace s = true -> noLeadingSpace (JsString.trimEnd s) = true.
Proof.
  destruct s as [|c r]; cbn; [reflexivity|].
  intros H. destruct (JsString.trimEnd r); cbn; [|assumption].
  apply negb_true_iff in H. rewrite H. cbn. now rewrite H.
Qed.

Lemma trim_idempotent s : JsString.trim (JsString.trim s) = JsString.trim s.
Proof.
  unfold JsString.trim.
  rewrite (trimStart_fixed (JsString.trimEnd (JsString.trimStart s))).
  - apply trimEnd_idempotent.
  - apply trimEnd_noLeadingSpace, trimStart_noLeadingSpace.
Qed.

Lemma trim_blank (pre s post : string) :
  blank pre = true -> blank post = true ->
  JsString.trim (pre ++ s ++ post) = JsString.trim s.
Proof.
  intros Hpre Hpost. unfold JsString.trim.
  rewrite trimStart_blank by assumption.
  destruct (JsString.trimStart s) as [|c r] eqn:E.
  - (* [s] is blank: so is [s ++ post] *)
    assert (Hs : blank s = true).
    { clear -E. unfold blank. induction s as [|d r IH]; cbn in *; [reflexivity|].
      destruct (JsString.isSpace d); [now apply IH|discriminate]. }
    assert (Hall : blank (s ++ post) = true).
    { unfold blank in *. rewrite JoinCodeFacts.chars_append, forallb_app.
      now rewrite Hs, Hpost. }
    replace (JsString.trimStart (s ++ post)) with EmptyString; [reflexivity|].
    symmetry. clear -Hall. unfold blank in Hall.
    induction (s ++ post)%string as [|d r IH]; cbn in *; [reflexivity|].
    apply andb_prop in Hall. destruct Hall as [-> Hr]. now apply IH.
  - assert (Hsplit : exists ws, blank ws = true /\ s = (ws ++ String c r)%string).
    { clear -E. induction s as [|d t IH]; cbn in E; [discriminate|].
      destruct (JsString.isSpace d) eqn:Ed.
      - destruct (IH E) as [ws [Hws ->]]. exists (String d ws). split.
        + unfold blank in *. cbn. now rewrite Ed.
        + reflexivity.
      - exists EmptyString. split; [reflexivity|]. now injection E as -> ->. }
    destruct Hsplit as [ws [Hws ->]].
    rewrite JoinCodeFacts.append_assoc, trimStart_blank by assumption.
    assert (Hc : JsString.isSpace c = false).
    { pose proof (trimStart_noLeadingSpace (ws ++ String c r)) as H.
      rewrite E in H. cbn in H. now apply negb_true_iff in H. }
    change (String c r ++ post)%string with (String c (r ++ post)).
    cbn [JsString.trimStart]. rewrite Hc.
    change (String c (r ++ post)) with (String c r ++ post)%string.
    now apply trimEnd_blank.
Qed.

Lemma normalizedCode_idempotent code :
  normalizedCode (normalizedCode code) = normalizedCode code.
Proof.
  unfold normalizedCode.
  now rewrite toUpperCase_trim, toUpperCase_idempotent, trim_idempotent.
Qed.

Lemma normalizedCode_padded (pre code post : string) :
  blank pre = true -> blank post = true ->
  normalizedCode (pre ++ code ++ post) = normalizedCode code.
Proof.
  intros Hpre Hpost. unfold normalizedCode.
  rewrite !toUpperCase_append. apply trim_blank; now rewrite blank_toUpperCase.
Qed.

End NormalFormFacts.

(** ** More on the session registry *)

Module RegistryExtras.

Import SessionManager Registry Lifecycle.

(** *** Join codes *)

Lemma generateJoinCode_from alphabet depth rnd pos m :
  let draw k :=
    drawCode alphabet JOIN_CODE_LENGTH rnd (pos + k * JOIN_CODE_LENGTH) "" in
  match generateJoinCode alphabet depth rnd pos m with
  | Some code =>
      exists k,
        k < depth /\ code = draw k
        /\ JsMap.has (draw k) (joinCodes m) = false
        /\ forall j, j < k -> JsMap.has (draw j) (joinCodes m) = true
  | None => forall k, k < depth -> JsMap.has (draw k) (joinCodes m) = true
  end.
Proof.
  cbv zeta. revert pos. induction depth as [|d IH]; intros pos.
  - cbn. intros k Hk. lia.
  - rewrite JoinCodeFacts.generateJoinCode_S.
    destruct (JsMap.has (drawCode alphabet JOIN_CODE_LENGTH rnd pos "")
                (joinCodes m)) eqn:E.
    + specialize (IH (pos + JOIN_CODE_LENGTH)).
      assert (Hshift : forall k,
        pos + JOIN_CODE_LENGTH + k * JOIN_CODE_LENGTH
        = pos + S k * JOIN_CODE_LENGTH) by (intros; unfold JOIN_CODE_LENGTH; lia).
      destruct (generateJoinCode alphabet d rnd (pos + JOIN_CODE_LENGTH) m)
        as [code|].
      * destruct IH as [k (Hk & Hcode & Hfree & Hbefore)].
        rewrite Hshift in Hcode, Hfree.
        exists (S k).
        split; [lia|]. split; [assumption|]. split; [assumption|].
        intros [|j] Hj.
        -- now rewrite Nat.mul_0_l, Nat.add_0_r.
        -- rewrite <- Hshift. apply Hbefore. lia.
      * intros [|k] Hk.
        -- now rewrite Nat.mul_0_l, Nat.add_0_r.
        -- rewrite <- Hshift. apply IH. lia.
    + exists 0. rewrite Nat.mul_0_l, Nat.add_0_r.
      split; [lia|]. split; [reflexivity|]. split; [assumption|].
      intros j Hj. lia.
Qed.

(** X1.  [generateJoinCode] returns the first code it draws that is not
    in [joinCodes], each attempt taking [JOIN_CODE_LENGTH] draws; it does
    not return exactly when every attempt the stack allows draws a code
    that is taken. *)
Theorem generateJoinCode_first_free alphabet depth rnd m :
  let draw k :=
    drawCode alphabet JOIN_CODE_LENGTH rnd (k * JOIN_CODE_LENGTH) "" in
  match generateJoinCode alphabet depth rnd 0 m with
  | Some code =>
      exists k,
        k < depth /\ code = draw k
        /\ JsMap.has (draw k) (joinCodes m) = false
        /\ forall j, j < k -> JsMap.has (draw j) (joinCodes m) = true
  | None => forall k, k < depth -> JsMap.has (draw k) (joinCodes m) = true
  end.
Proof. exact (generateJoinCode_from alphabet depth rnd 0 m). Qed.

(** X2.  [getSessionByJoinCode] and [joinSession] take a join code in
    any case and with white space around it: each of them gives, for the
    padded code, for the upper-cased code and for the code in normal
    form, the result it gives for the code itself; more generally, for
    two codes with the same normal form each gives the same result. *)
Theorem lookup_ignores_case_and_padding
    newId now participantName asObserver m (pre code post : string) :
  blank pre = true ->
  blank post = true ->
  getSessionByJoinCode (pre ++ code ++ post) m = getSessionByJoinCode code m
  /\ getSessionByJoinCode (JsString.toUpperCase code) m
     = getSessionByJoinCode code m
  /\ getSessionByJoinCode (normalizedCode code) m
     = getSessionByJoinCode code m
  /\ joinSession newId now (pre ++ code ++ post) participantName asObserver m
     = joinSession newId now code participantName asObserver m
  /\ joinSession newId now (JsString.toUpperCase code) participantName
       asObserver m
     = joinSession newId now code participantName asObserver m
  /\ joinSession newId now (normalizedCode code) participantName asObserver m
     = joinSession newId now code participantName asObserver m
  /\ (forall other,
        normalizedCode other = normalizedCode code ->
        getSessionByJoinCode other m = getSessionByJoinCode code m
        /\ joinSession newId now other participantName asObserver m
           = joinSession newId now code participantName asObserver m).
Proof.
  intros Hpre Hpost.
  assert (Hsame : forall other,
    normalizedCode other = normalizedCode code ->
    getSessionByJoinCode other m = getSessionByJoinCode code m
    /\ joinSession newId now other participantName asObserver m
       = joinSession newId now code participantName asObserver m).
  { intros other Hnorm. unfold normalizedCode in Hnorm.
    assert (H1 : getSessionByJoinCode other m = getSessionByJoinCode code m).
    { unfold getSessionByJoinCode. cbv zeta. now rewrite Hnorm. }
    split; [exact H1|].
    unfold joinSession. rewrite H1. cbv zeta. now rewrite Hnorm. }
  assert (Hpad : normalizedCode (pre ++ code ++ post) = normalizedCode code)
    by now apply NormalFormFacts.normalizedCode_padded.
  assert (Hup : normalizedCode (JsString.toUpperCase code)
                = normalizedCode code).
  { unfold normalizedCode.
    now rewrite NormalFormFacts.toUpperCase_idempotent. }
  pose proof (NormalFormFacts.normalizedCode_idempotent code) as Hidem.
  split; [apply (Hsame _ Hpad)|]. split; [apply (Hsame _ Hup)|].
  split; [apply (Hsame _ Hidem)|]. split; [apply (Hsame _ Hpad)|].
  split; [apply (Hsame _ Hup)|]. split; [apply (Hsame _ Hidem)|].
  exact Hsame.
Qed.

Lemma lookup_ignores_case_and_padding_witness :
  getSessionByJoinCode "  dlt29g " Example.registry2
    = getSessionById "s-1" Example.registry2
  /\ getSessionByJoinCode (" " ++ "dlt29g" ++ "  ") Example.registry2
     = getSessionByJoinCode "dlt29g" Example.registry2
  /\ joinSession "p-3" 2500 (" " ++ "dlt29g" ++ "  ") "Carol" false
       Example.registry2
     = joinSession "p-3" 2500 "dlt29g" "Carol" false Example.registry2
  /\ joinSession "p-3" 2500 (JsString.toUpperCase "dlt29g") "Carol" false
       Example.registry2
     = joinSession "p-3" 2500 "dlt29g" "Carol" false Example.registry2.
Proof.
  destruct (lookup_ignores_case_and_padding "p-3" 2500 "Carol" false
              Example.registry2 " " "dlt29g" "  " eq_refl eq_refl)
    as (H1 & _ & _ & H4 & H5 & _).
  split; [vm_compute; reflexivity|]. split; [exact H1|].
  split; [exact H4|exact H5].
Defined.

(** *** [joinSession] and [leaveSession] *)

(** X3.  [joinSession] never touches the directory: the join codes, the
    cleanup interval and the set of session ids are as before, and every
    session but the one the code resolves to is as before.  With a code
    that resolves to no session it returns null and changes nothing. *)
Theorem joinSession_keeps_directory
    newId now joinCode participantName asObserver m :
  let r := joinSession newId now joinCode participantName asObserver m in
  joinCodes (snd r) = joinCodes m
  /\ cleanupIntervalId (snd r) = cleanupIntervalId m
  /\ cleanupConfig (snd r) = cleanupConfig m
  /\ (forall sessionId,
        getSessionById sessionId (snd r) = None
        <-> getSessionById sessionId m = None)
  /\ (forall sessionId,
        JsMap.get (normalizedCode joinCode) (joinCodes m) <> Some sessionId ->
        getSessionById sessionId (snd r) = getSessionById sessionId m)
  /\ (getSessionByJoinCode joinCode m = None -> r = (None, m)).
Proof.
  cbv zeta. unfold joinSession, normalizedCode.
  destruct (getSessionByJoinCode joinCode m) as [s|] eqn:E.
  2: { cbn. repeat split; try tauto. }
  destruct (Session.addParticipant now _ s) as [added s'].
  unfold getSessionByJoinCode in E. cbv zeta in E.
  destruct (JsMap.get (JsString.trim (JsString.toUpperCase joinCode))
              (joinCodes m)) as [sid|] eqn:Ecode; [|discriminate].
  destruct (negb (JsString.truthy sid)); [discriminate|].
  assert (Hm : forall b : bool,
    snd (if b
         then (Some (s', Participant.make newId participantName asObserver),
               withSessions (JsMap.set sid s' (sessions m)) m)
         else (None, withSessions (JsMap.set sid s' (sessions m)) m))
    = withSessions (JsMap.set sid s' (sessions m)) m) by (now intros []).
  rewrite Hm. cbn [joinCodes cleanupIntervalId cleanupConfig withSessions].
  split; [reflexivity|]. split; [reflexivity|]. split; [reflexivity|].
  unfold getSessionById. cbn [sessions withSessions].
  split; [|split].
  - intros sessionId. rewrite JsMapFacts.get_set.
    destruct (String.eqb sid sessionId) eqn:Es; [|tauto].
    apply String.eqb_eq in Es. subst. split; congruence.
  - intros sessionId Hne. rewrite JsMapFacts.get_set.
    destruct (String.eqb sid sessionId) eqn:Es; [|reflexivity].
    apply String.eqb_eq in Es. subst. congruence.
  - discriminate.
Qed.

(** X4.  What [leaveSession] leaves behind, session by session: for an
    unknown session id it returns false and changes nothing; otherwise it
    returns what [removeParticipant] returned, the session is gone exactly
    when a participant was removed, [deleteWhenEmpty] is on and the
    session has become empty, and every other session is as before. *)
Theorem leaveSession_exact now sessionId participantId m :
  match getSessionById sessionId m with
  | None => leaveSession now sessionId participantId m = (false, m)
  | Some s =>
      let removed :=
        fst (Session.removeParticipant now participantId s) in
      let s' := snd (Session.removeParticipant now participantId s) in
      let m' := snd (leaveSession now sessionId participantId m) in
      fst (leaveSession now sessionId participantId m) = removed
      /\ getSessionById sessionId m'
         = (if removed && deleteWhenEmpty (cleanupConfig m)
               && (List.length (Session.participants s') =? 0)%nat
            then None else Some s')
      /\ forall other,
           other <> sessionId ->
           getSessionById other m' = getSessionById other m
  end.
Proof.
  unfold getSessionById, leaveSession.
  destruct (JsMap.get sessionId (sessions m)) as [s|] eqn:E; [|reflexivity].
  destruct (Session.removeParticipant now participantId s) as [removed s'].
  cbn [fst snd cleanupConfig withSessions].
  set (m1 := withSessions (JsMap.set sessionId s' (sessions m)) m).
  assert (H1 : forall id,
    JsMap.get id (sessions m1)
    = if String.eqb sessionId id then Some s' else JsMap.get id (sessions m)).
  { intros id. subst m1. cbn. apply JsMapFacts.get_set. }
  split; [reflexivity|].
  destruct (removed && deleteWhenEmpty (cleanupConfig m)) eqn:Econd;
    cbn [andb].
  - unfold cleanupIfEmpty. rewrite (H1 sessionId), String.eqb_refl.
    destruct (List.length (Session.participants s') =? 0)%nat.
    + rewrite RegistryProofs.deleteSession_sessions. split.
      * apply JsMapFacts.get_delete_same.
      * intros other Hne. rewrite JsMapFacts.get_delete_other by assumption.
        rewrite H1. destruct (String.eqb sessionId other) eqn:Eo;
          [|reflexivity].
        apply String.eqb_eq in Eo. congruence.
    + split.
      * now rewrite H1, String.eqb_refl.
      * intros other Hne. rewrite H1.
        destruct (String.eqb sessionId other) eqn:Eo; [|reflexivity].
        apply String.eqb_eq in Eo. congruence.
  - split.
    + now rewrite H1, String.eqb_refl.
    + intros other Hne. rewrite H1.
      destruct (String.eqb sessionId other) eqn:Eo; [|reflexivity].
      apply String.eqb_eq in Eo. congruence.
Qed.

(** *** The cleanup interval *)






Lemma startCleanup_active m : exists i, cleanupIntervalId (startCleanup m) = Some i.
Proof.
  unfold startCleanup. destruct (cleanupIntervalId m) eqn:E.
  - rewrite E. eauto.
  - cbn. eauto.
Qed.

Lemma createSession_starts_cleanup alphabet env name hostName config m c m' :
  createSession alphabet env name hostName config m = Returns c m' ->
  exists i, cleanupIntervalId m' = Some i.
Proof.
  unfold createSession.
  destruct (generateJoinCode _ _ _ _ _) as [code|]; [|discriminate].
  intros [= <- <-]. apply startCleanup_active.
Qed.





(** *** The cleanup policy and the singleton *)

Lemma cleanupLoop_config now ids m :
  cleanupConfig (cleanupLoop now ids m) = cleanupConfig m.
Proof.
  revert m. induction ids as [|id0 r IH]; intros m; cbn; [reflexivity|].
  destruct (JsMap.get id0 (sessions m)) as [s|] eqn:E; [|apply IH].
  rewrite IH. apply (RegistryProofs.cleanupEntry_fields now id0 s m E).
Qed.

Lemma leaveSession_config now sessionId participantId m :
  cleanupConfig (snd (leaveSession now sessionId participantId m))
  = cleanupConfig m.
Proof.
  unfold leaveSession.
  destruct (JsMap.get sessionId (sessions m)) as [s|]; [|reflexivity].
  destruct (Session.removeParticipant now participantId s) as [removed s'].
  cbn [snd]. destruct (removed && _); [|reflexivity].
  unfold cleanupIfEmpty. cbn [sessions withSessions].
  rewrite JsMapFacts.get_set_same.
  destruct (_ =? 0)%nat; [|reflexivity].
  now rewrite RegistryProofs.deleteSession_config.
Qed.

Lemma joinSession_fields newId now joinCode participantName asObserver m :
  cleanupConfig
    (snd (joinSession newId now joinCode participantName asObserver m))
  = cleanupConfig m
  /\ cleanupIntervalId
       (snd (joinSession newId now joinCode participantName asObserver m))
     = cleanupIntervalId m.
Proof.
  unfold joinSession.
  destruct (getSessionByJoinCode joinCode m); [|now split].
  destruct (Session.addParticipant _ _ _) as [added s'].
  now destruct added.
Qed.

(** No operation changes the cleanup policy. *)
Lemma step_config alphabet op m m' :
  applyOp alphabet op m = Some m' -> cleanupConfig m' = cleanupConfig m.
Proof.
  intros Happ.
  destruct op as [env name hostName config
                 |newId now1 code participantName asObserver
                 |now1 sessionId participantId
                 |sessionId
                 |now1
                 |
                 |
                 |sessionId method];
    cbn in Happ.
  - destruct (createSession _ _ _ _ _ _) as [c m1|m1] eqn:E; [|discriminate].
    injection Happ as <-.
    apply (RegistryProofs.createSession_inv _ _ _ _ _ _ _ _ E).
  - injection Happ as <-. apply joinSession_fields.
  - injection Happ as <-. apply leaveSession_config.
  - injection Happ as <-. apply RegistryProofs.deleteSession_config.
  - injection Happ as <-. apply cleanupLoop_config.
  - injection Happ as <-. apply RegistryProofs.startCleanup_fields.
  - injection Happ as <-. apply RegistryProofs.stopCleanup_fields.
  - destruct (JsMap.get sessionId (sessions m)); now injection Happ as <-.
Qed.

Lemma period_delete sessionId m :
  timerHasPeriod m -> timerHasPeriod (snd (deleteSession sessionId m)).
Proof.
  intros Hm.
  destruct (JsMap.get sessionId (sessions m)) as [s|] eqn:E;
    [|now rewrite RegistryProofs.deleteSession_absent].
  destruct (RegistryProofs.deleteSession_present _ _ _ E)
    as (_ & _ & _ & Hc & Hi).
  unfold timerHasPeriod. rewrite Hc, Hi.
  destruct (_ =? 0)%nat; [discriminate|exact Hm].
Qed.

Lemma period_cleanupLoop now ids m :
  timerHasPeriod m -> timerHasPeriod (cleanupLoop now ids m).
Proof.
  revert m. induction ids as [|id0 r IH]; intros m Hm; cbn; [assumption|].
  destruct (JsMap.get id0 (sessions m)); apply IH; [|assumption].
  unfold cleanupEntry.
  destruct (_ && _); [now apply period_delete|].
  destruct (_ >? _)%Z; [now apply period_delete|assumption].
Qed.

Lemma period_startCleanup m :
  timerHasPeriod m -> timerHasPeriod (startCleanup m).
Proof.
  unfold timerHasPeriod, startCleanup. intros Hm.
  destruct (cleanupIntervalId m) eqn:E.
  - now rewrite E.
  - cbn. intros period [= <-]. reflexivity.
Qed.

Lemma period_step alphabet op m m' :
  applyOp alphabet op m = Some m' -> timerHasPeriod m -> timerHasPeriod m'.
Proof.
  intros Happ Hm.
  destruct op as [env name hostName config
                 |newId now1 code participantName asObserver
                 |now1 sessionId participantId
                 |sessionId
                 |now1
                 |
                 |
                 |sessionId method];
    cbn in Happ.
  - unfold createSession in Happ.
    destruct (generateJoinCode _ _ _ _ _) as [code|]; [|discriminate].
    cbn in Happ. injection Happ as <-. apply period_startCleanup. exact Hm.
  - injection Happ as <-. unfold timerHasPeriod.
    destruct (joinSession_fields newId now1 code participantName asObserver m)
      as [-> ->].
    exact Hm.
  - injection Happ as <-. unfold leaveSession.
    destruct (JsMap.get sessionId (sessions m)) as [s|]; [|assumption].
    destruct (Session.removeParticipant now1 participantId s)
      as [removed s'].
    cbn [snd]. destruct (removed && _); [|exact Hm].
    unfold cleanupIfEmpty. cbn [sessions withSessions].
    rewrite JsMapFacts.get_set_same.
    destruct (_ =? 0)%nat; [|exact Hm].
    apply period_delete. exact Hm.
  - injection Happ as <-. now apply period_delete.
  - injection Happ as <-. now apply period_cleanupLoop.
  - injection Happ as <-. now apply period_startCleanup.
  - injection Happ as <-. unfold timerHasPeriod, stopCleanup.
    destruct (cleanupIntervalId m) eqn:E; [discriminate|].
    now rewrite E.
  - destruct (JsMap.get sessionId (sessions m));
      injection Happ as <-; exact Hm.
Qed.

Lemma applyOps_policy alphabet ops m m' :
  applyOps alphabet ops m = Some m' ->
  cleanupConfig m' = cleanupConfig m
  /\ (timerHasPeriod m -> timerHasPeriod m').
Proof.
  revert m. induction ops as [|op r IH]; intros m; cbn.
  - intros [= <-]. tauto.
  - destruct (applyOp alphabet op m) as [m1|] eqn:E; [|discriminate].
    intros Hr. destruct (IH _ Hr) as [Hc Hp].
    rewrite Hc, (step_config _ _ _ _ E). split; [reflexivity|].
    intros Hm. apply Hp. eapply period_step; eauto.
Qed.

(** X6.  The cleanup policy a manager is constructed with holds for its
    whole life: whatever operations follow, [cleanupConfig] is the given
    partial configuration over the defaults, and the cleanup interval,
    whenever it is set, has the period [checkInterval]. *)
Theorem cleanup_policy_is_fixed alphabet config ops m :
  applyOps alphabet ops (create config) = Some m ->
  cleanupConfig m = mergeCleanupConfig config
  /\ forall period,
       cleanupIntervalId m = Some (Interval period) ->
       period = checkInterval (mergeCleanupConfig config).
Proof.
  intros Hops. destruct (applyOps_policy _ _ _ _ Hops) as [Hc Hp].
  split; [exact Hc|]. intros period Hi.
  assert (H0 : timerHasPeriod (create config)) by (intros p H; discriminate).
  rewrite (Hp H0 period Hi), Hc. reflexivity.
Qed.

Lemma cleanup_policy_is_fixed_witness :
  exists m,
    applyOps Example.alphabet exampleOps (create examplePolicy) = Some m
    /\ getSessionCount m = 2
    /\ cleanupConfig m = mergeCleanupConfig examplePolicy
    /\ forall period,
         cleanupIntervalId m = Some (Interval period) ->
         period = checkInterval (mergeCleanupConfig examplePolicy).
Proof.
  eexists. split; [vm_compute; reflexivity|].
  split; [vm_compute; reflexivity|].
  apply (cleanup_policy_is_fixed Example.alphabet examplePolicy exampleOps).
  vm_compute. reflexivity.
Defined.

(** X7.  [getInstance] builds the manager once: after a first call, and
    whatever is done to the instance, a later call returns that instance
    and ignores its own configuration; [resetInstance] stops the
    instance's interval and clears the static field, and the next
    [getInstance] builds an empty registry from the configuration it is
    given. *)
Theorem singleton_instance alphabet config1 config2 ops instance :
  onInstance alphabet ops (snd (getInstance config1 None)) = Some instance ->
  exists m,
    instance = Some m
    /\ getInstance config2 instance = (m, instance)
    /\ cleanupConfig m = mergeCleanupConfig config1
    /\ (exists stopped,
          resetInstance instance = (Some stopped, None)
          /\ cleanupIntervalId stopped = None
          /\ sessions stopped = sessions m
          /\ joinCodes stopped = joinCodes m)
    /\ getInstance config2 (snd (resetInstance instance))
       = (create config2, Some (create config2)).
Proof.
  cbn [getInstance snd onInstance].
  destruct (applyOps alphabet ops (create config1)) as [m|] eqn:E;
    [|discriminate].
  intros [= <-]. exists m. cbn.
  destruct (applyOps_policy _ _ _ _ E) as [Hc _].
  destruct (RegistryProofs.stopCleanup_fields m) as (Hs & Hj & _ & Hi).
  repeat split; try assumption.
  exists (stopCleanup m). repeat split; assumption.
Qed.

Lemma singleton_instance_witness :
  exists instance,
    onInstance Example.alphabet exampleOps
      (snd (getInstance examplePolicy None)) = Some instance
    /\ exists m,
         instance = Some m
         /\ getInstance None instance = (m, instance)
         /\ cleanupConfig m = mergeCleanupConfig examplePolicy
         /\ (exists stopped,
               resetInstance instance = (Some stopped, None)
               /\ cleanupIntervalId stopped = None
               /\ sessions stopped = sessions m
               /\ joinCodes stopped = joinCodes m)
         /\ getInstance None (snd (resetInstance instance))
            = (create None, Some (create None)).
Proof.
  eexists. split; [vm_compute; reflexivity|].
  apply (singleton_instance Example.alphabet examplePolicy None exampleOps).
  vm_compute. reflexivity.
Defined.

(** *** Counting sessions *)

Lemma size_set {V} k (v : V) (ss : JsMap.t V) :
  JsMap.size (JsMap.set k v ss)
  = if JsMap.has k ss then JsMap.size ss else S (JsMap.size ss).
Proof.
  unfold JsMap.has, JsMap.size.
  induction ss as [|[k0 v0] r IH]; cbn; [reflexivity|].
  destruct (String.eqb k0 k); cbn; [reflexivity|].
  rewrite IH. now destruct (JsMap.get k r).
Qed.

Lemma size_delete {V} k (ss : JsMap.t V) :
  JsMap.wf ss ->
  JsMap.size (JsMap.delete k ss)
  = if JsMap.has k ss then JsMap.size ss - 1 else JsMap.size ss.
Proof.
  intros Hwf. destruct (JsMap.has k ss) eqn:E.
  - unfold JsMap.has in E.
    destruct (JsMap.get k ss) as [v|] eqn:Eg; [clear E|discriminate].
    unfold JsMap.wf, JsMap.size, JsMap.delete in *.
    induction ss as [|[k0 v0] r IH]; cbn in *; [discriminate|].
    inversion Hwf as [|? ? Hnotin Hr]; subst.
    destruct (String.eqb k0 k) eqn:Ek; cbn.
    + apply String.eqb_eq in Ek. subst k0.
      apply JsMapFacts.get_None_keys in Hnotin.
      pose proof (JsMapFacts.delete_absent _ _ Hnotin) as Hd.
      unfold JsMap.delete in Hd. rewrite Hd. lia.
    + rewrite (IH Hr Eg).
      destruct r; cbn in *; [discriminate|lia].
  - apply JsMapFacts.has_false in E.
    now rewrite JsMapFacts.delete_absent.
Qed.

(** X8.  [getSessionCount] counts the sessions [getAllSessions] lists,
    and these are the sessions [getSessionById] finds.  [deleteSession]
    lowers the count by one when the session is there and leaves it
    otherwise; a returning [createSession] raises it by one unless the
    generated id is already in use. *)
Theorem session_count_changes alphabet env name hostName config sessionId m :
  JsMap.wf (sessions m) ->
  getSessionCount m = List.length (getAllSessions m)
  /\ (forall s,
        In s (getAllSessions m)
        <-> exists id, getSessionById id m = Some s)
  /\ getSessionCount (snd (deleteSession sessionId m))
     = (if JsMap.has sessionId (sessions m)
        then getSessionCount m - 1 else getSessionCount m)
  /\ (forall c m',
        createSession alphabet env name hostName config m = Returns c m' ->
        getSessionCount m'
        = if JsMap.has (newSessionId env) (sessions m)
          then getSessionCount m else S (getSessionCount m)).
Proof.
  intros Hwf. unfold getSessionCount, getAllSessions, getSessionById.
  split; [|split; [|split]].
  - unfold JsMap.size. now rewrite length_map.
  - intros s. rewrite in_map_iff. split.
    + intros [[id s0] [Heq Hin]]. cbn in Heq. subst s0.
      exists id. now apply JsMapFacts.In_get.
    + intros [id Hget]. exists (id, s). split; [reflexivity|].
      now apply JsMapFacts.get_Some_In.
  - rewrite RegistryProofs.deleteSession_sessions. now apply size_delete.
  - intros c m' Hcreate.
    destruct (RegistryProofs.createSession_inv _ _ _ _ _ _ _ _ Hcreate)
      as (_ & -> & _).
    apply size_set.
Qed.

Lemma session_count_changes_witness :
  let m := Example.registry1 in
  getSessionCount m = List.length (getAllSessions m)
  /\ (forall s,
        In s (getAllSessions m)
        <-> exists id, getSessionById id m = Some s)
  /\ getSessionCount (snd (deleteSession "s-1" m))
     = (if JsMap.has "s-1" (sessions m)
        then getSessionCount m - 1 else getSessionCount m)
  /\ (forall c m',
        createSession Example.alphabet Example.env2 "Sprint 2" "Bob" None m
          = Returns c m' ->
        getSessionCount m'
        = if JsMap.has (newSessionId Example.env2) (sessions m)
          then getSessionCount m else S (getSessionCount m)).
Proof.
  apply (session_count_changes Example.alphabet Example.env2 "Sprint 2" "Bob"
           None "s-1" Example.registry1).
  vm_compute. repeat constructor; cbn; tauto.
Defined.

(** *** The sweep *)

Lemma cleanupEntry_keeps now sessionId s m :
  reclaimed (cleanupConfig m) now s = false ->
  cleanupEntry now sessionId s m = m.
Proof.
  unfold reclaimed, cleanupEntry. intros H.
  apply orb_false_iff in H. destruct H as [-> ->]. reflexivity.
Qed.

Lemma cleanupLoop_keeps now ids m :
  (forall id s,
     In id ids -> JsMap.get id (sessions m) = Some s ->
     reclaimed (cleanupConfig m) now s = false) ->
  cleanupLoop now ids m = m.
Proof.
  induction ids as [|id0 r IH]; intros H; cbn; [reflexivity|].
  destruct (JsMap.get id0 (sessions m)) as [s|] eqn:E.
  - rewrite cleanupEntry_keeps by (eapply H; [now left|eassumption]).
    apply IH. intros id s' Hin. apply H. now right.
  - apply IH. intros id s' Hin. apply H. now right.
Qed.

Lemma performCleanup_get now m sessionId :
  JsMap.get sessionId (sessions (performCleanup now m))
  = match JsMap.get sessionId (sessions m) with
    | Some s => if reclaimed (cleanupConfig m) now s then None else Some s
    | None => None
    end.
Proof.
  unfold performCleanup. rewrite RegistryProofs.cleanupLoop_get.
  destruct (JsMap.get sessionId (sessions m)) as [s|] eqn:E; [|reflexivity].
  assert (Hin : existsb (String.eqb sessionId) (JsMap.keys (sessions m)) = true).
  { apply existsb_exists. exists sessionId. split.
    - eapply JsMapFacts.get_Some_keys; eauto.
    - apply String.eqb_refl. }
  now rewrite Hin.
Qed.

(** X9.  A sweep leaves nothing for a second sweep at the same time: run
    twice at one [now], [performCleanup] gives the registry it gives when
    run once. *)
Theorem performCleanup_idempotent now m :
  performCleanup now (performCleanup now m) = performCleanup now m.
Proof.
  unfold performCleanup at 1. apply cleanupLoop_keeps.
  intros id s _ Hget. rewrite performCleanup_get in Hget.
  unfold performCleanup. rewrite cleanupLoop_config.
  destruct (JsMap.get id (sessions m)) as [s0|]; [|discriminate].
  destruct (reclaimed (cleanupConfig m) now s0) eqn:R; [discriminate|].
  now injection Hget as <-.
Qed.

(** Deleting a session leaves the codes of the others. *)
Lemma deleteSession_keeps_code failed sessionId m code sid :
  consistentBut failed m ->
  JsMap.get code (joinCodes m) = Some sid ->
  sid <> sessionId ->
  JsMap.get code (joinCodes (snd (deleteSession sessionId m))) = Some sid.
Proof.
  intros Hm Hcode Hne.
  destruct (JsMap.get sessionId (sessions m)) as [s|] eqn:E;
    [|now rewrite RegistryProofs.deleteSession_absent].
  destruct (RegistryProofs.deleteSession_present _ _ _ E) as (_ & _ & -> & _).
  destruct (getJoinCode sessionId m) as [c|] eqn:Ec; [|exact Hcode].
  apply (RegistryProofs.getJoinCode_get _ _ _ (consistent_codes _ _ Hm)) in Ec.
  rewrite JsMapFacts.get_delete_other; [exact Hcode|]. congruence.
Qed.

(** A sweep leaves the codes of the sessions that survive it. *)
Lemma cleanupLoop_keeps_code failed now ids : forall m code sid,
  consistentBut failed m ->
  JsMap.get code (joinCodes m) = Some sid ->
  JsMap.get sid (sessions (cleanupLoop now ids m)) <> None ->
  JsMap.get code (joinCodes (cleanupLoop now ids m)) = Some sid.
Proof.
  induction ids as [|id0 r IH]; intros m code sid Hm Hcode Hlives;
    cbn [cleanupLoop] in *; [exact Hcode|].
  destruct (JsMap.get id0 (sessions m)) as [s0|] eqn:E0; [|now apply IH].
  pose proof (RegistryProofs.consistent_cleanupEntry failed now id0 s0 m Hm)
    as Hm1.
  apply IH; [exact Hm1| |exact Hlives].
  assert (Hdel : sid <> id0 ->
            JsMap.get code (joinCodes (snd (deleteSession id0 m))) = Some sid)
    by (intros Hne; now apply (deleteSession_keeps_code failed)).
  assert (Hgone : sid = id0 ->
            JsMap.get sid (sessions (snd (deleteSession id0 m))) = None).
  { intros ->. rewrite RegistryProofs.deleteSession_sessions.
    apply JsMapFacts.get_delete_same. }
  assert (Hdead : forall m1,
            JsMap.get sid (sessions m1) = None ->
            JsMap.get sid (sessions (cleanupLoop now r m1)) = None).
  { intros m1 H1. rewrite RegistryProofs.cleanupLoop_get. now rewrite H1. }
  unfold cleanupEntry in *.
  destruct (deleteWhenEmpty (cleanupConfig m)
            && (List.length (Session.participants s0) =? 0)%nat).
  - destruct (String.eqb_spec sid id0) as [Heq|Hne]; [|now apply Hdel].
    elim Hlives. now apply Hdead, Hgone.
  - destruct (now - Session.updatedAt s0 >? maxInactivity (cleanupConfig m))%Z;
      [|exact Hcode].
    destruct (String.eqb_spec sid id0) as [Heq|Hne]; [|now apply Hdel].
    elim Hlives. now apply Hdead, Hgone.
Qed.

(** X10.  A sweep releases the join codes of the sessions it deletes and
    no other: after it, a code maps to the session id it mapped to before
    when that session survives, and to nothing when it was reclaimed. *)
Theorem performCleanup_releases_codes alphabet now m code :
  reachable alphabet m ->
  JsMap.get code (joinCodes (performCleanup now m))
  = match JsMap.get code (joinCodes m) with
    | Some sessionId =>
        match getSessionById sessionId m with
        | Some s =>
            if reclaimed (cleanupConfig m) now s then None else Some sessionId
        | None => None
        end
    | None => None
    end.
Proof.
  intros Hreach.
  destruct (RegistryProofs.reachable_consistent _ _ Hreach) as [failed Hm].
  assert (Hm' : consistentBut failed (performCleanup now m))
    by now apply RegistryProofs.consistent_cleanupLoop.
  assert (Hsub : forall c sid,
    JsMap.get c (joinCodes (performCleanup now m)) = Some sid ->
    JsMap.get c (joinCodes m) = Some sid)
    by (intros c sid; apply RegistryProofs.cleanupLoop_codes).
  unfold getSessionById.
  destruct (JsMap.get code (joinCodes m)) as [sid|] eqn:Ecode.
  - destruct (consistent_live _ m Hm _ _ Ecode) as [s Hs]. rewrite Hs.
    pose proof (performCleanup_get now m sid) as Hafter. rewrite Hs in Hafter.
    destruct (reclaimed (cleanupConfig m) now s).
    + destruct (JsMap.get code (joinCodes (performCleanup now m)))
        as [sid'|] eqn:E'; [|reflexivity].
      pose proof (Hsub _ _ E') as Hbefore.
      assert (sid' = sid) by congruence. subst sid'.
      destruct (consistent_live _ _ Hm' _ _ E') as [s' Hs']. congruence.
    + apply (cleanupLoop_keeps_code failed); [assumption..|].
      fold (performCleanup now m). now rewrite Hafter.
  - destruct (JsMap.get code (joinCodes (performCleanup now m)))
      as [sid'|] eqn:E'; [|reflexivity].
    apply Hsub in E'. congruence.
Qed.

Lemma performCleanup_releases_codes_witness :
  JsMap.get "DLT29G" (joinCodes (performCleanup 1802000 Example.registry2))
  = match JsMap.get "DLT29G" (joinCodes Example.registry2) with
    | Some sessionId =>
        match getSessionById sessionId Example.registry2 with
        | Some s =>
            if reclaimed (cleanupConfig Example.registry2) 1802000 s
            then None else Some sessionId
        | None => None
        end
    | None => None
    end.
Proof.
  apply (performCleanup_releases_codes Example.alphabet 1802000
           Example.registry2 "DLT29G").
  exact RegistryProofs.example_reachable.
Defined.

(** *** Codes and sessions, there and back *)

Lemma reachable_codes_in_alphabet alphabet m code sessionId :
  reachable alphabet m ->
  JsMap.get code (joinCodes m) = Some sessionId ->
  forall c, In c (JsString.chars code) -> In c (JsString.chars alphabet).
Proof.
  intros Hreach. revert code sessionId.
  induction Hreach as [config|m op m' _ IH Hadm Happ
                      |m env name hostName config m' _ IH Hadm Hthrow];
    intros code sid Hget.
  - discriminate.
  - destruct (RegistryProofs.step_codes _ _ _ _ _ _ Happ Hget)
      as [H|[rnd [pos ->]]].
    + eapply IH; eauto.
    + intros c Hin. apply JoinCodeFacts.drawCode_chars in Hin.
      destruct Hin as [[]|Hin]. exact Hin.
  - destruct (RegistryProofs.createSession_throws _ _ _ _ _ _ _ Hthrow)
      as (_ & Hj & _).
    rewrite Hj in Hget. eapply IH; eauto.
Qed.

(** X11.  In every registry the manager can be in, with an upper-case
    alphabet: the code [getJoinCode] gives for an id (the id not being
    empty) resolves, by [getSessionByJoinCode], to the session stored
    under that id; every session has such a code, but for the sessions
    stored by a [createSession] call that threw; and a code that resolves
    to a session is, in normal form, the code [getJoinCode] gives for the
    id under which [getSessionById] finds that session. *)
Theorem code_round_trip alphabet failed m :
  upperCaseAlphabet alphabet = true ->
  history alphabet failed m ->
  (forall sessionId code,
     getJoinCode sessionId m = Some code ->
     JsString.truthy sessionId = true ->
     exists s,
       getSessionById sessionId m = Some s
       /\ getSessionByJoinCode code m = Some s)
  /\ (forall sessionId s,
        getSessionById sessionId m = Some s ->
        ~ In sessionId failed ->
        exists code, getJoinCode sessionId m = Some code)
  /\ (forall code s,
        getSessionByJoinCode code m = Some s ->
        exists sessionId,
          getJoinCode sessionId m = Some (normalizedCode code)
          /\ getSessionById sessionId m = Some s).
Proof.
  intros Hup Hhist.
  assert (Hreach : reachable alphabet m)
    by (apply RegistryProofs.reachable_history; eauto).
  pose proof (RegistryProofs.history_consistent _ _ _ Hhist) as Hm.
  destruct (RegistryProofs.consistent_bijectiveBut _ _ Hm)
    as (Hlive & Hagree & Hone & _).
  split; [|split].
  - intros sid code Hcode Hid.
    assert (Hget : JsMap.get code (joinCodes m) = Some sid)
      by (now apply Hagree).
    destruct (Hlive _ _ Hget) as [s Hs]. exists s. split; [exact Hs|].
    unfold getSessionByJoinCode. cbv zeta.
    rewrite (JoinCodeFacts.normalize_code alphabet code Hup
               (reachable_codes_in_alphabet _ _ _ _ Hreach Hget)).
    rewrite Hget, Hid. exact Hs.
  - intros sid s Hs Hnot. destruct (Hone _ _ Hs Hnot) as [code [Hcode _]].
    eauto.
  - intros code s Hres. unfold getSessionByJoinCode in Hres.
    cbv zeta in Hres. fold (normalizedCode code) in Hres.
    destruct (JsMap.get (normalizedCode code) (joinCodes m)) as [sid|] eqn:E;
      [|discriminate].
    destruct (negb (JsString.truthy sid)); [discriminate|].
    exists sid. split; [|exact Hres]. now apply Hagree.
Qed.

Lemma code_round_trip_witness :
  (forall sessionId code,
     getJoinCode sessionId Example.registry3 = Some code ->
     JsString.truthy sessionId = true ->
     exists s,
       getSessionById sessionId Example.registry3 = Some s
       /\ getSessionByJoinCode code Example.registry3 = Some s)
  /\ (forall sessionId s,
        getSessionById sessionId Example.registry3 = Some s ->
        ~ In sessionId ["s-3"] ->
        exists code, getJoinCode sessionId Example.registry3 = Some code)
  /\ (forall code s,
        getSessionByJoinCode code Example.registry3 = Some s ->
        exists sessionId,
          getJoinCode sessionId Example.registry3
            = Some (normalizedCode code)
          /\ getSessionById sessionId Example.registry3 = Some s).
Proof.
  apply (code_round_trip Example.alphabet ["s-3"] Example.registry3).
  - vm_compute. reflexivity.
  - exact RegistryProofs.example_history.
Defined.

(** *** [createSession] and the sessions that are there *)

Lemma set_fresh {V} k (v : V) (ss : JsMap.t V) :
  JsMap.get k ss = None -> JsMap.set k v ss = (ss ++ [(k, v)])%list.
Proof.
  induction ss as [|[k0 v0] r IH]; cbn; [reflexivity|].
  destruct (String.eqb k0 k); [discriminate|].
  intros H. now rewrite IH.
Qed.

Lemma findJoinCode_app sessionId (l1 l2 : list (string * string)) :
  findJoinCode sessionId (l1 ++ l2)
  = match findJoinCode sessionId l1 with
    | Some code => Some code
    | None => findJoinCode sessionId l2
    end.
Proof.
  induction l1 as [|[code id] r IH]; cbn; [reflexivity|].
  now destruct (String.eqb id sessionId).
Qed.

(** X12.  A [createSession] that returns, in a registry the manager can
    be in and with an id no session has, adds and changes nothing else:
    every other id finds the session, and has the code, it had before;
    every code but the new one resolves as before; the new session has
    the new code; and the cleanup interval is set. *)
Theorem createSession_frame alphabet env name hostName config m c m' :
  reachable alphabet m ->
  JsMap.get (newSessionId env) (sessions m) = None ->
  createSession alphabet env name hostName config m = Returns c m' ->
  (forall sessionId,
     sessionId <> newSessionId env ->
     getSessionById sessionId m' = getSessionById sessionId m
     /\ getJoinCode sessionId m' = getJoinCode sessionId m)
  /\ (forall code,
        normalizedCode code <> joinCode c ->
        getSessionByJoinCode code m' = getSessionByJoinCode code m)
  /\ getJoinCode (newSessionId env) m' = Some (joinCode c)
  /\ (exists i, cleanupIntervalId m' = Some i).
Proof.
  intros Hreach Hfresh Hcreate.
  destruct (RegistryProofs.reachable_consistent _ _ Hreach) as [failed Hm].
  destruct (RegistryProofs.consistent_bijectiveBut _ _ Hm)
    as (_ & _ & _ & Hnone).
  destruct (RegistryProofs.createSession_inv _ _ _ _ _ _ _ _ Hcreate)
    as (_ & Hs & Hj & Hfree & _ & _).
  assert (Hcodes : forall sid,
    getJoinCode sid m'
    = match getJoinCode sid m with
      | Some code => Some code
      | None => if String.eqb (newSessionId env) sid
                then Some (joinCode c) else None
      end).
  { intros sid. unfold getJoinCode, JsMap.entries.
    rewrite Hj, (set_fresh _ _ _ Hfree), findJoinCode_app. cbn.
    now destruct (String.eqb (newSessionId env) sid). }
  split; [|split; [|split]].
  - intros sid Hne. split.
    + unfold getSessionById. rewrite Hs.
      apply JsMapFacts.get_set_other. assumption.
    + rewrite Hcodes. destruct (getJoinCode sid m); [reflexivity|].
      destruct (String.eqb (newSessionId env) sid) eqn:E; [|reflexivity].
      apply String.eqb_eq in E. congruence.
  - intros code Hne. unfold getSessionByJoinCode. cbv zeta.
    fold (normalizedCode code). rewrite Hj.
    rewrite JsMapFacts.get_set_other by assumption.
    destruct (JsMap.get (normalizedCode code) (joinCodes m)) as [sid|] eqn:E;
      [|reflexivity].
    destruct (negb (JsString.truthy sid)); [reflexivity|].
    rewrite Hs. apply JsMapFacts.get_set_other.
    intros ->. destruct (consistent_live _ m Hm _ _ E) as [s Hs']. congruence.
  - rewrite Hcodes, (Hnone _ Hfresh). now rewrite String.eqb_refl.
  - eapply createSession_starts_cleanup; eauto.
Qed.

Lemma createSession_frame_witness :
  exists c m',
    createSession Example.alphabet Example.env2 "Sprint 2" "Bob" None
      Example.registry1 = Returns c m'
    /\ (forall sessionId,
          sessionId <> newSessionId Example.env2 ->
          getSessionById sessionId m' = getSessionById sessionId Example.registry1
          /\ getJoinCode sessionId m' = getJoinCode sessionId Example.registry1)
    /\ (forall code,
          normalizedCode code <> joinCode c ->
          getSessionByJoinCode code m'
          = getSessionByJoinCode code Example.registry1)
    /\ getJoinCode (newSessionId Example.env2) m' = Some (joinCode c)
    /\ (exists i, cleanupIntervalId m' = Some i).
Proof.
  eexists. eexists. split; [vm_compute; reflexivity|].
  apply (createSession_frame Example.alphabet Example.env2 "Sprint 2" "Bob"
           None Example.registry1).
  - apply (reachable_step _ Example.registry0
             (OpCreate Example.env1 "Sprint 1" "Alice" None)).
    + apply reachable_new.
    + vm_compute. reflexivity.
    + vm_compute. reflexivity.
  - vm_compute. reflexivity.
  - vm_compute. reflexivity.
Defined.

End RegistryExtras.

(** ** The vote distribution *)

Module StatisticsProofs.

Import VotingResult VotingStatistics Consensus.

Lemma votesIn_cons value p l :
  votesIn value (p :: l)
  = if sameValue (Participant.selectedValue p) (Some value)
    then S (votesIn value l) else votesIn value l.
Proof.
  unfold votesIn. cbn [filter].
  now destruct (sameValue (Participant.selectedValue p) (Some value)).
Qed.

(** After the [forEach], a value is in the map with the number of its
    votes added to what the map held. *)
Lemma fold_countVote_get value l d :
  JsMap.get value (fold_left countVote l d)
  = if (votesIn value l =? 0)%nat then JsMap.get value d
    else Some (orZero (JsMap.get value d) + votesIn value l).
Proof.
  revert d. induction l as [|p r IH]; intros d; [reflexivity|].
  cbn [fold_left]. rewrite IH, votesIn_cons. unfold countVote.
  destruct (Participant.selectedValue p) as [w|]; cbn [sameValue];
    [|reflexivity].
  rewrite JsMapFacts.get_set. destruct (String.eqb w value) eqn:E.
  - apply String.eqb_eq in E. subst w. cbn [orZero Nat.eqb].
    destruct (votesIn value r); cbn [Nat.eqb]; f_equal; lia.
  - reflexivity.
Qed.

Lemma fold_countVote_wf l d :
  JsMap.wf d -> JsMap.wf (fold_left countVote l d).
Proof.
  revert d. induction l as [|p r IH]; intros d Hd; [assumption|].
  cbn [fold_left]. apply IH. unfold countVote.
  destruct (Participant.selectedValue p); [|assumption].
  now apply JsMapFacts.wf_set.
Qed.

Lemma total_set value (d : JsMap.t nat) :
  list_sum (map snd (JsMap.set value (orZero (JsMap.get value d) + 1) d))
  = list_sum (map snd d) + 1.
Proof.
  induction d as [|[k n] r IH]; [reflexivity|].
  cbn [JsMap.get JsMap.set]. destruct (String.eqb k value).
  - cbn. lia.
  - cbn [map snd]. unfold list_sum in *. cbn [fold_right]. rewrite IH. lia.
Qed.

Lemma fold_countVote_total l d :
  list_sum (map snd (fold_left countVote l d))
  = list_sum (map snd d) + List.length (filter hasVoted l).
Proof.
  revert d. induction l as [|p r IH]; intros d; cbn [fold_left filter].
  - cbn. lia.
  - rewrite IH. unfold countVote, hasVoted.
    destruct (Participant.selectedValue p); cbn [List.length]; [|reflexivity].
    rewrite total_set. lia.
Qed.

Lemma voters_hasVoted participants :
  filter hasVoted (voters participants) = voters participants.
Proof.
  unfold voters. induction participants as [|p r IH]; cbn; [reflexivity|].
  destruct (negb (Participant.isObserver p) && hasVoted p) eqn:E; cbn;
    [|assumption].
  apply andb_prop in E. destruct E as [_ ->]. now rewrite IH.
Qed.

(** *** The sort *)

Lemma insertSorted_perm {A} (compare : A -> A -> Z) x l :
  Permutation (insertSorted compare x l) (x :: l).
Proof.
  induction l as [|y r IH]; cbn; [reflexivity|].
  destruct (compare x y <=? 0)%Z; [reflexivity|].
  rewrite IH. apply perm_swap.
Qed.

Lemma sort_perm {A} (compare : A -> A -> Z) l : Permutation (sort compare l) l.
Proof.
  induction l as [|x r IH]; cbn; [constructor|].
  rewrite insertSorted_perm. now constructor.
Qed.

Lemma insertSorted_sorted x l :
  StronglySorted noFewerVotes l ->
  StronglySorted noFewerVotes (insertSorted byCountDescending x l).
Proof.
  induction 1 as [|y r Hr IH Hy]; cbn.
  - repeat constructor.
  - unfold byCountDescending at 1.
    destruct (Z.of_nat (snd y) - Z.of_nat (snd x) <=? 0)%Z eqn:E.
    + apply Z.leb_le in E. constructor; [now constructor|].
      constructor; [unfold noFewerVotes; lia|].
      rewrite Forall_forall in *. intros z Hz. specialize (Hy z Hz).
      unfold noFewerVotes in *. lia.
    + apply Z.leb_gt in E. constructor; [assumption|].
      rewrite Forall_forall in *. intros z Hz.
      apply (Permutation_in _ (insertSorted_perm byCountDescending x r)) in Hz.
      destruct Hz as [<-|Hz]; [unfold noFewerVotes; lia|now apply Hy].
Qed.

Lemma sort_sorted l : StronglySorted noFewerVotes (sort byCountDescending l).
Proof.
  induction l as [|x r IH]; cbn; [constructor|].
  now apply insertSorted_sorted.
Qed.

(** *** The distribution *)

Lemma distribution_get participants value :
  JsMap.get value (fold_left countVote (voters participants) JsMap.empty)
  = if (votesFor value participants =? 0)%nat then None
    else Some (votesFor value participants).
Proof. rewrite fold_countVote_get. reflexivity. Qed.

Lemma distribution_In participants value n :
  In (value, n) (voteDistribution participants)
  <-> n = votesFor value participants /\ n <> 0.
Proof.
  unfold voteDistribution. cbv zeta. unfold JsMap.entries.
  set (d := fold_left countVote (voters participants) JsMap.empty).
  assert (Hwf : JsMap.wf d) by (apply fold_countVote_wf, JsMapFacts.wf_empty).
  assert (Hin : In (value, n) (sort byCountDescending d) <-> In (value, n) d).
  { split; apply Permutation_in;
      [apply sort_perm|symmetry; apply sort_perm]. }
  rewrite Hin. split.
  - intros H. apply (JsMapFacts.In_get _ _ _ Hwf) in H.
    subst d. rewrite distribution_get in H.
    destruct (votesFor value participants =? 0)%nat eqn:E; [discriminate|].
    apply Nat.eqb_neq in E. injection H as <-. auto.
  - intros [-> Hn]. apply JsMapFacts.get_Some_In.
    subst d. rewrite distribution_get.
    apply Nat.eqb_neq in Hn. now rewrite Hn.
Qed.

Lemma distribution_keys participants :
  NoDup (map fst (voteDistribution participants)).
Proof.
  unfold voteDistribution. cbv zeta. unfold JsMap.entries.
  set (d := fold_left countVote (voters participants) JsMap.empty).
  assert (Hwf : JsMap.wf d) by (apply fold_countVote_wf, JsMapFacts.wf_empty).
  eapply Permutation_NoDup; [|exact Hwf].
  apply Permutation_map. symmetry. apply sort_perm.
Qed.

(** X13.  [voteDistribution] lists each value that has a vote exactly
    once, with the number of voters that selected it, the value with the
    most votes first; the counts add up to the number of voters. *)
Theorem voteDistribution_counts participants :
  (forall value n,
     In (value, n) (voteDistribution participants)
     <-> n = votesFor value participants /\ n <> 0)
  /\ NoDup (map fst (voteDistribution participants))
  /\ list_sum (map snd (voteDistribution participants))
     = List.length (voters participants)
  /\ StronglySorted noFewerVotes (voteDistribution participants).
Proof.
  split; [|split; [|split]].
  - intros value n. apply distribution_In.
  - apply distribution_keys.
  - unfold voteDistribution. cbv zeta. unfold JsMap.entries.
    rewrite (Permutation_list_sum
               (Permutation_map snd (sort_perm byCountDescending _))).
    rewrite fold_countVote_total, voters_hasVoted. reflexivity.
  - apply sort_sorted.
Qed.

Lemma votesFor_voter participants p value :
  In p (voters participants) ->
  Participant.selectedValue p = Some value ->
  votesFor value participants <> 0.
Proof.
  intros Hin Hv. unfold votesFor, votesIn.
  assert (H : In p (filter
                      (fun q => sameValue (Participant.selectedValue q)
                                  (Some value)) (voters participants))).
  { apply filter_In. split; [assumption|].
    rewrite Hv. cbn. apply String.eqb_refl. }
  destruct (filter _ (voters participants)); [destruct H|cbn; lia].
Qed.

Lemma votesFor_positive participants value :
  votesFor value participants <> 0 ->
  exists p, In p (voters participants)
            /\ Participant.selectedValue p = Some value.
Proof.
  unfold votesFor, votesIn. intros H.
  destruct (filter _ (voters participants)) as [|p r] eqn:E; [now cbn in H|].
  assert (Hin : In p (p :: r)) by now left.
  rewrite <- E in Hin. apply filter_In in Hin. destruct Hin as [Hin Hsame].
  exists p. split; [assumption|].
  now apply VotingProofs.sameValue_true in Hsame.
Qed.

Lemma same_keys_short {A} (l : list (string * A)) k :
  NoDup (map fst l) -> (forall e, In e l -> fst e = k) -> List.length l <= 1.
Proof.
  destruct l as [|e1 [|e2 r]]; cbn; intros Hnd Hk; try lia.
  exfalso. inversion Hnd as [|? ? Hnotin _]; subst. apply Hnotin.
  left. rewrite (Hk e1), (Hk e2); auto.
Qed.

(** X14.  Consensus is read off the distribution: [hasConsensus] holds
    exactly when there are at least two voters and [voteDistribution]
    has a single entry. *)
Theorem hasConsensus_single_entry participants :
  hasConsensus participants = true
  <-> 2 <= List.length (voters participants)
      /\ List.length (voteDistribution participants) = 1.
Proof.
  rewrite VotingProofs.hasConsensus_of_voters. unfold allVotersAgree.
  split.
  - intros [Hlen [v Hv]]. split; [assumption|].
    assert (Hle : List.length (voteDistribution participants) <= 1).
    { apply (same_keys_short _ v); [apply distribution_keys|].
      intros [w n] Hin. cbn. apply distribution_In in Hin.
      destruct Hin as [-> Hn].
      destruct (votesFor_positive _ _ Hn) as [p [Hp Hw]].
      rewrite (Hv p Hp) in Hw. congruence. }
    destruct (voters participants) as [|p r] eqn:E; [cbn in Hlen; lia|].
    assert (Hp : In p (voters participants)) by (rewrite E; now left).
    assert (Hin : In (v, votesFor v participants)
                    (voteDistribution participants)).
    { apply distribution_In. split; [reflexivity|].
      apply (votesFor_voter _ p); [assumption|]. apply Hv. now left. }
    destruct (voteDistribution participants); [destruct Hin|cbn in *; lia].
  - intros [Hlen Hone]. split; [assumption|].
    destruct (voteDistribution participants) as [|[v n] [|e r]] eqn:E;
      try discriminate.
    exists v. intros p Hp.
    destruct (proj1 (VotingProofs.voters_In participants p) Hp)
      as (_ & _ & [w Hw]).
    assert (Hin : In (w, votesFor w participants)
                    (voteDistribution participants)).
    { apply distribution_In. split; [reflexivity|].
      now apply (votesFor_voter _ p). }
    rewrite E in Hin. destruct Hin as [Heq|[]]. congruence.
Qed.

End StatisticsProofs.

(* ================================================================== *)
(** ** The channel: disconnecting, reconnecting, dispatching *)

Module ChannelExtras.

Import WebSocket Channel Subscriptions.

Local Open Scope Z_scope.

(** *** [disconnect] *)

Lemma disconnect_fields opts g :
  fst (disconnect opts g)
  = {| globalWs := None;
       globalReconnectAttempts := maxReconnectAttempts opts;
       globalReconnectTimer := None;
       globalPingInterval := None;
       globalHandlers := globalHandlers g;
       globalStatus := disconnected;
       isInitialized := isInitialized g |}.
Proof.
  destruct g as [ws a timer ping h s i]. unfold_actions. simpl_globals.
  destruct timer, ping, ws; reflexivity.
Qed.

Lemma runEach_cons rt opts ev evs g :
  runEach rt ((opts, ev) :: evs) g
  = (fst (runEach rt evs (fst (step opts rt ev g))),
     (snd (step opts rt ev g)
      ++ snd (runEach rt evs (fst (step opts rt ev g))))%list).
Proof.
  cbn [runEach]. unfold seq.
  destruct (step opts rt ev g) as [g1 e1]. cbn [fst snd].
  now destruct (runEach rt evs g1).
Qed.

Lemma runEach_ofOne opts rt evs g :
  runEach rt (ofOne opts evs) g = run opts rt evs g.
Proof.
  revert g. induction evs as [|ev r IH]; intros g; [reflexivity|].
  cbn [ofOne map]. rewrite runEach_cons, ChannelProofs.run_cons.
  fold (ofOne opts r). now rewrite !IH.
Qed.

(** Once the counter is at [limit] or above it does not fall below, and
    nothing is scheduled, through events that are [halted]. *)
Lemma halted_runEach limit rt evs : forall g,
  limit <= globalReconnectAttempts g ->
  halted limit evs = true ->
  limit <= globalReconnectAttempts (fst (runEach rt evs g))
  /\ scheduled (snd (runEach rt evs g)) = [].
Proof.
  induction evs as [|[opts ev] r IH]; intros g Hg Hevs.
  - split; [exact Hg|reflexivity].
  - cbn [halted forallb fst snd] in Hevs.
    apply andb_true_iff in Hevs. destruct Hevs as [Hev Hr].
    rewrite runEach_cons. cbn [fst snd].
    destruct (ChannelProofs.step_counter opts rt ev g) as [Ha Hs].
    assert (Hstep : limit <= nextAttempts opts ev (globalReconnectAttempts g)
                    /\ nextScheduled opts ev (globalReconnectAttempts g) = []).
    { destruct ev; cbn [nextAttempts nextScheduled]; try (split; [lia|]);
        try reflexivity; try discriminate.
      apply orb_true_iff in Hev. destruct Hev as [Hev|Hev].
      - apply negb_true_iff in Hev. rewrite Hev. cbn.
        split; [lia|reflexivity].
      - apply Z.leb_le in Hev.
        replace (globalReconnectAttempts g <? maxReconnectAttempts opts)
          with false by (symmetry; apply Z.ltb_ge; lia).
        rewrite andb_false_r. split; [lia|reflexivity]. }
    destruct Hstep as [Hlim Hnone].
    destruct (IH (fst (step opts rt ev g))) as [IHa IHs];
      [now rewrite Ha|exact Hr|].
    split; [exact IHa|].
    now rewrite ChannelProofs.scheduled_app, Hs, Hnone, IHs.
Qed.

(** X15.  [disconnect] leaves no socket, no reconnect timer and no ping
    interval, cancels a pending reconnect, keeps the handlers, and puts
    the attempt counter at the maximum of the component that calls it; a
    second [disconnect] by that component does nothing at all.  After
    it no reconnect is scheduled, whatever happens (the late close of the
    socket included), as long as no connect succeeds, every socket that
    closes belongs to a component that does not reconnect or whose
    maximum is not larger, and no component with a smaller maximum
    disconnects in between; this holds in particular when all components
    have the same options.  It is needed: the close of a socket of a
    reconnecting component with a larger maximum schedules a
    reconnect. *)
Theorem disconnect_halts_reconnects opts rt g evs :
  let g1 := fst (disconnect opts g) in
  globalWs g1 = None
  /\ globalReconnectTimer g1 = None
  /\ globalPingInterval g1 = None
  /\ globalStatus g1 = disconnected
  /\ globalHandlers g1 = globalHandlers g
  /\ globalReconnectAttempts g1 = maxReconnectAttempts opts
  /\ (In ClearTimeout (snd (disconnect opts g))
      <-> globalReconnectTimer g <> None)
  /\ (In SocketClose (snd (disconnect opts g)) <-> globalWs g <> None)
  /\ disconnect opts g1 = (g1, [])
  /\ (halted (maxReconnectAttempts opts) evs = true ->
      scheduled (snd (runEach rt evs g1)) = []
      /\ forall other,
           autoReconnect other = false
           \/ maxReconnectAttempts other <= maxReconnectAttempts opts ->
           scheduled (snd (onclose other (fst (runEach rt evs g1)))) = [])
  /\ (forall events,
        noSuccessfulConnect events = true ->
        halted (maxReconnectAttempts opts) (ofOne opts events) = true
        /\ scheduled (snd (run opts rt events g1)) = [])
  /\ (forall other,
        autoReconnect other = true ->
        maxReconnectAttempts opts < maxReconnectAttempts other ->
        List.length (scheduled (snd (onclose other g1))) = 1%nat).
Proof.
  cbv zeta. rewrite disconnect_fields. cbn [globalWs globalReconnectTimer
    globalPingInterval globalStatus globalHandlers globalReconnectAttempts].
  repeat (split; [reflexivity|]).
  split; [|split; [|split; [|split; [|split]]]].
  - run_action; cbn; split; intros H; try congruence;
      repeat (destruct H as [H|H]; try discriminate H); tauto.
  - run_action; cbn; split; intros H; try congruence;
      repeat (destruct H as [H|H]; try discriminate H); tauto.
  - run_action; try discriminate; reflexivity.
  - intros Hevs.
    match goal with |- context [runEach rt evs ?x] => set (g1 := x) end.
    destruct (halted_runEach (maxReconnectAttempts opts) rt evs g1)
      as [Ha Hs]; [cbn; lia|exact Hevs|].
    split; [exact Hs|]. intros other Hother.
    destruct (ChannelProofs.step_counter other rt SocketClosed
                (fst (runEach rt evs g1))) as [_ Hc].
    cbn [step] in Hc. rewrite Hc. cbn [nextScheduled].
    destruct Hother as [->|Hle]; [reflexivity|].
    replace (globalReconnectAttempts (fst (runEach rt evs g1))
             <? maxReconnectAttempts other)
      with false by (symmetry; apply Z.ltb_ge; lia).
    now rewrite andb_false_r.
  - intros events Hevents.
    assert (Hh : halted (maxReconnectAttempts opts) (ofOne opts events)
                 = true).
    { induction events as [|ev r IH]; [reflexivity|].
      cbn [noSuccessfulConnect forallb] in Hevents.
      apply andb_true_iff in Hevents. destruct Hevents as [Hev Hr].
      cbn [ofOne map halted forallb fst snd]. fold (ofOne opts r).
      fold (halted (maxReconnectAttempts opts) (ofOne opts r)).
      rewrite (IH Hr), andb_true_r.
      destruct ev; try reflexivity; try discriminate.
      - apply Z.leb_refl.
      - rewrite Z.leb_refl. apply orb_true_r. }
    split; [exact Hh|]. rewrite <- runEach_ofOne.
    eapply halted_runEach; [|exact Hh]. cbn. lia.
  - intros other Hauto Hlt.
    match goal with |- context [onclose other ?x] => set (g1 := x) end.
    destruct (ChannelProofs.step_counter other rt SocketClosed g1)
      as [_ Hc].
    cbn [step] in Hc. rewrite Hc.
    cbn [nextScheduled g1 globalReconnectAttempts].
    rewrite Hauto.
    replace (maxReconnectAttempts opts <? maxReconnectAttempts other)
      with true by (symmetry; apply Z.ltb_lt; lia).
    reflexivity.
Qed.

(** *** The schedule of reconnects *)

Lemma backoffs_S opts a n :
  backoffs opts a (S n)
  = (reconnectDelay opts * 2 ^ a) :: backoffs opts (a + 1) n.
Proof.
  unfold backoffs. cbn [List.seq map]. rewrite Z.add_0_r. f_equal.
  rewrite <- seq_shift, map_map. apply map_ext. intros k.
  do 2 f_equal. lia.
Qed.

Lemma uninterrupted_schedule opts rt evs : forall g,
  autoReconnect opts = true ->
  uninterrupted evs = true ->
  scheduled (snd (run opts rt evs g))
  = backoffs opts (globalReconnectAttempts g)
      (Nat.min (closes evs)
         (Z.to_nat (maxReconnectAttempts opts - globalReconnectAttempts g))).
Proof.
  induction evs as [|ev r IH]; intros g Hauto Hevs.
  - reflexivity.
  - cbn [uninterrupted forallb] in Hevs.
    apply andb_true_iff in Hevs. destruct Hevs as [Hev Hr].
    rewrite ChannelProofs.run_cons. cbn [fst snd].
    rewrite ChannelProofs.scheduled_app.
    destruct (ChannelProofs.step_counter opts rt ev g) as [Ha Hs].
    rewrite Hs.
    assert (Hother :
      (match ev with SocketClosed => false | _ => true end) = true ->
      nextAttempts opts ev (globalReconnectAttempts g)
      = globalReconnectAttempts g
      /\ nextScheduled opts ev (globalReconnectAttempts g) = []
      /\ closes (ev :: r) = closes r).
    { destruct ev; try discriminate; intros _; cbn; auto. }
    destruct ev; try (destruct (Hother eq_refl) as (Hn & -> & ->);
      rewrite Hn in Ha; rewrite IH, Ha by assumption;
      reflexivity); try discriminate.
    clear Hother. cbn [nextAttempts nextScheduled] in *.
    rewrite Hauto in *. cbn [andb] in *.
    change (closes (SocketClosed :: r)) with (S (closes r)).
    destruct (globalReconnectAttempts g <? maxReconnectAttempts opts) eqn:E.
    + apply Z.ltb_lt in E.
      rewrite IH by assumption. rewrite Ha.
      replace (Z.to_nat (maxReconnectAttempts opts - globalReconnectAttempts g))
        with (S (Z.to_nat (maxReconnectAttempts opts
                           - (globalReconnectAttempts g + 1)))) by lia.
      rewrite <- Nat.succ_min_distr, backoffs_S. cbn [app].
      unfold backoff. do 3 f_equal. lia.
    + apply Z.ltb_ge in E.
      rewrite IH by assumption. rewrite Ha.
      replace (Z.to_nat (maxReconnectAttempts opts - globalReconnectAttempts g))
        with 0%nat by lia.
      rewrite !Nat.min_0_r. reflexivity.
Qed.

Lemma manual_schedule opts rt evs : forall g,
  autoReconnect opts = false ->
  scheduled (snd (run opts rt evs g)) = [].
Proof.
  induction evs as [|ev r IH]; intros g Hauto.
  - reflexivity.
  - rewrite ChannelProofs.run_cons. cbn [fst snd].
    rewrite ChannelProofs.scheduled_app, IH by assumption.
    destruct (ChannelProofs.step_counter opts rt ev g) as [_ ->].
    destruct ev; cbn; try reflexivity. now rewrite Hauto.
Qed.

Lemma backoffs_exact opts a n :
  0 <= reconnectDelay opts < 2 ^ 53 ->
  0 <= a ->
  a + Z.of_nat n <= 972 ->
  Forall exactDouble (backoffs opts a n).
Proof.
  intros Hd Ha Hn. unfold backoffs. apply Forall_forall. intros d Hin.
  apply in_map_iff in Hin. destruct Hin as [k [<- Hk]].
  apply in_seq in Hk. exists (reconnectDelay opts), (a + Z.of_nat k).
  split; [reflexivity|]. split; [exact Hd|]. lia.
Qed.

(** X16.  With a [reconnectDelay] that is a non-negative integer below
    [2^53] and a [maxReconnectAttempts] of at most 972, so that every
    delay is a number the code computes exactly: after a successful
    connect, as long as no other connect succeeds and nobody disconnects,
    the reconnects that are scheduled are exactly one per close, up to
    [maxReconnectAttempts] of them, with the delays [reconnectDelay],
    [2 * reconnectDelay], [4 * reconnectDelay], ... in this order;
    without [autoReconnect] none is ever scheduled. *)
Theorem reconnect_schedule_doubles opts rt g evs :
  0 <= reconnectDelay opts < 2 ^ 53 ->
  maxReconnectAttempts opts <= 972 ->
  uninterrupted evs = true ->
  scheduled (snd (run opts rt evs (fst (onopen g))))
  = (if autoReconnect opts
     then backoffs opts 0
            (Nat.min (closes evs) (Z.to_nat (maxReconnectAttempts opts)))
     else [])
  /\ Forall exactDouble (scheduled (snd (run opts rt evs (fst (onopen g))))).
Proof.
  intros Hd Hmax Hevs.
  assert (H : scheduled (snd (run opts rt evs (fst (onopen g))))
              = if autoReconnect opts
                then backoffs opts 0
                       (Nat.min (closes evs)
                          (Z.to_nat (maxReconnectAttempts opts)))
                else []).
  { destruct (autoReconnect opts) eqn:Hauto.
    - rewrite uninterrupted_schedule by assumption.
      change (globalReconnectAttempts (fst (onopen g))) with 0.
      now rewrite Z.sub_0_r.
    - now apply manual_schedule. }
  split; [exact H|]. rewrite H.
  destruct (autoReconnect opts); [|constructor].
  apply backoffs_exact; [exact Hd|lia|lia].
Qed.

Lemma reconnect_schedule_doubles_witness :
  uninterrupted droppedSevenTimes = true
  /\ scheduled
       (snd (run defaultOptions browser droppedSevenTimes
               (fst (onopen initial))))
     = [1000; 2000; 4000; 8000; 16000].
Proof.
  split; [reflexivity|].
  refine (proj1 (reconnect_schedule_doubles defaultOptions browser initial
                   droppedSevenTimes _ _ eq_refl)).
  - cbn. lia.
  - cbn. lia.
Defined.

(** *** The automatic connect *)

Lemma mountRequests_app es1 es2 :
  mountRequests (es1 ++ es2) = (mountRequests es1 + mountRequests es2)%nat.
Proof. unfold mountRequests. now rewrite filter_app, length_app. Qed.

Lemma mountRequests_invocations payload (hs : list MessageHandler) :
  mountRequests (map (fun h => Invoke h payload) hs) = 0%nat.
Proof. induction hs as [|h r IH]; [reflexivity|exact IH]. Qed.

(** Only a call of [useWebSocket] registers [connect], and only the
    first one that asks for it. *)
Lemma step_mount opts rt ev g :
  let asked := client rt && asksToConnect (opts, ev) in
  isInitialized (fst (step opts rt ev g)) = isInitialized g || asked
  /\ mountRequests (snd (step opts rt ev g))
     = if negb (isInitialized g) && asked then 1%nat else 0%nat.
Proof.
  cbv zeta. unfold asksToConnect. cbn [fst snd].
  destruct ev;
    try (rewrite !andb_false_r, orb_false_r;
         run_action; cbn [mountRequests filter List.length];
         solve [split; reflexivity]).
  - unfold_actions. destruct (client rt), (autoConnect opts),
      (isInitialized g) eqn:E; simpl_globals; rewrite ?E; split; reflexivity.
  - rewrite !andb_false_r, orb_false_r.
    destruct message as [[type payload]|]; unfold_actions;
      [|split; reflexivity].
    destruct (JsMap.get type (globalHandlers g)); simpl_globals;
      [|split; reflexivity].
    split; [reflexivity|apply mountRequests_invocations].
Qed.

Lemma runEach_mount rt evs : forall g,
  let asked := client rt && existsb asksToConnect evs in
  isInitialized (fst (runEach rt evs g)) = isInitialized g || asked
  /\ mountRequests (snd (runEach rt evs g))
     = if negb (isInitialized g) && asked then 1%nat else 0%nat.
Proof.
  cbv zeta. induction evs as [|[opts ev] r IH]; intros g.
  - cbn. rewrite !andb_false_r, orb_false_r. split; reflexivity.
  - rewrite runEach_cons. cbn [fst snd existsb].
    destruct (step_mount opts rt ev g) as [Hi Hm].
    destruct (IH (fst (step opts rt ev g))) as [IHi IHm].
    rewrite mountRequests_app, Hm, IHm, IHi, Hi.
    destruct (isInitialized g), (client rt), (asksToConnect (opts, ev)),
      (existsb asksToConnect r); split; reflexivity.
Qed.

(** X18.  However many components call [useWebSocket], each with its own
    options, and whatever else happens in between, [connect] is
    registered to run on mount at most once: exactly once when the code
    runs in the browser and some call asks for [autoConnect], and never
    otherwise; [isInitialized] tells which. *)
Theorem automatic_connect_once rt evs :
  let es := snd (runEach rt evs initial) in
  let g := fst (runEach rt evs initial) in
  (mountRequests es <= 1)%nat
  /\ mountRequests es
     = (if client rt && existsb asksToConnect evs then 1%nat else 0%nat)
  /\ isInitialized g = client rt && existsb asksToConnect evs.
Proof.
  cbv zeta. destruct (runEach_mount rt evs initial) as [Hi Hm].
  cbn [initial isInitialized negb orb andb] in *.
  rewrite Hm, Hi. split; [|split; reflexivity].
  destruct (client rt && existsb asksToConnect evs); lia.
Qed.

(** *** What is transmitted *)

Lemma transmitted_app es1 es2 :
  transmitted (es1 ++ es2) = (transmitted es1 ++ transmitted es2)%list.
Proof. unfold transmitted. now rewrite flat_map_app. Qed.

Lemma transmitted_invocations payload (hs : list MessageHandler) :
  transmitted (map (fun h => Invoke h payload) hs) = [].
Proof. induction hs as [|h r IH]; [reflexivity|exact IH]. Qed.

(** What one event gives the socket. *)
Lemma step_transmits opts rt ev g :
  transmitted (snd (step opts rt ev g))
  = if isOpen g then frames ev else [].
Proof.
  destruct ev;
    try (run_action; cbn [transmitted flat_map app frames];
         solve [reflexivity | congruence | now destruct (isOpen g)]).
  destruct message as [[type payload]|]; unfold_actions; cbn [frames].
  - destruct (JsMap.get type (globalHandlers g)); simpl_globals;
      rewrite ?transmitted_invocations; now destruct (isOpen g).
  - now destruct (isOpen g).
Qed.

(** What one event makes of the socket [globalWs] refers to. *)
Lemma step_ws opts rt ev g :
  match ev with
  | ReadyStateChanges rs =>
      globalWs (fst (step opts rt ev g))
      = match globalWs g with Some _ => Some rs | None => None end
  | _ =>
      globalWs (fst (step opts rt ev g)) = globalWs g
      \/ globalWs (fst (step opts rt ev g)) = None
      \/ globalWs (fst (step opts rt ev g)) = Some CONNECTING
  end.
Proof.
  destruct ev; run_action; solve [auto | congruence].
Qed.

(** Only the socket itself becomes [OPEN]. *)
Lemma step_stays_closed opts rt ev g :
  isOpen g = false ->
  match ev with ReadyStateChanges OPEN => false | _ => true end = true ->
  isOpen (fst (step opts rt ev g)) = false.
Proof.
  intros Hg Hev. pose proof (step_ws opts rt ev g) as H.
  unfold isOpen in *.
  destruct ev; try (destruct H as [->| [->| ->]]; [exact Hg| |]; reflexivity).
  rewrite H. destruct (globalWs g); [|reflexivity].
  destruct rs; reflexivity || discriminate.
Qed.

(** X19.  The socket is given a frame only while it is [OPEN], and only
    by [send] and by the ping timer, one frame each: the envelope of the
    message, and a [ping] with an empty payload.  So as long as the
    socket has not become [OPEN], nothing at all is transmitted, and
    nothing is kept to be transmitted later. *)
Theorem nothing_sent_unless_open opts rt evs g :
  isOpen g = false ->
  neverOpen evs = true ->
  transmitted (snd (run opts rt evs g)) = []
  /\ isOpen (fst (run opts rt evs g)) = false
  /\ (forall ev g0,
        transmitted (snd (step opts rt ev g0))
        = if isOpen g0 then frames ev else []).
Proof.
  intros Hg Hevs. split; [|split].
  - revert g Hg. induction evs as [|ev r IH]; intros g Hg; [reflexivity|].
    cbn [neverOpen forallb] in Hevs.
    apply andb_true_iff in Hevs. destruct Hevs as [Hev Hr].
    rewrite ChannelProofs.run_cons. cbn [snd].
    rewrite transmitted_app, step_transmits, Hg.
    apply IH; [exact Hr|]. now apply step_stays_closed.
  - revert g Hg. induction evs as [|ev r IH]; intros g Hg; [exact Hg|].
    cbn [neverOpen forallb] in Hevs.
    apply andb_true_iff in Hevs. destruct Hevs as [Hev Hr].
    rewrite ChannelProofs.run_cons. cbn [fst].
    apply IH; [exact Hr|]. now apply step_stays_closed.
  - intros ev g0. apply step_transmits.
Qed.

Lemma nothing_sent_unless_open_witness :
  isOpen initial = false
  /\ neverOpen offline = true
  /\ transmitted (snd (run defaultOptions browser offline initial)) = [].
Proof.
  split; [reflexivity|]. split; [reflexivity|].
  exact (proj1 (nothing_sent_unless_open defaultOptions browser offline
                  initial eq_refl eq_refl)).
Defined.

(** *** [once] *)

Lemma filter_all {A} (f : A -> bool) l :
  (forall x, In x l -> f x = true) -> filter f l = l.
Proof.
  induction l as [|x r IH]; intros H; [reflexivity|].
  cbn. rewrite H by now left. f_equal. apply IH. intros y Hy. apply H.
  now right.
Qed.

Lemma filter_filter {A} (f g : A -> bool) l :
  filter f (filter g l) = filter (fun x => g x && f x) l.
Proof.
  induction l as [|x r IH]; [reflexivity|].
  cbn. destruct (g x); cbn; [|exact IH].
  destruct (f x); now rewrite IH.
Qed.

Lemma sameHandler_eq (h h' : MessageHandler) :
  sameHandler h h' = true <-> h = h'.
Proof. apply Nat.eqb_eq. Qed.

Lemma sameHandler_neq (h h' : MessageHandler) :
  sameHandler h h' = false <-> h <> h'.
Proof. apply Nat.eqb_neq. Qed.

Lemma registered_In type h g :
  registered type h g = true <-> In h (handlersFor type g).
Proof. apply ChannelProofs.has_In. Qed.

Lemma closureOf_once h wrapped type handler st :
  closureOf h (once wrapped type handler st)
  = if sameHandler h wrapped then Some (type, handler) else closureOf h st.
Proof.
  unfold closureOf, once. cbn [closures find fst snd].
  now destruct (sameHandler h wrapped).
Qed.

(** What the iteration over the handlers of a type does: it calls each
    of them, a closure of [once] calling the handler it wraps and
    leaving the set. *)
Lemma forEach_spec type payload pending : forall st,
  NoDup pending ->
  (forall h, In h pending -> In h (handlersFor type (globals st))) ->
  closuresWf st ->
  invoked (snd (forEach type pending payload st)) = map (target st) pending
  /\ closures (fst (forEach type pending payload st)) = closures st
  /\ (forall type',
        handlersFor type' (globals (fst (forEach type pending payload st)))
        = if String.eqb type type'
          then filter
                 (fun h => negb (isOnce st h
                                 && JsSet.has sameHandler h pending))
                 (handlersFor type (globals st))
          else handlersFor type' (globals st))
  /\ snd (forEach type pending payload st)
     = map (fun h => Invoke (target st h) payload) pending
  /\ globals (fst (forEach type pending payload st))
     = setHandlers
         (globalHandlers (globals (fst (forEach type pending payload st))))
         (globals st).
Proof.
  induction pending as [|h r IH]; intros st Hnd Hin Hwf.
  - cbn [forEach fst snd map]. split; [reflexivity|].
    split; [reflexivity|]. split.
    2:{ split; [reflexivity|].
        symmetry. apply ChannelProofs.setHandlers_same. }
    intros type'.
    destruct (String.eqb type type') eqn:E; [|reflexivity].
    apply String.eqb_eq in E. subst type'.
    rewrite filter_all; [reflexivity|].
    intros x _. cbn. now rewrite andb_false_r.
  - inversion Hnd as [|h0 r0 Hh Hr]; subst.
    assert (Hreg : registered type h (globals st) = true).
    { apply registered_In, Hin. now left. }
    cbn [forEach]. rewrite Hreg. unfold call.
    destruct (closureOf h st) as [[type0 wrappedHandler]|] eqn:Hc.
    + assert (type = type0) by (eapply Hwf; eassumption). subst type0.
      set (st1 := {| globals := fst (unsubscribe type h (globals st));
                      closures := closures st |}).
      destruct (ChannelProofs.unsubscribe_spec type h (globals st))
        as [_ Hun].
      assert (Hin1 : forall h', In h' r ->
                In h' (handlersFor type (globals st1))).
      { intros h' Hh'. cbn [st1 globals]. rewrite Hun, String.eqb_refl.
        apply ChannelProofs.delete_In. split.
        - intros ->. contradiction.
        - apply Hin. now right. }
      assert (Hwf1 : closuresWf st1).
      { intros h' t w t' Hc' Hreg'. apply (Hwf h' t w t' Hc').
        apply registered_In. apply registered_In in Hreg'.
        cbn [st1 globals] in Hreg'. rewrite Hun in Hreg'.
        destruct (String.eqb type t') eqn:E; [|exact Hreg'].
        apply String.eqb_eq in E. subst t'.
        now apply ChannelProofs.delete_In in Hreg'. }
      destruct (IH st1 Hr Hin1 Hwf1) as (Hi & Hcl & Hfor & He & Hg).
      destruct (forEach type r payload st1) as [st2 e2].
      cbn [fst snd] in *. split; [|split; [|split; [|split]]].
      4:{ cbn [app map]. rewrite He. f_equal.
          unfold target. now rewrite Hc. }
      4:{ etransitivity; [exact Hg|]. cbn [st1 globals].
          rewrite ChannelProofs.unsubscribe_fst.
          now destruct (JsMap.get type (globalHandlers (globals st))). }
      * cbn [app invoked flat_map map]. fold (invoked e2). rewrite Hi.
        unfold target at 2. now rewrite Hc.
      * exact Hcl.
      * intros type'. rewrite Hfor.
        destruct (String.eqb type type') eqn:E.
        -- cbn [st1 globals]. rewrite Hun, String.eqb_refl.
           unfold JsSet.delete at 1. rewrite filter_filter.
           apply filter_ext_in. intros x _.
           cbn [JsSet.has existsb]. fold (JsSet.has sameHandler x r).
           change (isOnce st1 x) with (isOnce st x).
           destruct (sameHandler h x) eqn:Ex.
           ++ apply sameHandler_eq in Ex. subst x.
              unfold isOnce. rewrite Hc.
              replace (sameHandler h h) with true
                by (symmetry; now apply sameHandler_eq).
              reflexivity.
           ++ replace (sameHandler x h) with false; [reflexivity|].
              symmetry. apply sameHandler_neq. intros ->.
              apply sameHandler_neq in Ex. now apply Ex.
        -- cbn [st1 globals]. now rewrite Hun, E.
    + assert (Hin1 : forall h', In h' r ->
                In h' (handlersFor type (globals st))).
      { intros h' Hh'. apply Hin. now right. }
      destruct (IH st Hr Hin1 Hwf) as (Hi & Hcl & Hfor & He & Hg).
      destruct (forEach type r payload st) as [st2 e2].
      cbn [fst snd] in *. split; [|split; [|split; [|split]]].
      4:{ cbn [app map]. rewrite He. f_equal.
          unfold target. now rewrite Hc. }
      4:{ exact Hg. }
      * cbn [app invoked flat_map map]. fold (invoked e2). rewrite Hi.
        unfold target at 2. now rewrite Hc.
      * exact Hcl.
      * intros type'. rewrite Hfor.
        destruct (String.eqb type type') eqn:E; [|reflexivity].
        apply filter_ext_in. intros x _.
        cbn [JsSet.has existsb]. fold (JsSet.has sameHandler x r).
        destruct (sameHandler x h) eqn:Ex; [|reflexivity].
        apply sameHandler_eq in Ex. subst x.
        unfold isOnce. now rewrite Hc.
Qed.


Lemma lasting_plain st hs h :
  In h (lasting st hs) -> closureOf h st = None.
Proof.
  unfold lasting. intros H. apply filter_In in H. destruct H as [_ H].
  unfold isOnce in H. now destruct (closureOf h st).
Qed.

(** X21.  [once(type, handler)] gives the handler the next message of
    the type and no other: on that message [handler] is called, after
    the handlers that were registered before it; its registration is
    then gone, together with those of the other one-time handlers of the
    type, while the lasting handlers stay as they are; so the message
    after it reaches the lasting handlers only.  A message of another
    type does not reach the handler. *)
Theorem once_fires_once wrapped type handler payload payload' st :
  handlersWf (globals st) ->
  closuresWf st ->
  fresh wrapped st ->
  let hs := handlersFor type (globals st) in
  let st1 := once wrapped type handler st in
  let first := dispatch type payload st1 in
  let second := dispatch type payload' (fst first) in
  invoked (snd first) = (map (target st) hs ++ [handler])%list
  /\ registered type wrapped (globals (fst first)) = false
  /\ handlersFor type (globals (fst first)) = lasting st hs
  /\ invoked (snd second) = lasting st hs
  /\ forall type', type' <> type ->
       handlersFor type' (globals st1) = handlersFor type' (globals st).
Proof.
  intros Hnd Hwf [Hfresh Hunreg]. cbv zeta.
  set (hs := handlersFor type (globals st)).
  set (st1 := once wrapped type handler st).
  destruct (ChannelProofs.on_spec type wrapped (globals st))
    as (_ & Hon & _).
  assert (Hnot : ~ In wrapped hs).
  { intros H. apply registered_In in H. rewrite Hunreg in H.
    discriminate. }
  assert (Hhs1 : handlersFor type (globals st1) = (hs ++ [wrapped])%list).
  { cbn [st1 once globals]. rewrite Hon, String.eqb_refl.
    unfold JsSet.add. fold hs.
    replace (JsSet.has sameHandler wrapped hs) with false; [reflexivity|].
    symmetry. apply Hunreg. }
  assert (Hother : forall type', type' <> type ->
            handlersFor type' (globals st1) = handlersFor type' (globals st)).
  { intros type' Hne. cbn [st1 once globals]. rewrite Hon.
    destruct (String.eqb type type') eqn:E; [|reflexivity].
    apply String.eqb_eq in E. congruence. }
  assert (Hnd0 : NoDup hs).
  { apply ChannelProofs.handlersWf_handlersFor. exact Hnd. }
  assert (Hnd1 : NoDup (hs ++ [wrapped])).
  { apply NoDup_app; [exact Hnd0|repeat constructor; intros []|].
    intros x Hx [<-|[]]. contradiction. }
  assert (Hold : forall h, In h hs -> closureOf h st1 = closureOf h st).
  { intros h Hh. unfold st1. rewrite closureOf_once.
    destruct (sameHandler h wrapped) eqn:E; [|reflexivity].
    apply sameHandler_eq in E. subst h. contradiction. }
  assert (Hnew : closureOf wrapped st1 = Some (type, handler)).
  { unfold st1. rewrite closureOf_once.
    replace (sameHandler wrapped wrapped) with true; [reflexivity|].
    symmetry. now apply sameHandler_eq. }
  assert (Hwf1 : closuresWf st1).
  { intros h t w t' Hc Hreg. unfold st1 in Hc. rewrite closureOf_once in Hc.
    apply registered_In in Hreg.
    destruct (String.eqb_spec t' type) as [->|Hne].
    - rewrite Hhs1 in Hreg.
      destruct (sameHandler h wrapped) eqn:E; [congruence|].
      apply in_app_or in Hreg. destruct Hreg as [Hreg|[<-|[]]].
      + eapply Hwf; [exact Hc|]. now apply registered_In.
      + apply sameHandler_neq in E. now contradiction E.
    - rewrite (Hother t' Hne) in Hreg.
      destruct (sameHandler h wrapped) eqn:E.
      + apply sameHandler_eq in E. subst h.
        apply registered_In in Hreg. rewrite Hunreg in Hreg. discriminate.
      + eapply Hwf; [exact Hc|]. now apply registered_In. }
  destruct (forEach_spec type payload (handlersFor type (globals st1)) st1)
    as (Hi & Hcl & Hfor & _ & _).
  { rewrite Hhs1. exact Hnd1. }
  { auto. }
  { exact Hwf1. }
  fold (dispatch type payload st1) in Hi, Hcl, Hfor.
  set (first := dispatch type payload st1) in *.
  assert (Hafter : handlersFor type (globals (fst first)) = lasting st hs).
  { rewrite Hfor, String.eqb_refl, Hhs1. rewrite filter_app.
    cbn [filter]. unfold isOnce at 2. rewrite Hnew.
    replace (JsSet.has sameHandler wrapped (hs ++ [wrapped])) with true.
    2:{ symmetry. apply ChannelProofs.has_In, in_or_app. right. now left. }
    cbn [andb negb]. rewrite app_nil_r. unfold lasting.
    apply filter_ext_in. intros x Hx. unfold isOnce. rewrite (Hold x Hx).
    replace (JsSet.has sameHandler x (hs ++ [wrapped])) with true.
    2:{ symmetry. apply ChannelProofs.has_In, in_or_app. now left. }
    now rewrite andb_true_r. }
  split; [|split; [|split; [|split]]].
  - rewrite Hi, Hhs1, map_app. cbn [map]. f_equal.
    + apply map_ext_in. intros x Hx. unfold target. now rewrite (Hold x Hx).
    + unfold target. now rewrite Hnew.
  - destruct (registered type wrapped (globals (fst first))) eqn:E;
      [|reflexivity].
    apply registered_In in E. rewrite Hafter in E.
    unfold lasting in E. apply filter_In in E. destruct E as [E _].
    contradiction.
  - exact Hafter.
  - destruct (forEach_spec type payload'
                (handlersFor type (globals (fst first))) (fst first))
      as (Hi2 & _ & _).
    { rewrite Hafter. unfold lasting. now apply NoDup_filter. }
    { auto. }
    { intros h t w t' Hc Hreg.
      assert (Hc1 : closureOf h st1 = Some (t, w)).
      { unfold closureOf in *. now rewrite Hcl in Hc. }
      apply (Hwf1 h t w t' Hc1).
      apply registered_In. apply registered_In in Hreg.
      rewrite Hfor in Hreg.
      destruct (String.eqb type t') eqn:E; [|exact Hreg].
      apply String.eqb_eq in E. subst t'.
      apply filter_In in Hreg. now destruct Hreg. }
    fold (dispatch type payload' (fst first)) in Hi2.
    rewrite Hi2, Hafter. rewrite <- (map_id (lasting st hs)) at 2.
    apply map_ext_in. intros x Hx.
    assert (Hp : closureOf x st = None) by (eapply lasting_plain; eauto).
    assert (Hxin : In x hs).
    { unfold lasting in Hx. apply filter_In in Hx. now destruct Hx. }
    unfold target.
    replace (closureOf x (fst first)) with (closureOf x st1)
      by (unfold closureOf; now rewrite Hcl).
    now rewrite (Hold x Hxin), Hp.
  - exact Hother.
Qed.

Lemma plain_wf : handlersWf (globals plain) /\ closuresWf plain.
Proof.
  split.
  - exact (ChannelProofs.run_handlersWf defaultOptions browser
             [CallOn "vote" 2%nat; CallOn "vote" 1%nat] initial
             ChannelProofs.initial_handlersWf).
  - intros h t w t' H. discriminate.
Qed.

Lemma plain_fresh : fresh 7%nat plain.
Proof.
  split; [reflexivity|]. intros type. unfold registered, handlersFor.
  change (globalHandlers (globals plain)) with [("vote", [2%nat; 1%nat])].
  cbn -[String.eqb].
  match goal with
  | |- context [String.eqb ?a ?b] => destruct (String.eqb a b)
  end; reflexivity.
Qed.

Lemma once_fires_once_witness :
  let st1 := once 7%nat "vote" 3%nat plain in
  let first := dispatch "vote" (Json.Str "5") st1 in
  invoked (snd first) = [2%nat; 1%nat; 3%nat]
  /\ invoked (snd (dispatch "vote" (Json.Str "8") (fst first)))
     = [2%nat; 1%nat].
Proof.
  cbv zeta.
  pose proof (once_fires_once 7%nat "vote" 3%nat (Json.Str "5")
                (Json.Str "8") plain (proj1 plain_wf) (proj2 plain_wf)
                plain_fresh) as H.
  cbv zeta in H. destruct H as (H1 & _ & _ & H2 & _).
  split; [exact H1|exact H2].
Defined.


(** *** Dispatch on the page *)

Lemma filter_fixed {A} (f : A -> bool) l :
  filter f l = l -> forall x, In x l -> f x = true.
Proof.
  intros H x Hx. rewrite <- H in Hx. now apply filter_In in Hx.
Qed.

Lemma lasting_same st1 st hs :
  closures st1 = closures st -> lasting st1 hs = lasting st hs.
Proof.
  intros H. unfold lasting, isOnce, closureOf. now rewrite H.
Qed.

Lemma lasting_lasting st hs : lasting st (lasting st hs) = lasting st hs.
Proof.
  unfold lasting. rewrite filter_filter. apply filter_ext.
  intros x. now destruct (isOnce st x).
Qed.

Lemma target_lasting st hs : map (target st) (lasting st hs) = lasting st hs.
Proof.
  rewrite <- (map_id (lasting st hs)) at 2. apply map_ext_in.
  intros x Hx. unfold target. now rewrite (lasting_plain _ _ _ Hx).
Qed.

(** The handlers a message of the type has reached are the lasting
    ones. *)
Lemma visited_lasting st hs :
  filter (fun h => negb (isOnce st h && JsSet.has sameHandler h hs)) hs
  = lasting st hs.
Proof.
  unfold lasting. apply filter_ext_in. intros x Hx.
  replace (JsSet.has sameHandler x hs) with true;
    [now rewrite andb_true_r|].
  symmetry. now apply ChannelProofs.has_In.
Qed.

(** Without a closure of [once] among the handlers of the type, the
    dispatch is the one of [emitEvent]. *)
Lemma forEach_plain type payload pending st :
  (forall h, In h pending ->
     closureOf h st = None /\ registered type h (globals st) = true) ->
  forEach type pending payload st
  = (st, map (fun h => Invoke h payload) pending).
Proof.
  induction pending as [|h r IH]; intros H; [reflexivity|].
  cbn [forEach map]. destruct (H h) as [Hc Hreg]; [now left|].
  rewrite Hreg. unfold call. rewrite Hc, IH; [reflexivity|].
  intros h' Hh'. apply H. now right.
Qed.

(** What a dispatch leaves is well formed. *)
Lemma dispatch_wf type payload st :
  handlersWf (globals st) ->
  closuresWf st ->
  handlersWf (globals (fst (dispatch type payload st)))
  /\ closuresWf (fst (dispatch type payload st)).
Proof.
  intros Hnd Hwf.
  assert (Hnd0 : forall t, NoDup (handlersFor t (globals st)))
    by now apply ChannelProofs.handlersWf_handlersFor.
  destruct (forEach_spec type payload (handlersFor type (globals st)) st)
    as (_ & Hcl & Hfor & _ & _); [apply Hnd0|auto|exact Hwf|].
  fold (dispatch type payload st) in Hcl, Hfor. split.
  - apply ChannelProofs.handlersWf_handlersFor. intros t. rewrite Hfor.
    destruct (String.eqb type t); [|apply Hnd0].
    apply NoDup_filter, Hnd0.
  - intros h t w t' Hc Hreg.
    assert (Hc0 : closureOf h st = Some (t, w)).
    { unfold closureOf in *. now rewrite Hcl in Hc. }
    apply (Hwf h t w t' Hc0).
    apply registered_In. apply registered_In in Hreg.
    rewrite Hfor in Hreg.
    destruct (String.eqb type t') eqn:E; [|exact Hreg].
    apply String.eqb_eq in E. subst t'.
    apply filter_In in Hreg. now destruct Hreg.
Qed.

(** X17.  A message invokes the handlers registered for its type, all of
    them and no others, each once, in the order in which they were
    registered, a closure of [once] calling the handler it wraps; it has
    no other effect, and changes nothing but the handlers of its type,
    of which the closures of [once] are gone afterwards; when there is
    none of these, it changes nothing at all and is the dispatch of
    [emitEvent].  A handler registered with [on] for the type of the
    message is invoked last when it is new; one registered for another
    type changes nothing about the dispatch.  A message that cannot be
    parsed invokes no handler and is only logged. *)
Theorem dispatch_in_registration_order
    rt opts type payload type' handler st :
  handlersWf (globals st) ->
  closuresWf st ->
  let hs := handlersFor type (globals st) in
  let r := pageStep rt (Of opts (SocketMessage (Some (type, payload)))) st in
  snd r = map (fun h => Invoke (target st h) payload) hs
  /\ invoked (snd r) = map (target st) hs
  /\ closures (fst r) = closures st
  /\ globals (fst r)
     = setHandlers (globalHandlers (globals (fst r))) (globals st)
  /\ (forall other,
        handlersFor other (globals (fst r))
        = if String.eqb type other then lasting st hs
          else handlersFor other (globals st))
  /\ (lasting st hs = hs ->
      r = (st, snd (onmessage (Some (type, payload)) (globals st)))
      /\ invoked (snd r) = hs)
  /\ (closureOf handler st = None ->
      invoked
        (snd (dispatch type payload (fst (lift (on type' handler) st))))
      = (if String.eqb type' type
            && negb (registered type handler (globals st))
         then map (target st) hs ++ [handler]
         else map (target st) hs)%list)
  /\ pageStep rt (Of opts (SocketMessage None)) st
     = (st, [ConsoleError "[WebSocket] Error parsing message:"]).
Proof.
  intros Hnd Hwf. cbv zeta. cbn [pageStep].
  assert (Hnd0 : forall t, NoDup (handlersFor t (globals st)))
    by now apply ChannelProofs.handlersWf_handlersFor.
  destruct (forEach_spec type payload (handlersFor type (globals st)) st)
    as (Hi & Hcl & Hfor & He & Hg); [apply Hnd0|auto|exact Hwf|].
  fold (dispatch type payload st) in Hi, Hcl, Hfor, He, Hg.
  split; [exact He|]. split; [exact Hi|]. split; [exact Hcl|].
  split; [exact Hg|]. split.
  { intros other. rewrite Hfor. now rewrite visited_lasting. }
  split.
  { intros Hall. unfold dispatch.
    rewrite forEach_plain.
    - cbn [onmessage]. rewrite ChannelProofs.emitEvent_spec. cbn [snd].
      split; [reflexivity|]. apply ChannelProofs.invoked_invocations.
    - intros h Hh. split; [|now apply registered_In].
      pose proof (filter_fixed _ _ Hall h Hh) as Hp. unfold isOnce in Hp.
      now destruct (closureOf h st). }
  split.
  { intros Hplain.
    set (st1 := fst (lift (on type' handler) st)).
    destruct (ChannelProofs.on_spec type' handler (globals st))
      as (_ & Hon & _).
    assert (Hfor1 : forall t,
      handlersFor t (globals st1)
      = if String.eqb type' t
        then JsSet.add sameHandler handler (handlersFor type' (globals st))
        else handlersFor t (globals st)) by (intros t; apply Hon).
    assert (Hnd1 : forall t, NoDup (handlersFor t (globals st1))).
    { intros t. rewrite Hfor1. destruct (String.eqb type' t); [|apply Hnd0].
      apply ChannelProofs.add_NoDup, Hnd0. }
    assert (Hwf1 : closuresWf st1).
    { intros h t w t'' Hc Hreg.
      change (closureOf h st1) with (closureOf h st) in Hc.
      apply (Hwf h t w t'' Hc). apply registered_In.
      apply registered_In in Hreg. rewrite Hfor1 in Hreg.
      destruct (String.eqb type' t'') eqn:E; [|exact Hreg].
      apply String.eqb_eq in E. subst t''.
      apply ChannelProofs.add_In in Hreg. destruct Hreg as [->|Hreg];
        [congruence|exact Hreg]. }
    destruct (forEach_spec type payload (handlersFor type (globals st1)) st1)
      as (Hi1 & _); [apply Hnd1|auto|exact Hwf1|].
    fold (dispatch type payload st1) in Hi1. rewrite Hi1, Hfor1.
    assert (Htarget : forall l, map (target st1) l = map (target st) l)
      by (intros l; apply map_ext; reflexivity).
    rewrite Htarget.
    destruct (String.eqb type' type) eqn:E; [|reflexivity].
    apply String.eqb_eq in E. subst type'. cbn [andb].
    unfold registered, JsSet.add.
    destruct (JsSet.has sameHandler handler (handlersFor type (globals st)));
      [reflexivity|].
    cbn [negb]. rewrite map_app. cbn [map]. unfold target at 2.
    now rewrite Hplain. }
  destruct st as [g cl]. reflexivity.
Qed.

Lemma waiting_wf : handlersWf (globals waiting) /\ closuresWf waiting.
Proof.
  split.
  - exact (ChannelProofs.run_handlersWf defaultOptions browser
             [CallOn "vote" 2%nat; CallOn "vote" 1%nat; CallOn "vote" 7%nat]
             initial ChannelProofs.initial_handlersWf).
  - intros h t w t' Hc Hreg. unfold closureOf in Hc. cbn in Hc.
    destruct (sameHandler h 7%nat); [|discriminate].
    injection Hc as <- <-.
    unfold registered, handlersFor in Hreg.
    change (globalHandlers (globals waiting))
      with [("vote", [2%nat; 1%nat; 7%nat])] in Hreg.
    cbn -[String.eqb] in Hreg.
    destruct (String.eqb_spec "vote" t'); [congruence|discriminate].
Qed.

Lemma dispatch_in_registration_order_witness :
  let message :=
    Of defaultOptions (SocketMessage (Some ("vote", Json.Str "5"))) in
  invoked (snd (pageStep browser message waiting)) = [2%nat; 1%nat; 3%nat]
  /\ handlersFor "vote" (globals (fst (pageStep browser message waiting)))
     = [2%nat; 1%nat].
Proof.
  cbv zeta.
  destruct (dispatch_in_registration_order browser defaultOptions "vote"
              (Json.Str "5") "vote" 4%nat waiting (proj1 waiting_wf)
              (proj2 waiting_wf)) as (_ & H2 & _ & _ & H5 & _).
  split; [exact H2|exact (H5 "vote")].
Defined.


(** *** The handlers outlive the connection *)

Lemma pageRun_cons rt ev evs st :
  pageRun rt (ev :: evs) st
  = (fst (pageRun rt evs (fst (pageStep rt ev st))),
     (snd (pageStep rt ev st)
      ++ snd (pageRun rt evs (fst (pageStep rt ev st))))%list).
Proof.
  cbn [pageRun]. destruct (pageStep rt ev st) as [st1 e1]. cbn [fst snd].
  now destruct (pageRun rt evs st1).
Qed.

(** Well-formedness looks at the handlers and the closures only. *)
Lemma same_handlers_wf st st1 :
  globalHandlers (globals st1) = globalHandlers (globals st) ->
  closures st1 = closures st ->
  handlersWf (globals st) /\ closuresWf st ->
  handlersWf (globals st1) /\ closuresWf st1.
Proof.
  intros Hh Hc [Hnd Hwf]. split.
  - unfold handlersWf. rewrite Hh. exact Hnd.
  - intros h t w t' Hcl Hreg. apply (Hwf h t w t').
    + unfold closureOf in *. now rewrite <- Hc.
    + unfold registered, handlersFor in *. now rewrite <- Hh.
Qed.

(** What one event, other than a call of [on], of [once] or of an
    unsubscribe function, does to the handlers. *)
Lemma pageStep_handlers rt ev st :
  noSubscriptionCall [ev] = true ->
  handlersWf (globals st) /\ closuresWf st ->
  let st1 := fst (pageStep rt ev st) in
  closures st1 = closures st
  /\ (handlersWf (globals st1) /\ closuresWf st1)
  /\ forall type,
       handlersFor type (globals st1)
       = if received type [ev]
         then lasting st (handlersFor type (globals st))
         else handlersFor type (globals st).
Proof.
  intros Hev Hwf. cbv zeta.
  assert (Hlift : forall opts ev0,
    globalHandlers (fst (step opts rt ev0 (globals st)))
    = globalHandlers (globals st) ->
    received "" [Of opts ev0] = false ->
    (forall type, received type [Of opts ev0] = false) ->
    let st1 := fst (lift (step opts rt ev0) st) in
    closures st1 = closures st
    /\ (handlersWf (globals st1) /\ closuresWf st1)
    /\ forall type,
         handlersFor type (globals st1)
         = if received type [Of opts ev0]
           then lasting st (handlersFor type (globals st))
           else handlersFor type (globals st)).
  { intros opts ev0 Hkeep _ Hnone. cbv zeta. cbn [lift fst].
    split; [reflexivity|]. split.
    - apply (same_handlers_wf st); [exact Hkeep|reflexivity|exact Hwf].
    - intros type. rewrite Hnone. unfold handlersFor. cbn [globals].
      now rewrite Hkeep. }
  destruct ev as [opts ev0|wrapped type0 handler]; [|discriminate].
  pose proof (ChannelProofs.step_keeps_handlers opts rt ev0 (globals st))
    as Hkeep.
  destruct ev0;
    try (cbn [pageStep]; apply Hlift; [exact Hkeep|reflexivity|reflexivity]);
    try discriminate.
  destruct message as [[type0 payload]|];
    [|cbn [pageStep]; apply Hlift;
      [exact Hkeep|reflexivity|reflexivity]].
  cbn [pageStep]. destruct Hwf as [Hnd Hwf].
  assert (Hnd0 : forall t, NoDup (handlersFor t (globals st)))
    by now apply ChannelProofs.handlersWf_handlersFor.
  destruct (forEach_spec type0 payload (handlersFor type0 (globals st)) st)
    as (_ & Hcl & Hfor & _ & _); [apply Hnd0|auto|exact Hwf|].
  fold (dispatch type0 payload st) in Hcl, Hfor.
  split; [exact Hcl|]. split; [now apply dispatch_wf|].
  intros type. rewrite Hfor. cbn [received existsb]. rewrite orb_false_r.
  destruct (String.eqb type0 type) eqn:E; [|reflexivity].
  apply String.eqb_eq in E. subst type0. apply visited_lasting.
Qed.

Lemma pageRun_handlers rt evs : forall st,
  noSubscriptionCall evs = true ->
  handlersWf (globals st) /\ closuresWf st ->
  let st' := fst (pageRun rt evs st) in
  closures st' = closures st
  /\ (handlersWf (globals st') /\ closuresWf st')
  /\ forall type,
       handlersFor type (globals st')
       = if received type evs
         then lasting st (handlersFor type (globals st))
         else handlersFor type (globals st).
Proof.
  induction evs as [|ev r IH]; intros st Hevs Hwf; cbv zeta.
  - cbn [pageRun fst]. split; [reflexivity|]. split; [exact Hwf|].
    reflexivity.
  - cbn [noSubscriptionCall forallb] in Hevs.
    apply andb_true_iff in Hevs. destruct Hevs as [Hev Hr].
    rewrite pageRun_cons. cbn [fst].
    destruct (pageStep_handlers rt ev st) as (Hc1 & Hwf1 & Hfor1);
      [cbn [noSubscriptionCall forallb]; now rewrite Hev|exact Hwf|].
    destruct (IH (fst (pageStep rt ev st)) Hr Hwf1) as (Hc2 & Hwf2 & Hfor2).
    split; [now rewrite Hc2|]. split; [exact Hwf2|].
    intros type. rewrite Hfor2, Hfor1, (lasting_same _ st _ Hc1).
    replace (received type (ev :: r))
      with (received type [ev] || received type r)
      by (cbn [received existsb]; now rewrite orb_false_r).
    destruct (received type [ev]), (received type r); cbn [orb];
      try reflexivity.
    apply lasting_lasting.
Qed.

(** X20.  The lasting handlers belong to the page, not to the
    connection: as long as nobody calls [on], [once] or an unsubscribe
    function, whatever happens to the connection (messages, closes,
    errors, reconnects, [disconnect] and [connect]), the handlers of a
    type are those that were registered, in the same order, but for the
    closures of [once], which are gone once a message of the type has
    arrived; so the next message of the type reaches every lasting
    handler, and is the first to reach the one-time handlers if none has
    arrived. *)
Theorem handlers_outlive_connection rt evs st :
  handlersWf (globals st) ->
  closuresWf st ->
  noSubscriptionCall evs = true ->
  let st' := fst (pageRun rt evs st) in
  closures st' = closures st
  /\ (forall type,
        handlersFor type (globals st')
        = if received type evs
          then lasting st (handlersFor type (globals st))
          else handlersFor type (globals st))
  /\ (forall type,
        lasting st (handlersFor type (globals st'))
        = lasting st (handlersFor type (globals st)))
  /\ (forall type payload,
        invoked (snd (dispatch type payload st'))
        = if received type evs
          then lasting st (handlersFor type (globals st))
          else map (target st) (handlersFor type (globals st))).
Proof.
  intros Hnd Hwf Hevs. cbv zeta.
  destruct (pageRun_handlers rt evs st Hevs (conj Hnd Hwf))
    as (Hcl & [Hnd' Hwf'] & Hfor).
  split; [exact Hcl|]. split; [exact Hfor|]. split.
  - intros type. rewrite Hfor.
    destruct (received type evs); [apply lasting_lasting|reflexivity].
  - intros type payload.
    assert (Hnd0 : forall t,
              NoDup (handlersFor t (globals (fst (pageRun rt evs st)))))
      by now apply ChannelProofs.handlersWf_handlersFor.
    destruct (forEach_spec type payload
                (handlersFor type (globals (fst (pageRun rt evs st))))
                (fst (pageRun rt evs st)))
      as (Hi & _); [apply Hnd0|auto|exact Hwf'|].
    fold (dispatch type payload (fst (pageRun rt evs st))) in Hi.
    rewrite Hi, Hfor.
    assert (Htarget : forall l,
              map (target (fst (pageRun rt evs st))) l = map (target st) l).
    { intros l. apply map_ext. intros h. unfold target, closureOf.
      now rewrite Hcl. }
    rewrite Htarget.
    destruct (received type evs); [apply target_lasting|reflexivity].
Qed.

Lemma handlers_outlive_connection_witness :
  noSubscriptionCall unstable = true
  /\ handlersFor "vote" (globals (fst (pageRun browser unstable waiting)))
     = [2%nat; 1%nat]
  /\ (forall payload,
        invoked
          (snd (dispatch "vote" payload
                  (fst (pageRun browser unstable waiting))))
        = [2%nat; 1%nat]).
Proof.
  destruct (handlers_outlive_connection browser unstable waiting
              (proj1 waiting_wf) (proj2 waiting_wf) eq_refl)
    as (_ & H2 & _ & H4).
  split; [reflexivity|]. split; [exact (H2 "vote")|].
  intros payload. exact (H4 "vote" payload).
Defined.

End ChannelExtras.

(* ================================================================== *)
(** ** The join form and the list of participants *)

Module FormProofs.

Import SessionManager Registry Lifecycle JoinSessionForm.

Lemma trimStart_all_blank s : blank s = true -> JsString.trimStart s = "".
Proof.
  induction s as [|c r IH]; [reflexivity|]. unfold blank. cbn.
  intros H. apply andb_true_iff in H. destruct H as [-> Hr]. now apply IH.
Qed.

Lemma trimEnd_nonspace c r :
  JsString.isSpace c = false -> JsString.trimEnd (String c r) <> "".
Proof.
  intros Hc. cbn. rewrite Hc. now destruct (JsString.trimEnd r).
Qed.

(** [trim] gives the empty string for white space, and only for it. *)
Lemma trim_empty_iff s : JsString.trim s = "" <-> blank s = true.
Proof.
  unfold JsString.trim. split.
  - induction s as [|c r IH]; [reflexivity|]. unfold blank in *.
    cbn [JsString.trimStart JsString.chars forallb].
    destruct (JsString.isSpace c) eqn:Hc; [exact IH|].
    intros H. now apply trimEnd_nonspace in H.
  - intros H. now rewrite trimStart_all_blank.
Qed.

(** X22.  The form emits [join] only with a code of [JOIN_CODE_LENGTH]
    characters and a name that is not empty, both without white space
    around them, and emits nothing otherwise.  A code the registry has
    issued passes, also when it is typed with white space around it, as
    long as the name is not blank; what is emitted is the code itself,
    and the registry resolves it to the session it was issued for. *)
Theorem join_form_accepts_issued_codes
    alphabet m sessionId code (pre post name : string) observer :
  upperCaseAlphabet alphabet = true ->
  nonEmpty alphabet = true ->
  reachable alphabet m ->
  getJoinCode sessionId m = Some code ->
  JsString.truthy sessionId = true ->
  blank pre = true ->
  blank post = true ->
  blank name = false ->
  let inputs := {| joinCode := pre ++ code ++ post;
                   participantName := name;
                   asObserver := observer |} in
  handleSubmit inputs = [Join code (JsString.trim name) observer]
  /\ (exists s,
        getSessionById sessionId m = Some s
        /\ getSessionByJoinCode code m = Some s)
  /\ forall other : Inputs,
       match handleSubmit other with
       | [] =>
           String.length (JsString.trim (joinCode other)) <> JOIN_CODE_LENGTH
           \/ blank (participantName other) = true
       | [Join c n o] =>
           String.length c = JOIN_CODE_LENGTH
           /\ JsString.trim c = c
           /\ n <> ""%string
           /\ JsString.trim n = n
           /\ o = asObserver other
       | _ => False
       end.
Proof.
  intros Hup Hne Hreach Hcode Hid Hpre Hpost Hname. cbv zeta.
  destruct (RegistryProofs.reachable_consistent _ _ Hreach) as [failed Hm].
  assert (Hget : JsMap.get code (joinCodes m) = Some sessionId).
  { apply RegistryProofs.getJoinCode_get; [apply Hm|exact Hcode]. }
  destruct (RegistryProofs.reachable_codesWellFormed _ _ Hne Hreach _ _ Hget)
    as [Hlen Hchars].
  assert (Hcanon : forallb canonicalChar (JsString.chars code) = true).
  { apply forallb_forall. intros c Hc.
    unfold upperCaseAlphabet in Hup.
    rewrite forallb_forall in Hup. apply Hup, Hchars, Hc. }
  assert (Htrim : JsString.trim (pre ++ code ++ post) = code).
  { rewrite NormalFormFacts.trim_blank by assumption.
    now apply JoinCodeFacts.trim_canonical. }
  assert (Hn : JsString.trim name <> ""%string).
  { intros H. apply trim_empty_iff in H. congruence. }
  split; [|split].
  - unfold handleSubmit, isValid.
    cbn [joinCode participantName asObserver].
    rewrite Htrim, Hlen, Nat.eqb_refl.
    destruct (JsString.trim name) as [|c r]; [contradiction|reflexivity].
  - destruct (consistent_live _ _ Hm _ _ Hget) as [s Hs].
    exists s. split; [exact Hs|].
    unfold getSessionByJoinCode. cbv zeta.
    rewrite (JoinCodeFacts.normalize_code alphabet code Hup Hchars).
    now rewrite Hget, Hid.
  - intros other. unfold handleSubmit, isValid.
    destruct (String.length (JsString.trim (joinCode other))
              =? JOIN_CODE_LENGTH)%nat eqn:E; cbn [andb].
    + apply Nat.eqb_eq in E.
      destruct (0 <? String.length (JsString.trim (participantName other)))%nat
        eqn:F.
      * split; [exact E|]. split; [apply NormalFormFacts.trim_idempotent|].
        split; [|split; [apply NormalFormFacts.trim_idempotent|reflexivity]].
        intros H. rewrite H in F. discriminate.
      * right. apply trim_empty_iff.
        now destruct (JsString.trim (participantName other)).
    + left. now apply Nat.eqb_neq.
Qed.

Lemma join_form_accepts_issued_codes_witness :
  handleSubmit {| joinCode := " " ++ "DLT29G" ++ "  ";
                  participantName := " Carol ";
                  asObserver := false |}
  = [Join "DLT29G" "Carol" false]
  /\ exists s,
       getSessionById "s-1" Example.registry2 = Some s
       /\ getSessionByJoinCode "DLT29G" Example.registry2 = Some s.
Proof.
  pose proof (join_form_accepts_issued_codes Example.alphabet
                Example.registry2 "s-1" "DLT29G" " " "  " " Carol " false
                eq_refl eq_refl RegistryProofs.example_reachable
                eq_refl eq_refl eq_refl eq_refl eq_refl) as H.
  cbv zeta in H. destruct H as (H1 & H2 & _). split; [exact H1|exact H2].
Defined.

End FormProofs.

Module ListProofs.

Import VotingStatistics ParticipantList.

Local Open Scope Z_scope.

Section Sorting.

Variable localeCompare : string -> string -> Z.
Variable currentUserId : string.

Lemma compare_before a b :
  currentFirstThenByName localeCompare currentUserId a b <= 0
  <-> listedBefore localeCompare currentUserId a b.
Proof.
  unfold currentFirstThenByName, listedBefore.
  destruct (String.eqb_spec (Participant.id a) currentUserId) as [Ha|Ha].
  - split; [now left|lia].
  - destruct (String.eqb_spec (Participant.id b) currentUserId) as [Hb|Hb].
    + split; [lia|]. intros [H|[H _]]; contradiction.
    + split; [now right|]. now intros [H|[_ H]].
Qed.

Hypothesis consistent : ordersAll localeCompare.

Lemma before_total a b :
  listedBefore localeCompare currentUserId a b
  \/ listedBefore localeCompare currentUserId b a.
Proof.
  unfold listedBefore.
  destruct (String.eqb_spec (Participant.id a) currentUserId) as [Ha|Ha];
    [now left; left|].
  destruct (String.eqb_spec (Participant.id b) currentUserId) as [Hb|Hb];
    [now right; left|].
  destruct (proj1 consistent (Participant.name a) (Participant.name b));
    [left|right]; right; now split.
Qed.

Lemma before_trans a b c :
  listedBefore localeCompare currentUserId a b ->
  listedBefore localeCompare currentUserId b c ->
  listedBefore localeCompare currentUserId a c.
Proof.
  unfold listedBefore. intros [Ha|[Hb Hab]]; [now left|].
  intros [Hb'|[Hc Hbc]]; [contradiction|]. right. split; [exact Hc|].
  exact (proj2 consistent _ _ _ Hab Hbc).
Qed.

Lemma insertSorted_ordered x l :
  StronglySorted (listedBefore localeCompare currentUserId) l ->
  StronglySorted (listedBefore localeCompare currentUserId)
    (insertSorted (currentFirstThenByName localeCompare currentUserId) x l).
Proof.
  induction 1 as [|y r Hr IH Hy]; cbn [insertSorted].
  - repeat constructor.
  - destruct (currentFirstThenByName localeCompare currentUserId x y <=? 0)
      eqn:E.
    + apply Z.leb_le, compare_before in E.
      constructor; [now constructor|]. constructor; [exact E|].
      rewrite Forall_forall in *. intros z Hz.
      eapply before_trans; [exact E|]. now apply Hy.
    + apply Z.leb_gt in E.
      assert (Hyx : listedBefore localeCompare currentUserId y x).
      { destruct (before_total x y) as [H|H]; [|exact H].
        apply compare_before in H. lia. }
      constructor; [exact IH|].
      rewrite Forall_forall in *. intros z Hz.
      apply (Permutation_in _
               (StatisticsProofs.insertSorted_perm
                  (currentFirstThenByName localeCompare currentUserId) x r))
        in Hz.
      destruct Hz as [<-|Hz]; [exact Hyx|now apply Hy].
Qed.

Lemma sort_ordered l :
  StronglySorted (listedBefore localeCompare currentUserId)
    (sort (currentFirstThenByName localeCompare currentUserId) l).
Proof.
  induction l as [|x r IH]; cbn; [constructor|].
  now apply insertSorted_ordered.
Qed.

End Sorting.

(** X23.  With a [localeCompare] that orders all strings, the list shows
    the participants it was given, each as often as it was given; the
    current user, when among them, comes first; and the others follow in
    the order of their names. *)
Theorem current_user_listed_first localeCompare currentUserId participants :
  ordersAll localeCompare ->
  let sorted := sortedParticipants localeCompare currentUserId participants in
  Permutation sorted participants
  /\ StronglySorted (listedBefore localeCompare currentUserId) sorted
  /\ ((exists p, In p participants /\ Participant.id p = currentUserId) ->
      exists first others,
        sorted = first :: others /\ Participant.id first = currentUserId)
  /\ forall l1 a l2 b l3,
       sorted = (l1 ++ a :: l2 ++ b :: l3)%list ->
       Participant.id a <> currentUserId ->
       Participant.id b <> currentUserId
       /\ localeCompare (Participant.name a) (Participant.name b) <= 0.
Proof.
  intros Hcons. cbv zeta. unfold sortedParticipants.
  pose proof (StatisticsProofs.sort_perm
                (currentFirstThenByName localeCompare currentUserId)
                participants) as Hperm.
  pose proof (sort_ordered localeCompare currentUserId Hcons participants)
    as Hsorted.
  set (sorted := sort _ participants) in *.
  split; [exact Hperm|]. split; [exact Hsorted|]. split.
  - intros [p [Hp Hid]].
    apply (Permutation_in _ (Permutation_sym Hperm)) in Hp.
    destruct sorted as [|first others]; [contradiction|].
    exists first, others. split; [reflexivity|].
    destruct Hp as [->|Hp]; [exact Hid|].
    inversion Hsorted as [|? ? _ Hall]; subst.
    rewrite Forall_forall in Hall.
    destruct (Hall p Hp) as [H|[H _]]; [exact H|contradiction].
  - intros l1 a l2 b l3 E Ha. rewrite E in Hsorted.
    clear E Hperm. induction l1 as [|x l1 IH].
    + inversion Hsorted as [|? ? _ Hall]; subst.
      rewrite Forall_forall in Hall.
      destruct (Hall b) as [H|H]; [|contradiction|exact H].
      apply in_or_app. right. now left.
    + inversion Hsorted; subst. now apply IH.
Qed.

Lemma byLength_ordersAll : ordersAll byLength.
Proof. unfold ordersAll, byLength. split; intros; lia. Qed.

Lemma current_user_listed_first_witness :
  sortedParticipants byLength "p-3"
    [Consensus.alice; Consensus.bob; Consensus.carol; Consensus.dave]
  = [Consensus.carol; Consensus.bob; Consensus.dave; Consensus.alice]
  /\ Permutation
       (sortedParticipants byLength "p-3"
          [Consensus.alice; Consensus.bob; Consensus.carol; Consensus.dave])
       [Consensus.alice; Consensus.bob; Consensus.carol; Consensus.dave].
Proof.
  split; [reflexivity|].
  exact (proj1 (current_user_listed_first byLength "p-3"
                  [Consensus.alice; Consensus.bob; Consensus.carol;
                   Consensus.dave] byLength_ordersAll)).
Defined.

End ListProofs.
